(** * OnboardLite: the Apple Wallet pass builder of [app/routes/wallet.py]

    A shallow embedding of [get_img] and [apple_wallet] and the properties
    of the passes they produce.  Python values are an inductive type, the
    profile dictionary is a finite map, and the effects of the code (file
    reads, HTTP requests, drawing a UUID, exceptions) are threaded through
    a state-and-exception monad. *)

From Stdlib Require Import ZArith NArith Ascii String List Lia SpecFloat.
From stdpp Require Import base option list gmap strings fin_maps.

Set Warnings "-register-all".
Local Open Scope string_scope.

(** ** Python values *)

Definition bytes := list Byte.byte.

(** The values a profile dictionary and the pass manifest are made of.  A
    float is the binary64 number itself. *)
Inductive pyval : Type :=
| PNone
| PBool (b : bool)
| PInt (z : Z)
| PFloat (f : spec_float)
| PStr (s : string)
| PList (l : list pyval)
| PDict (d : gmap string pyval).

Abbreviation pydict := (gmap string pyval).

(** Python's truth value testing, as used by [if x:] and [x if c else y]. *)
Definition truthy (v : pyval) : bool :=
  match v with
  | PNone => false
  | PBool b => b
  | PInt z => negb (Z.eqb z 0)
  | PFloat f => match f with S754_zero _ => false | _ => true end
  | PStr s => negb (String.eqb s "")
  | PList l => match l with [] => false | _ => true end
  | PDict d => negb (bool_decide (d = ∅))
  end.

(** [d.get(key, default)] on a dict. *)
Definition dict_get (d : pydict) (key : string) (dflt : pyval) : pyval :=
  default dflt (d !! key).

(** ** Exceptions, the environment and the effects of the code *)

Inductive exn : Type :=
| AttributeError
| TypeError
| AssertionError
| FileNotFoundError (path : string)
| RecursionError
| RequestException
| SigningError.

(** The [requests.Response] that [requests.get] returns, the last of the
    chain when the library followed redirects: its status code and its raw
    body. *)
Record Response := { status_code : Z; raw : bytes }.

(** What the builder reads from outside and the libraries it calls but does
    not define: the files next to the module; the network as [requests.get]
    shows it (what the [i]-th call of [requests.get] of the process returns
    when it is passed the URL, whatever requests the library sent for it,
    redirects included; [None] when the call raises); the entropy behind
    [uuid.uuid4] (the integer of the [i]-th UUID drawn, below [2 ^ 128] in
    a faithful environment, see [uuid_128]);
    [json.dumps(..).encode("utf8")]; and the signing and the serialisation
    ([bytes(p)]) of airpress. *)
Record Env := {
  fs : string → option bytes;
  http : nat → string → option Response;
  uuid_source : nat → N;
  json_dumps_utf8 : pyval → bytes;
  pk_sign : bytes → bytes → list (string * bytes) → option bytes;
  pk_bytes : list (string * bytes) → option bytes → bytes
}.

(** What changes while the code runs: how many UUIDs were drawn, the URLs
    passed to [requests.get], call by call, and the paths opened, oldest
    first. *)
Record State := {
  uuid_ctr : nat;
  http_log : list string;
  fs_log : list string
}.

Definition log_open (path : string) (st : State) : State :=
  {| uuid_ctr := uuid_ctr st; http_log := http_log st;
     fs_log := fs_log st ++ [path] |}.

Definition log_request (u : string) (st : State) : State :=
  {| uuid_ctr := uuid_ctr st; http_log := http_log st ++ [u];
     fs_log := fs_log st |}.

Definition log_draw (st : State) : State :=
  {| uuid_ctr := S (uuid_ctr st); http_log := http_log st;
     fs_log := fs_log st |}.

Definition M (A : Type) : Type := State → (exn + A) * State.

Definition ret {A} (a : A) : M A := fun st => (inr a, st).

Definition raise {A} (e : exn) : M A := fun st => (inl e, st).

Definition bind {A B} (m : M A) (k : A → M B) : M B :=
  fun st =>
    match m st with
    | (inl e, st') => (inl e, st')
    | (inr a, st') => k a st'
    end.

Definition lift {A} (r : exn + A) : M A :=
  match r with inl e => raise e | inr a => ret a end.

Declare Scope py_scope.
Delimit Scope py_scope with py.
Notation "'let*' x ':=' m 'in' k" := (bind m (fun x => k))
  (at level 10, x name, m at level 100, k at level 200) : py_scope.
Local Open Scope py_scope.

(** [open(path, "rb").read()], the path taken relative to the directory of
    the module. *)
Definition read_file (E : Env) (path : string) : M bytes :=
  fun st =>
    match fs E path with
    | Some data => (inr data, log_open path st)
    | None => (inl (FileNotFoundError path), log_open path st)
    end.

(** [requests.get(url, stream=True)]: one call, logged with the URL it was
    passed; the response is the one the library hands back.  Anything that
    is not a string has no URL scheme and makes requests raise before it
    sends. *)
Definition requests_get (E : Env) (url : pyval) : M Response :=
  match url with
  | PStr u =>
      fun st =>
        match http E (length (http_log st)) u with
        | Some resp => (inr resp, log_request u st)
        | None => (inl RequestException, log_request u st)
        end
  | _ => raise RequestException
  end.

(** [uuid.uuid4()]: the next UUID of the entropy source. *)
Definition uuid4 (E : Env) : M N :=
  fun st => (inr (uuid_source E (uuid_ctr st)), log_draw st).

(** ** [str(uuid)]

    [UUID.__str__] formats the integer with ['%032x'] (lower-case
    hexadecimal, padded with zeros to at least 32 digits) and joins the
    slices [[:8]], [[8:12]], [[12:16]], [[16:20]] and [[20:]] with dashes. *)

Definition hex_digit (d : N) : ascii :=
  nth (N.to_nat d)
      (list_ascii_of_string "0123456789abcdef") "0"%char.

(** The hexadecimal digits of [n], most significant first; [fuel] bounds
    their number. *)
Fixpoint hex_digits (fuel : nat) (n : N) : list ascii :=
  match fuel with
  | O => []
  | S fuel' =>
      if (n <? 16)%N then [hex_digit n]
      else hex_digits fuel' (n / 16) ++ [hex_digit (n mod 16)]
  end.

(** ['%032x' % n] *)
Definition format_032x (n : N) : list ascii :=
  let h := hex_digits (S (N.size_nat n)) n in
  repeat "0"%char (32 - length h) ++ h.

Definition str_uuid (n : N) : string :=
  let h := format_032x n in
  string_of_list_ascii
    (take 8 h ++ "-"%char :: take 4 (drop 8 h) ++ "-"%char ::
     take 4 (drop 12 h) ++ "-"%char :: take 4 (drop 16 h) ++ "-"%char ::
     drop 20 h).

(** ** The pass package

    [airpress.PKPass] is a library outside this repository.  The package is
    kept as the ordered collection of named entries handed to
    [add_to_pass_package], oldest first, with the credentials and the
    signature block next to it. *)
Record PKPass := {
  pass_package : list (string * bytes);
  key : option bytes;
  cert : option bytes;
  signature : option bytes
}.

(** [PKPass()] *)
Definition PKPass_new : PKPass :=
  {| pass_package := []; key := None; cert := None; signature := None |}.

(** [p.add_to_pass_package((name, data))]: airpress asserts that the data
    is not empty before it stores the entry; the names handed over here
    are literals. *)
Definition add_to_pass_package (p : PKPass) (asset : string * bytes)
    : exn + PKPass :=
  match snd asset with
  | [] => inl AssertionError
  | _ :: _ =>
      inr {| pass_package := pass_package p ++ [asset]; key := key p;
             cert := cert p; signature := signature p |}
  end.

(** [p.key = k; p.cert = c] *)
Definition set_credentials (p : PKPass) (k c : bytes) : PKPass :=
  {| pass_package := pass_package p; key := Some k; cert := Some c;
     signature := signature p |}.

(** [p.sign()], with the credentials stored in the package. *)
Definition sign (E : Env) (p : PKPass) : M PKPass :=
  match key p, cert p with
  | Some k, Some c =>
      match pk_sign E k c (pass_package p) with
      | Some sig =>
          ret {| pass_package := pass_package p; key := key p;
                 cert := cert p; signature := Some sig |}
      | None => raise SigningError
      end
  | _, _ => raise SigningError
  end.

(** ** [get_img] *)

Definition fallback_url : string := "https://cdn.hackucf.org/PFP.png".

(** [depth] is the number of frames the interpreter still allows: Python
    raises [RecursionError] when the recursion of [get_img] exhausts it. *)
Fixpoint get_img (E : Env) (depth : nat) (url : pyval) : M bytes :=
  match depth with
  | O => raise RecursionError
  | S depth' =>
      let* resp := requests_get E url in
      let status := status_code resp in
      if (status <? 400)%Z then ret (raw resp)
      else get_img E depth' (PStr fallback_url)
  end.

(** ** The expressions of [apple_wallet] *)

(** [v.get(key, default)]: only a dict has the method. *)
Definition py_get (v : pyval) (k : string) (dflt : pyval) : exn + pyval :=
  match v with
  | PDict d => inr (dict_get d k dflt)
  | _ => inl AttributeError
  end.

(** [v + s] for a string [s]: defined only when [v] is a string too. *)
Definition add_str_right (v : pyval) (s : string) : exn + string :=
  match v with
  | PStr a => inr (a ++ s)
  | _ => inl TypeError
  end.

(** [s + w] for a string [s]. *)
Definition add_str_left (s : string) (w : pyval) : exn + string :=
  match w with
  | PStr b => inr (s ++ b)
  | _ => inl TypeError
  end.

(** The two float literals of the [locations] entry, as the binary64
    numbers nearest to [28.601366109876327] and [-81.19867691612126]. *)
Definition latitude : spec_float := S754_finite false 8050568859670385 (-48).
Definition longitude : spec_float := S754_finite true 5713848923475328 (-46).

Definition py_dict (items : list (string * pyval)) : pyval :=
  PDict (list_to_map items).

(** The dict literal bound to [pass_json], with the five values it
    computes named. *)
Definition pass_json_dict (serial : string) (message altText : pyval)
    (name : string) (infra : pyval) : pyval :=
  py_dict [
    ("passTypeIdentifier", PStr "pass.org.hackucf.join");
    ("formatVersion", PInt 1);
    ("teamIdentifier", PStr "VWTW9R97Q4");
    ("organizationName", PStr "Hack@UCF");
    ("serialNumber", PStr serial);
    ("description", PStr "Hack@UCF Membership ID");
    ("locations", PList [
       py_dict [
         ("latitude", PFloat latitude);
         ("longitude", PFloat longitude);
         ("relevantText", PStr "You're near the CyberLab!")]]);
    ("foregroundColor", PStr "#D2990B");
    ("backgroundColor", PStr "#1C1C1C");
    ("labelColor", PStr "#ffffff");
    ("logoText", PStr "");
    ("barcodes", PList [
       py_dict [
         ("format", PStr "PKBarcodeFormatQR");
         ("message", message);
         ("messageEncoding", PStr "iso-8859-1");
         ("altText", altText)]]);
    ("generic", py_dict [
       ("primaryFields", PList [
          py_dict [
            ("label", PStr "Name");
            ("key", PStr "name");
            ("value", PStr name)]]);
       ("secondaryFields", PList [
          py_dict [
            ("label", PStr "Infra Email");
            ("key", PStr "infra");
            ("value", infra)]]);
       ("backFields", PList [
          py_dict [
            ("label", PStr "View Profile");
            ("key", PStr "view-profile");
            ("value", PStr "You can view and edit your profile at https://join.hackucf.org/profile.");
            ("attributedValue", PStr "You can view and edit your profile at <a href='https://join.hackucf.org/profile'>join.hackucf.org</a>.")];
          py_dict [
            ("label", PStr "Check In");
            ("key", PStr "check-in");
            ("value", PStr "At a meeting? Visit https://hackucf.org/signin to sign in");
            ("attributedValue", PStr "At a meeting? Visit <a href='https://hackucf.org/signin'>hackucf.org/signin</a> to sign in.")]])])].

(** The evaluation of that literal: the values are computed in the order
    they are written. *)
Definition pass_json (E : Env) (user_data : pydict) : M pyval :=
  let* serial := uuid4 E in
  let message := dict_get user_data "id" (PStr "Unknown_ID") in
  let* altText :=
    lift (py_get (dict_get user_data "discord" (PDict ∅)) "username" PNone) in
  let* name0 :=
    lift (add_str_right (dict_get user_data "first_name" (PStr "")) " ") in
  let* name :=
    lift (add_str_left name0 (dict_get user_data "surname" (PStr ""))) in
  let infra := dict_get user_data "infra_email" (PStr "Not Provisioned") in
  ret (pass_json_dict (str_uuid serial) message altText name infra).

(** [os.path.join(os.path.dirname(__file__), "..", "static",
    "apple_wallet", name)], relative to the directory of the module. *)
Definition static_path (name : string) : string :=
  "../static/apple_wallet/" ++ name.

Definition key_path : string := "../config/pki/hackucf.key".
Definition cert_path : string := "../config/pki/hackucf.pem".

(** ** [apple_wallet]: user data -> signed pass package *)
Definition apple_wallet (E : Env) (depth : nat) (user_data : pydict) : M PKPass :=
  let p := PKPass_new in
  let is_ops := truthy (dict_get user_data "ops_email" (PBool false)) in
  let* ico_data := read_file E (static_path "icon.png") in
  let* p := lift (add_to_pass_package p ("icon.png", ico_data)) in
  let* ico_data := read_file E (static_path "icon@2x.png") in
  let* p := lift (add_to_pass_package p ("icon@2x.png", ico_data)) in
  let* pass_json := pass_json E user_data in
  let* discord_img :=
    lift (py_get (dict_get user_data "discord" (PDict ∅)) "avatar" (PBool false)) in
  let* p :=
    if truthy discord_img then
      let* img_data := get_img E depth discord_img in
      let* p := lift (add_to_pass_package p ("thumbnail.png", img_data)) in
      let* img_data := get_img E depth discord_img in
      lift (add_to_pass_package p ("thumbnail@2x.png", img_data))
    else ret p in
  let* p :=
    if is_ops then
      let* ico_data := read_file E (static_path "logo_ops@2x.png") in
      let* p := lift (add_to_pass_package p ("logo@2x.png", ico_data)) in
      let* ico_data := read_file E (static_path "logo_ops.png") in
      lift (add_to_pass_package p ("logo.png", ico_data))
    else
      let* ico_data := read_file E (static_path "logo_reg@2x.png") in
      let* p := lift (add_to_pass_package p ("logo@2x.png", ico_data)) in
      let* ico_data := read_file E (static_path "logo_reg.png") in
      lift (add_to_pass_package p ("logo.png", ico_data)) in
  let pass_data := json_dumps_utf8 E pass_json in
  let* p := lift (add_to_pass_package p ("pass.json", pass_data)) in
  let* k := read_file E key_path in
  let* c := read_file E cert_path in
  let p := set_credentials p k c in
  sign E p.

(** ** [aapl_gen]: the route [GET /wallet/apple]

    The authentication decorator and the database query are outside this
    file; [user_data] is the dictionary of the member who asked. *)
Record HttpResponse := {
  content : bytes;
  media_type : string;
  headers : list (string * string)
}.

Definition dquote : string :=
  String (Ascii.Ascii false true false false false true false false) "".

(** [bytes(p)] *)
Definition PKPass_bytes (E : Env) (p : PKPass) : bytes :=
  pk_bytes E (pass_package p) (signature p).

Definition aapl_gen (E : Env) (depth : nat) (user_data : pydict) : M HttpResponse :=
  let* p := apple_wallet E depth user_data in
  ret {| content := PKPass_bytes E p;
         media_type := "application/vnd.apple.pkpass";
         headers := [("Content-Disposition",
                      "attachment; filename=" ++ dquote ++ "hackucf.pkpass"
                      ++ dquote)] |}.

(** ** Reading a UUID back

    [uuid.UUID(s).int]: the dashes are dropped and the rest is read as a
    hexadecimal number. *)

Definition hex_value (c : ascii) : N :=
  match find (fun p => Ascii.eqb (fst p) c)
             (combine (list_ascii_of_string "0123456789abcdef")
                      (map N.of_nat (seq 0 16))) with
  | Some (_, d) => d
  | None => 0
  end.

Definition parse_step (acc : N) (c : ascii) : N :=
  if Ascii.eqb c "-" then acc else (16 * acc + hex_value c)%N.

Definition uuid_int (s : string) : N :=
  fold_left parse_step (list_ascii_of_string s) 0%N.

(** ** Reading a pass

    Subscripting a value ([v[k]] on a dict, [v[i]] on a list) along a path,
    the entry of a package by name, and the names of its entries. *)

Inductive sel : Type :=
| Key (k : string)
| Idx (i : nat).

Definition subscript (v : pyval) (s : sel) : option pyval :=
  match s, v with
  | Key k, PDict d => d !! k
  | Idx i, PList l => l !! i
  | _, _ => None
  end.

Fixpoint py_path (v : pyval) (path : list sel) : option pyval :=
  match path with
  | [] => Some v
  | s :: path' =>
      match subscript v s with
      | Some w => py_path w path'
      | None => None
      end
  end.

Definition serial_number : list sel := [Key "serialNumber"].
Definition barcode_format : list sel := [Key "barcodes"; Idx 0; Key "format"].
Definition barcode_message : list sel := [Key "barcodes"; Idx 0; Key "message"].
Definition barcode_alt_text : list sel := [Key "barcodes"; Idx 0; Key "altText"].
Definition primary_value : list sel :=
  [Key "generic"; Key "primaryFields"; Idx 0; Key "value"].
Definition secondary_value : list sel :=
  [Key "generic"; Key "secondaryFields"; Idx 0; Key "value"].

Fixpoint assoc (name : string) (l : list (string * bytes)) : option bytes :=
  match l with
  | [] => None
  | (n, data) :: l' => if String.eqb n name then Some data else assoc name l'
  end.

Definition entry (p : PKPass) (name : string) : option bytes :=
  assoc name (pass_package p).

Definition names (p : PKPass) : list string := map fst (pass_package p).

(** The avatar block of [apple_wallet], as a relation between the state
    before it, the entries it adds and the state after it. *)
Definition thumbnails (E : Env) (depth : nat) (img : pyval) (st : State)
    (thumbs : list (string * bytes)) (st' : State) : Prop :=
  if truthy img then
    ∃ b1 st1 b2,
      get_img E depth img st = (inr b1, st1) ∧
      get_img E depth img st1 = (inr b2, st') ∧
      thumbs = [("thumbnail.png", b1); ("thumbnail@2x.png", b2)]
  else thumbs = [] ∧ st' = st.

(** The two logo files [apple_wallet] opens for a profile, [@2x] first. *)
Definition logo_files (user_data : pydict) : string * string :=
  if truthy (dict_get user_data "ops_email" (PBool false))
  then ("logo_ops@2x.png", "logo_ops.png")
  else ("logo_reg@2x.png", "logo_reg.png").

(** Everything a run of [apple_wallet] that returns a pass went through. *)
Inductive wallet_run (E : Env) (depth : nat) (user_data : pydict) (st : State)
    (p : PKPass) (st' : State) : Prop :=
| WalletRun (icon icon2 : bytes) (manifest : pyval) (discord : pydict)
    (thumbs : list (string * bytes)) (st_img : State)
    (logo2 logo k c sig : bytes)
    (Hicon : fs E (static_path "icon.png") = Some icon)
    (Hicon2 : fs E (static_path "icon@2x.png") = Some icon2)
    (Hmanifest : fst (pass_json E user_data st) = inr manifest)
    (Hdiscord : dict_get user_data "discord" (PDict ∅) = PDict discord)
    (Hthumbs :
      thumbnails E depth (dict_get discord "avatar" (PBool false))
        (log_draw (log_open (static_path "icon@2x.png")
                     (log_open (static_path "icon.png") st)))
        thumbs st_img)
    (Hlogo2 : fs E (static_path (fst (logo_files user_data))) = Some logo2)
    (Hlogo : fs E (static_path (snd (logo_files user_data))) = Some logo)
    (Hkey : fs E key_path = Some k)
    (Hcert : fs E cert_path = Some c)
    (Hpackage :
      pass_package p =
        ([("icon.png", icon); ("icon@2x.png", icon2)] ++ thumbs ++
         [("logo@2x.png", logo2); ("logo.png", logo);
          ("pass.json", json_dumps_utf8 E manifest)])%list)
    (Hnonempty : Forall (fun e => snd e ≠ []) (pass_package p))
    (Hcredentials : key p = Some k ∧ cert p = Some c)
    (Hsigned :
      pk_sign E k c (pass_package p) = Some sig ∧ signature p = Some sig)
    (Hstate :
      st' = log_open cert_path (log_open key_path
              (log_open (static_path (snd (logo_files user_data)))
                 (log_open (static_path (fst (logo_files user_data)))
                    st_img)))).

(** ** Profile records *)

(** An optional string field: absent, [None] or a string. *)
Definition optional_str (o : option pyval) : Prop :=
  o = None ∨ o = Some PNone ∨ ∃ s, o = Some (PStr s).

(** [ops_email] is present and non-empty. *)
Definition ops_email_present (user_data : pydict) : Prop :=
  ∃ s, user_data !! "ops_email" = Some (PStr s) ∧ s ≠ "".

(** A name component: the string [s], an absent one counting as empty. *)
Definition name_field (user_data : pydict) (k : string) (s : string) : Prop :=
  user_data !! k = Some (PStr s) ∨ (user_data !! k = None ∧ s = "").

(** The [discord] field is absent or holds a record. *)
Definition discord_record (user_data : pydict) (discord : pydict) : Prop :=
  dict_get user_data "discord" (PDict ∅) = PDict discord.

(** Two profiles that differ in the [id] field and nowhere else. *)
Definition differ_only_in_id (ud1 ud2 : pydict) : Prop :=
  delete "id" ud1 = delete "id" ud2 ∧ ud1 !! "id" ≠ ud2 !! "id".

(** A UUID has 128 bits. *)
Definition uuid_128 (E : Env) : Prop :=
  ∀ i, (uuid_source E i < 2 ^ 128)%N.

(** ** Concrete environments and profiles *)

Definition st0 : State := {| uuid_ctr := 0; http_log := []; fs_log := [] |}.

(** Every file holds its own path, every URL answers 200 with its own text,
    the [i]-th UUID is [i]. *)
Definition env_up : Env := {|
  fs := fun path => Some (list_byte_of_string path);
  http := fun _ u => Some {| status_code := 200; raw := list_byte_of_string u |};
  uuid_source := N.of_nat;
  json_dumps_utf8 := fun _ => list_byte_of_string "{}";
  pk_sign := fun k c _ => Some (k ++ c)%list;
  pk_bytes := fun entries sig =>
    (concat (map snd entries) ++ default [] sig)%list
|}.

(** The same, with every host answering 500. *)
Definition env_down : Env := {|
  fs := fs env_up;
  http := fun _ _ => Some {| status_code := 500; raw := [] |};
  uuid_source := uuid_source env_up;
  json_dumps_utf8 := json_dumps_utf8 env_up;
  pk_sign := pk_sign env_up;
  pk_bytes := pk_bytes env_up
|}.

(** The same, with every host answering 200 and a body that changes from
    one request to the next. *)
Definition env_changing : Env := {|
  fs := fs env_up;
  http := fun i _ => Some {| status_code := 200; raw := repeat Byte.x2a (S i) |};
  uuid_source := uuid_source env_up;
  json_dumps_utf8 := json_dumps_utf8 env_up;
  pk_sign := pk_sign env_up;
  pk_bytes := pk_bytes env_up
|}.

(** The same as [env_up], with a generator that returns one UUID again. *)
Definition env_repeating : Env := {|
  fs := fs env_up;
  http := http env_up;
  uuid_source := fun _ => 42%N;
  json_dumps_utf8 := json_dumps_utf8 env_up;
  pk_sign := pk_sign env_up;
  pk_bytes := pk_bytes env_up
|}.

Definition avatar_url : string := "https://cdn.discordapp.com/avatars/7/f00.png".

(** An operator with a Discord account and an avatar. *)
Definition ada : pydict :=
  list_to_map [
    ("id", PStr "6a1f");
    ("first_name", PStr "Ada");
    ("surname", PStr "Lovelace");
    ("infra_email", PStr "ada@infra.hackucf.org");
    ("ops_email", PStr "ada@hackucf.org");
    ("discord", py_dict [("username", PStr "ada"); ("avatar", PStr avatar_url)])].

(** A regular member: no surname yet, an empty [infra_email], no Discord
    user name and no avatar. *)
Definition bob : pydict :=
  list_to_map [
    ("id", PStr "77c2");
    ("first_name", PStr "Bob");
    ("surname", PStr "");
    ("infra_email", PStr "");
    ("ops_email", PNone);
    ("discord", py_dict [])].

(** [bob] under another [id]. *)
Definition bob' : pydict := <["id" := PStr "0b0b"]> bob.

(** * The settings loader of [app/util/settings.py] *)

Module Settings.

(** ** Exceptions, the environment and the effects of the module *)

Inductive error : Type :=
| AttributeError
| TypeError
| KeyError (key : string)
| ValueError (msg : string)
| NameError (name : string)
| OSError
| JSONDecodeError
| ValidationError (cls : string).

(** ** Objects

    [BitwardenConfig] writes into the dicts that are the sections of
    [settings], in place.  [yaml.load] gives one object to an anchor and all
    its aliases, so a section may be the same object as another section, or
    sit inside another one; the dicts and lists of the configuration are
    therefore kept in a heap and referred to by their address.  A value is
    either such a reference or a value given outright ([RVal]): a scalar,
    or a tree of objects that nothing else refers to, as [json.loads] makes
    them.  The references of a configuration are to objects of the heap;
    [deref] is made total by an empty dict at any other address. *)

Abbreviation loc := nat.

Inductive rval : Type :=
| RVal (v : pyval)
| RRef (l : loc).

Abbreviation rdict := (gmap string rval).

Inductive hobj : Type :=
| HDict (d : rdict)
| HList (l : list rval).

Abbreviation heap := (gmap nat hobj).

Definition deref (h : heap) (l : loc) : hobj := default (HDict ∅) (h !! l).

(** What [logger.warn] and [logger.exception] record. *)
Inductive log_entry : Type :=
| Warning (msg : string)
| Exception (e : error).

(** What the module calls and does not define: the [bws] command line
    ([subprocess.run(command, ...).stdout], [None] when the process cannot
    be started), [json.loads] ([None] for a text that is not JSON) and the
    validation of a pydantic model of a given class on keyword arguments,
    which reads the objects they refer to ([None] for a validation
    error). *)
Record Sys := {
  subprocess_stdout : list string → option string;
  json_loads : string → option pyval;
  validate : string → rdict → heap → option rdict
}.

(** The commands run and the log records written, oldest first, and the
    objects of the configuration. *)
Record World := {
  commands : list (list string);
  log : list log_entry;
  objects : heap
}.

Definition S (A : Type) : Type := World → (error + A) * World.

Definition ret {A} (a : A) : S A := fun w => (inr a, w).

Definition raise {A} (e : error) : S A := fun w => (inl e, w).

Definition bind {A B} (m : S A) (k : A → S B) : S B :=
  fun w =>
    match m w with
    | (inl e, w') => (inl e, w')
    | (inr a, w') => k a w'
    end.

Definition lift {A} (r : error + A) : S A :=
  match r with inl e => raise e | inr a => ret a end.

Declare Scope settings_scope.
Notation "'let*' x ':=' m 'in' k" := (bind m (fun x => k))
  (at level 10, x name, m at level 100, k at level 200) : settings_scope.
Local Open Scope settings_scope.

(** [logger.warn(msg)] *)
Definition warn (msg : string) : S unit :=
  fun w => (inr tt, {| commands := commands w; log := log w ++ [Warning msg];
                       objects := objects w |}).

(** [try: m except Exception as e: logger.exception(e); raise e] *)
Definition logged {A} (m : S A) : S A :=
  fun w =>
    match m w with
    | (inl e, w') =>
        (inl e, {| commands := commands w'; log := log w' ++ [Exception e];
                   objects := objects w' |})
    | (inr a, w') => (inr a, w')
    end.

(** [subprocess.run(command, text=True, env=env_vars,
    capture_output=True).stdout]: the exit status is not looked at. *)
Definition subprocess_run (Y : Sys) (command : list string) : S string :=
  fun w =>
    let w' := {| commands := commands w ++ [command]; log := log w;
                 objects := objects w |} in
    match subprocess_stdout Y command with
    | Some out => (inr out, w')
    | None => (inl OSError, w')
    end.

(** ** Python expressions *)

(** [v[k]] for a string [k]: a dict is looked up, nothing else takes a
    string subscript. *)
Definition getitem (v : pyval) (k : string) : error + pyval :=
  match v with
  | PDict d => match d !! k with Some x => inr x | None => inl (KeyError k) end
  | _ => inl TypeError
  end.

(** The items of [v] when it is a dict. *)
Definition items (h : heap) (v : rval) : option rdict :=
  match v with
  | RVal (PDict d) => Some (RVal <$> d)
  | RVal _ => None
  | RRef l =>
      match deref h l with
      | HDict d => Some d
      | HList _ => None
      end
  end.

(** [v[k]] for a string [k], on a value of the configuration. *)
Definition r_getitem (h : heap) (v : rval) (k : string) : error + rval :=
  match items h v with
  | Some d => match d !! k with Some x => inr x | None => inl (KeyError k) end
  | None => inl TypeError
  end.

(** [v.get(k)] *)
Definition r_get (h : heap) (v : rval) (k : string) : error + rval :=
  match items h v with
  | Some d => inr (default (RVal PNone) (d !! k))
  | None => inl AttributeError
  end.

(** The truth value of [v]. *)
Definition r_truthy (h : heap) (v : rval) : bool :=
  match v with
  | RVal x => truthy x
  | RRef l =>
      match deref h l with
      | HDict d => negb (bool_decide (d = ∅))
      | HList l => match l with [] => false | _ => true end
      end
  end.

(** [settings[k]] and [settings.get(k)] on the dict [settings] itself. *)
Definition top_getitem (settings : rdict) (k : string) : error + rval :=
  match settings !! k with Some x => inr x | None => inl (KeyError k) end.

Definition top_get (settings : rdict) (k : string) : rval :=
  default (RVal PNone) (settings !! k).

(** A computation that only reads the objects. *)
Definition reading {A} (f : heap → error + A) : S A :=
  fun w => lift (f (objects w)) w.

(** The characters of the class [[a-z0-9-]]. *)
Definition in_class (c : ascii) : bool :=
  let n := nat_of_ascii c in
  (97 <=? n)%nat && (n <=? 122)%nat || (48 <=? n)%nat && (n <=? 57)%nat
  || (n =? 45)%nat.

(** [bool(re.search("[^a-z0-9-]", v))]: [re] takes a string only. *)
Definition re_search_not_in_class (v : rval) : error + bool :=
  match v with
  | RVal (PStr s) =>
      inr (existsb (fun c => negb (in_class c)) (list_ascii_of_string s))
  | _ => inl TypeError
  end.

(** ** [parse_json_to_dict]

    The dict is kept as the items written into it, oldest first: it is
    only read under string keys, and a string key finds the last item
    written under it. *)

(** [for item in data] *)
Definition iterate (data : pyval) : error + list pyval :=
  match data with
  | PList l => inr l
  | PDict d => inr (map (fun kv => PStr (fst kv)) (map_to_list d))
  | PStr s => inr (map (fun c => PStr (String c "")) (list_ascii_of_string s))
  | _ => inl TypeError
  end.

Definition hashable (v : pyval) : bool :=
  match v with
  | PList _ | PDict _ => false
  | _ => true
  end.

(** [{item["key"]: item["value"] for item in data}] *)
Fixpoint comprehension (items : list pyval) (written : list (pyval * pyval))
    : error + list (pyval * pyval) :=
  match items with
  | [] => inr written
  | item :: items' =>
      match getitem item "key" with
      | inl e => inl e
      | inr k =>
          match getitem item "value" with
          | inl e => inl e
          | inr v =>
              if hashable k then comprehension items' (written ++ [(k, v)])
              else inl TypeError
          end
      end
  end.

Definition parse_json_to_dict (Y : Sys) (json_string : string)
    : error + list (pyval * pyval) :=
  match json_loads Y json_string with
  | None => inl JSONDecodeError
  | Some data =>
      match iterate data with
      | inl e => inl e
      | inr items => comprehension items []
      end
  end.

(** [d[k]] and [k in d] for a string [k], on the items written. *)
Definition written_get (k : string) (written : list (pyval * pyval))
    : option pyval :=
  fold_left
    (fun found kv =>
       match fst kv with
       | PStr k' => if String.eqb k' k then Some (snd kv) else found
       | _ => found
       end)
    written None.

(** ** [BitwardenConfig] *)

Definition bitwarden_mapping : list (string * (string * string)) := [
  ("discord_bot_token", ("discord", "bot_token"));
  ("discord_client_id", ("discord", "client_id"));
  ("discord_secret", ("discord", "secret"));
  ("stripe_api_key", ("stripe", "api_key"));
  ("stripe_webhook_secret", ("stripe", "webhook_secret"));
  ("stripe_price_id", ("stripe", "price_id"));
  ("email_password", ("email", "password"));
  ("jwt_secret", ("jwt", "secret"));
  ("infra_wifi", ("infra", "wifi"));
  ("infra_application_credential_id", ("infra", "application_credential_id"));
  ("infra_configuration_credential_secret",
   ("infra", "application_credential_secret"))].

(** A dict built key by key, in the order of insertion. *)
Definition odict (A : Type) : Type := list (string * A).

Fixpoint oget {A} (k : string) (d : odict A) : option A :=
  match d with
  | [] => None
  | (k', a) :: d' => if String.eqb k' k then Some a else oget k d'
  end.

(** [d[k] = a] *)
Fixpoint oset {A} (k : string) (a : A) (d : odict A) : odict A :=
  match d with
  | [] => [(k, a)]
  | (k', a') :: d' =>
      if String.eqb k' k then (k', a) :: d' else (k', a') :: oset k a d'
  end.

(** The body of the first loop: a secret that is present goes into its
    section, which is created when it is not there yet. *)
Definition add_secret (bitwarden_settings : list (pyval * pyval))
    (bitwarden_mapped : odict (odict pyval))
    (entry : string * (string * string)) : odict (odict pyval) :=
  let '(bw_key, (top_key, nested_key)) := entry in
  match written_get bw_key bitwarden_settings with
  | Some value =>
      let section := default [] (oget top_key bitwarden_mapped) in
      oset top_key (oset nested_key value section) bitwarden_mapped
  | None => bitwarden_mapped
  end.

(** The first loop: the secrets present, sorted into sections. *)
Definition map_secrets (bitwarden_settings : list (pyval * pyval))
    : odict (odict pyval) :=
  fold_left (add_secret bitwarden_settings) bitwarden_mapping [].

(** [settings[top_key][nested_key] = value].  The dict [settings] itself
    is the one line 68 made with [dict()] and line 73 filled with [update]:
    a new object that none of its values is, kept here as it stands.  Its
    values are the objects [yaml.load] made.  The assignment changes the
    dict that [settings[top_key]] is, in place: every section and every
    item that is this same object shows the change. *)
Definition setitem2 (settings : rdict) (h : heap) (top_key nested_key : string)
    (value : pyval) : (error + rdict) * heap :=
  match settings !! top_key with
  | Some (RRef l) =>
      match deref h l with
      | HDict d =>
          (inr settings, <[l := HDict (<[nested_key := RVal value]> d)]> h)
      | HList _ => (inl TypeError, h)
      end
  | Some (RVal (PDict d)) =>
      (inr (<[top_key := RVal (PDict (<[nested_key := value]> d))]> settings), h)
  | Some (RVal _) => (inl TypeError, h)
  | None => (inl (KeyError top_key), h)
  end.

Fixpoint merge_section (settings : rdict) (h : heap) (top_key : string)
    (nested_dict : odict pyval) : (error + rdict) * heap :=
  match nested_dict with
  | [] => (inr settings, h)
  | (nested_key, value) :: rest =>
      match setitem2 settings h top_key nested_key value with
      | (inl e, h') => (inl e, h')
      | (inr settings', h') => merge_section settings' h' top_key rest
      end
  end.

(** The second loop: the sections of [settings] that exist take the
    secrets sorted into them. *)
Fixpoint merge (settings : rdict) (h : heap)
    (bitwarden_mapped : odict (odict pyval)) : (error + rdict) * heap :=
  match bitwarden_mapped with
  | [] => (inr settings, h)
  | (top_key, nested_dict) :: rest =>
      match settings !! top_key with
      | Some _ =>
          match merge_section settings h top_key nested_dict with
          | (inl e, h') => (inl e, h')
          | (inr settings', h') => merge settings' h' rest
          end
      | None => merge settings h rest
      end
  end.

(** The second loop as a step of the module: it works on the objects. *)
Definition merging (settings : rdict)
    (bitwarden_mapped : odict (odict pyval)) : S rdict :=
  fun w =>
    let '(r, h') := merge settings (objects w) bitwarden_mapped in
    (r, {| commands := commands w; log := log w; objects := h' |}).

Definition BitwardenConfig (Y : Sys) (settings : rdict) : S rdict :=
  let* bitwarden_raw :=
    logged (
      let* bws := lift (top_getitem settings "bws") in
      let* project_id := reading (fun h => r_getitem h bws "project_id") in
      let* invalid := lift (re_search_not_in_class project_id) in
      if (invalid : bool) then raise (ValueError "Invalid project id")
      else
        match project_id with
        | RVal (PStr pid) =>
            subprocess_run Y ["bws"; "secret"; "list"; pid; "--output"; "json"]
        | _ => raise TypeError
        end) in
  let* bitwarden_settings := lift (parse_json_to_dict Y bitwarden_raw) in
  let bitwarden_mapped := map_secrets bitwarden_settings in
  merging settings bitwarden_mapped.

(** The project id of [settings] is the string [pid]. *)
Definition bws_project_id (h : heap) (settings : rdict) (pid : string)
    : Prop :=
  ∃ bws, settings !! "bws" = Some bws ∧
         r_getitem h bws "project_id" = inr (RVal (PStr pid)).

(** ** What the two loops compute

    [oget2] reads [d[top][nested]]; [routed] is the secret that the mapping
    [l] sends to [settings[top][nested]], the last one present counting;
    [section_update] writes the items of a section into a dict given
    outright, [object_update] into a dict of the heap; [received] is what
    the object at [l] ends up with under the key [n], [init] being what it
    had: the secret of the last section that is this object and has one
    under [n]. *)

Definition oget2 {A} (top nested : string) (d : odict (odict A)) : option A :=
  match oget top d with
  | Some section => oget nested section
  | None => None
  end.

Definition routed (bitwarden_settings : list (pyval * pyval))
    (l : list (string * (string * string))) (top nested : string)
    (init : option pyval) : option pyval :=
  fold_left
    (fun found entry =>
       match written_get (fst entry) bitwarden_settings with
       | Some value =>
           if decide (snd entry = (top, nested)) then Some value else found
       | None => found
       end)
    l init.

Definition section_update (nested_dict : odict pyval) (d : pydict) : pydict :=
  fold_left (fun d kv => <[fst kv := snd kv]> d) nested_dict d.

Definition object_update (nested_dict : odict pyval) (d : rdict) : rdict :=
  fold_left (fun d kv => <[fst kv := RVal (snd kv)]> d) nested_dict d.

(** The section [top] of [settings] is the object at [l]. *)
Definition is_object (settings : rdict) (top : string) (l : loc) : bool :=
  match settings !! top with
  | Some (RRef l') => bool_decide (l' = l)
  | _ => false
  end.

(** What the second loop makes of the dict [d] at [l]. *)
Definition object_merge (settings : rdict)
    (bitwarden_mapped : odict (odict pyval)) (l : loc) (d : rdict) : rdict :=
  fold_left
    (fun d section =>
       if is_object settings (fst section) l
       then object_update (snd section) d else d)
    bitwarden_mapped d.

Definition received (settings : rdict) (bitwarden_mapped : odict (odict pyval))
    (l : loc) (n : string) (init : option rval) : option rval :=
  fold_left
    (fun found section =>
       if is_object settings (fst section) l then
         match oget n (snd section) with
         | Some value => Some (RVal value)
         | None => found
         end
       else found)
    bitwarden_mapped init.

(** The sections are keyed once, and so are the items of each section,
    none of which is empty. *)
Definition well_formed (bitwarden_mapped : odict (odict pyval)) : Prop :=
  NoDup (map fst bitwarden_mapped) ∧
  ∀ top section, oget top bitwarden_mapped = Some section →
    NoDup (map fst section) ∧ section ≠ [].

(** ** The configuration objects and the body of the module *)

(** A configuration object: its class and the fields pydantic validated. *)
Inductive config : Type :=
| Config (cls : string) (fields : rdict).

(** The call of the class [cls] with the items of [v] as keyword arguments
    (the double star): it takes a mapping only. *)
Definition construct (Y : Sys) (cls : string) (v : rval) : S config :=
  fun w =>
    match items (objects w) v with
    | Some kwargs =>
        match validate Y cls kwargs (objects w) with
        | Some fields => (inr (Config cls fields), w)
        | None => (inl (ValidationError cls), w)
        end
    | None => (inl TypeError, w)
    end.

(** [x_config = Cls(...)] on the keyword arguments [settings[key]]. *)
Definition required (Y : Sys) (settings : rdict) (cls key : string) : S config :=
  let* v := lift (top_getitem settings key) in
  construct Y cls v.

(** [if settings.get(key): x_config = Cls(...)] with an [else] branch that
    warns; the result is [None] in that branch. *)
Definition optional (Y : Sys) (settings : rdict) (cls key msg : string)
    : S (option config) :=
  fun w =>
    if r_truthy (objects w) (top_get settings key) then
      (let* c := required Y settings cls key in
       ret (Some c)) w
    else
      (let* _ := warn msg in
       ret None) w.

(** The defaults of the fields of [class Settings]. *)
Record SettingsDefaults := {
  discord : config;
  stripe : config;
  email : config;
  jwt : config;
  database : config;
  infra : config;
  redis : config;
  http : config;
  keycloak : option config;
  telemetry : config
}.

(** The statements of the module from line 81 on, [settings] being the
    dict filled from [config.yml].  The [else] branch for [discord] binds
    nothing, the ones for [keycloak], [database] and [redis] bind [None]. *)
Definition module_body (Y : Sys) (settings : rdict) : S SettingsDefaults :=
  let* enable := reading (fun h => r_get h (top_get settings "bws") "enable") in
  let* settings :=
    fun w =>
      if r_truthy (objects w) enable then BitwardenConfig Y settings w
      else ret settings w in
  let* discord_config :=
    optional Y settings "DiscordConfig" "discord" "Missing discord config" in
  let* stripe_config := required Y settings "StripeConfig" "stripe" in
  let* email_config := required Y settings "EmailConfig" "email" in
  let* jwt_config := required Y settings "JwtConfig" "jwt" in
  let* infra_config := required Y settings "InfraConfig" "infra" in
  let* keycloak_config :=
    optional Y settings "KeycloakConfig" "keycloak" "Missing Keycloak Config" in
  let* telemetry_config := required Y settings "TelemetryConfig" "telemetry" in
  let* database_config :=
    optional Y settings "DatabaseConfig" "database" "Missing database config" in
  let* redis_config :=
    optional Y settings "RedisConfig" "redis" "Missing redis config" in
  let* http_config := required Y settings "HttpConfig" "http" in
  let* discord_default :=
    match discord_config with
    | Some c => ret c
    | None => raise (NameError "discord_config")
    end in
  let* database_default :=
    match database_config with
    | Some c => ret c
    | None =>
        construct Y "DatabaseConfig"
          (RVal (py_dict [("url", PStr "sqlite:///:memory:")]))
    end in
  let* redis_default :=
    match redis_config with
    | Some c => ret c
    | None =>
        construct Y "RedisConfig"
          (RVal (py_dict [("host", PStr "localhost"); ("db", PInt 0);
                          ("port", PInt 6379)]))
    end in
  ret {| discord := discord_default; stripe := stripe_config;
         email := email_config; jwt := jwt_config;
         database := database_default; infra := infra_config;
         redis := redis_default; http := http_config;
         keycloak := keycloak_config; telemetry := telemetry_config |}.

(** The section [key] of [settings] is a mapping, with the items [d]. *)
Definition section (h : heap) (settings : rdict) (key : string) (d : rdict)
    : Prop :=
  ∃ v, settings !! key = Some v ∧ items h v = Some d.

(** The object [c] is the class [cls] built from the section [key] of
    [settings], the objects being [h]. *)
Definition configured (Y : Sys) (h : heap) (settings : rdict)
    (cls key : string) (c : config) : Prop :=
  ∃ d fields,
    section h settings key d ∧ validate Y cls d h = Some fields ∧
    c = Config cls fields.

(** The object [c] is the class [cls] built from the keyword arguments
    [kwargs]. *)
Definition built (Y : Sys) (h : heap) (cls : string)
    (kwargs : list (string * pyval)) (c : config) : Prop :=
  ∃ fields,
    validate Y cls (RVal <$> list_to_map kwargs) h = Some fields ∧
    c = Config cls fields.

(** A computation that starts no process, whatever its outcome. *)
Definition runs_nothing {A} (m : S A) : Prop :=
  ∀ w r w', m w = (r, w') → commands w' = commands w.

(** The sections that the module body subscripts without a test, with the
    class built from each. *)
Definition required_sections : list (string * string) :=
  [("StripeConfig", "stripe"); ("EmailConfig", "email"); ("JwtConfig", "jwt");
   ("InfraConfig", "infra"); ("TelemetryConfig", "telemetry");
   ("HttpConfig", "http")].

(** The sections that it tests first. *)
Definition optional_sections : list (string * string) :=
  [("DiscordConfig", "discord"); ("KeycloakConfig", "keycloak");
   ("DatabaseConfig", "database"); ("RedisConfig", "redis")].

(** [settings.get(key)] is true. *)
Definition present (h : heap) (settings : rdict) (key : string) : bool :=
  r_truthy h (top_get settings key).

(** pydantic accepts every section that is looked at, and the defaults of
    the database and of Redis where they are needed. *)
Definition in_order (Y : Sys) (h : heap) (settings : rdict) : Prop :=
  (∀ cls key, (cls, key) ∈ required_sections →
              ∃ c, configured Y h settings cls key c) ∧
  (∀ cls key, (cls, key) ∈ optional_sections →
              present h settings key = true →
              ∃ c, configured Y h settings cls key c) ∧
  (present h settings "database" = false →
   ∃ c, built Y h "DatabaseConfig" [("url", PStr "sqlite:///:memory:")] c) ∧
  (present h settings "redis" = false →
   ∃ c, built Y h "RedisConfig"
          [("host", PStr "localhost"); ("db", PInt 0); ("port", PInt 6379)] c).

(** The warning of a missing section. *)
Definition missing (h : heap) (settings : rdict) (key msg : string)
    : list log_entry :=
  if present h settings key then [] else [Warning msg].

(** ** [SingletonBaseSettingsMeta] *)

Section Singleton.
Context {Cls Args Inst : Type} `{Countable Cls}.

(** [super().__call__] on the arguments of the call: the construction of
    an instance of the class, which may raise. *)
Variable super_call : Cls → Args → error + Inst.

(** The dict [_instances] of the metaclass, shared by the classes made
    from it, and the constructions run so far, oldest first. *)
Record Meta := {
  _instances : gmap Cls Inst;
  constructions : list (Cls * Args)
}.

Definition __call__ (cls : Cls) (args : Args) (m : Meta) : (error + Inst) * Meta :=
  match _instances m !! cls with
  | Some inst => (inr inst, m)
  | None =>
      match super_call cls args with
      | inr inst =>
          (inr inst,
           {| _instances := <[cls := inst]> (_instances m);
              constructions := constructions m ++ [(cls, args)] |})
      | inl e =>
          (inl e,
           {| _instances := _instances m;
              constructions := constructions m ++ [(cls, args)] |})
      end
  end.

(** The constructions of one class among those run. *)
Definition of_class (cls : Cls) (l : list (Cls * Args)) : list (Cls * Args) :=
  filter (fun c => c.1 = cls) l.

(** A sequence of calls, each in the state the one before left; an
    exception ends one call, not the sequence. *)
Fixpoint calls (l : list (Cls * Args)) (m : Meta)
    : list (error + Inst) * Meta :=
  match l with
  | [] => ([], m)
  | (cls, args) :: l' =>
      let '(r, m') := __call__ cls args m in
      let '(rs, m'') := calls l' m' in
      (r :: rs, m'')
  end.
End Singleton.

(** ** Concrete environments *)

(** A dict of the heap with the given items, none of them an object. *)
Definition h_dict (items : list (string * pyval)) : hobj :=
  HDict (RVal <$> list_to_map items).

(** The objects [yaml.load] makes of a [config.yml] whose sections are
    written out one by one. *)
Definition heap_yml : heap :=
  list_to_map [
    (1%nat, h_dict [("enable", PBool true); ("project_id", PStr "0a1b-2c3d")]);
    (2%nat, h_dict [("guild_id", PInt 7)]);
    (3%nat, h_dict [("api_key", PStr "placeholder"); ("price_id", PStr "p")]);
    (4%nat, h_dict [("smtp_server", PStr "smtp.example.org")]);
    (5%nat, h_dict [("algorithm", PStr "HS256")]);
    (6%nat, h_dict [("horizon", PStr "https://horizon.example.org")]);
    (7%nat, h_dict [("enable", PBool false)]);
    (8%nat, h_dict [("domain", PStr "join.example.org")])].

Definition w0 : World :=
  {| commands := []; log := []; objects := heap_yml |}.

(** [bws] prints two secrets of the project, pydantic accepts everything. *)
Definition sys_ok : Sys := {|
  subprocess_stdout := fun _ => Some "[secrets]";
  json_loads := fun _ =>
    Some (PList [
      py_dict [("id", PStr "1"); ("key", PStr "stripe_api_key");
               ("value", PStr "sk_live")];
      py_dict [("id", PStr "2"); ("key", PStr "jwt_secret");
               ("value", PStr "s3cr3t")];
      py_dict [("id", PStr "3"); ("key", PStr "unused"); ("value", PStr "x")]]);
  validate := fun _ kwargs _ => Some kwargs
|}.

(** [bws] prints a text that parses to [data], pydantic accepts
    everything. *)
Definition sys_printing (data : pyval) : Sys := {|
  subprocess_stdout := fun _ => Some "...";
  json_loads := fun _ => Some data;
  validate := fun _ kwargs _ => Some kwargs
|}.

Definition config_yml : rdict :=
  list_to_map [
    ("bws", RRef 1); ("discord", RRef 2); ("stripe", RRef 3);
    ("email", RRef 4); ("jwt", RRef 5); ("infra", RRef 6);
    ("telemetry", RRef 7); ("http", RRef 8)].

(** The same with [email: *stripe]: the two sections are one object. *)
Definition config_aliased : rdict := <["email" := RRef 3]> config_yml.

(** A [config.yml] with Bitwarden switched off and without the optional
    sections, the Discord one included; its sections are given outright. *)
Definition config_plain : rdict :=
  list_to_map [
    ("bws", RVal (py_dict [("enable", PBool false)]));
    ("stripe",
     RVal (py_dict [("api_key", PStr "sk_test"); ("price_id", PStr "p")]));
    ("email", RVal (py_dict [("smtp_server", PStr "smtp.example.org")]));
    ("jwt", RVal (py_dict [("algorithm", PStr "HS256")]));
    ("infra", RVal (py_dict [("horizon", PStr "https://horizon.example.org")]));
    ("telemetry", RVal (py_dict [("enable", PBool false)]));
    ("http", RVal (py_dict [("domain", PStr "join.example.org")]))].

End Settings.

(** * Properties *)

(** ** [str(uuid)] is injective *)

Lemma hex_digit_cases (d : N) :
  (d < 16)%N →
  hex_value (hex_digit d) = d ∧ Ascii.eqb (hex_digit d) "-" = false.
Proof.
  intros H.
  assert (Hd : ∃ k, (k < 16)%nat ∧ d = N.of_nat k).
  { exists (N.to_nat d). split; lia. }
  destruct Hd as (k & Hk & ->).
  do 16 (destruct k as [|k]; [split; reflexivity|]). lia.
Qed.

Lemma parse_step_digit (acc d : N) :
  (d < 16)%N → parse_step acc (hex_digit d) = (16 * acc + d)%N.
Proof.
  intros H. destruct (hex_digit_cases d H) as [Hv Hn].
  unfold parse_step. by rewrite Hn, Hv.
Qed.

Lemma parse_hex_digits (fuel : nat) : ∀ n : N,
  (n < 2 ^ N.of_nat fuel)%N →
  fold_left parse_step (hex_digits fuel n) 0%N = n.
Proof.
  induction fuel as [|fuel IH]; intros n Hn.
  - simpl in *. lia.
  - simpl hex_digits. destruct (N.ltb_spec n 16) as [Hlt|Hge].
    + simpl. rewrite parse_step_digit by done. lia.
    + rewrite fold_left_app. simpl. rewrite IH.
      * rewrite parse_step_digit by (apply N.mod_lt; lia).
        symmetry. apply N.div_mod'.
      * replace (N.of_nat (S fuel)) with (N.succ (N.of_nat fuel)) in Hn by lia.
        rewrite N.pow_succ_r' in Hn.
        apply N.Div0.div_lt_upper_bound. lia.
Qed.

Lemma parse_zeros (k : nat) :
  fold_left parse_step (repeat "0"%char k) 0%N = 0%N.
Proof. induction k as [|k IH]; [done|]. simpl. exact IH. Qed.

Lemma size_nat_bound (n : N) : (n < 2 ^ N.of_nat (N.size_nat n))%N.
Proof.
  destruct n as [|p]; [done|]. simpl N.size_nat.
  induction p as [p IH|p IH|]; simpl Pos.size_nat;
    rewrite ?Nat2N.inj_succ, ?N.pow_succ_r'; lia.
Qed.

Lemma parse_format_032x (n : N) :
  fold_left parse_step (format_032x n) 0%N = n.
Proof.
  unfold format_032x. rewrite fold_left_app, parse_zeros.
  apply parse_hex_digits.
  pose proof (size_nat_bound n) as H.
  rewrite Nat2N.inj_succ, N.pow_succ_r'. lia.
Qed.

Lemma parse_skip_dash (a b : list ascii) (acc : N) :
  fold_left parse_step (a ++ "-"%char :: b) acc
  = fold_left parse_step (a ++ b) acc.
Proof. by rewrite !fold_left_app. Qed.

Lemma uuid_int_str_uuid (n : N) : uuid_int (str_uuid n) = n.
Proof.
  unfold uuid_int, str_uuid.
  rewrite list_ascii_of_string_of_list_ascii.
  set (h := format_032x n).
  rewrite parse_skip_dash.
  rewrite (app_assoc (take 8 h)), parse_skip_dash, <- app_assoc.
  rewrite (app_assoc (take 8 h)), (app_assoc (_ ++ _)), parse_skip_dash,
    <- !app_assoc.
  rewrite (app_assoc (take 8 h)), (app_assoc (_ ++ _)),
    (app_assoc ((_ ++ _) ++ _)), parse_skip_dash, <- !app_assoc.
  replace (drop 20 h) with (drop 4 (drop 16 h)) by (by rewrite drop_drop).
  rewrite take_drop.
  replace (drop 16 h) with (drop 4 (drop 12 h)) by (by rewrite drop_drop).
  rewrite take_drop.
  replace (drop 12 h) with (drop 4 (drop 8 h)) by (by rewrite drop_drop).
  rewrite !take_drop.
  apply parse_format_032x.
Qed.

Lemma str_uuid_inj (a b : N) : str_uuid a = str_uuid b → a = b.
Proof.
  intros H. rewrite <- (uuid_int_str_uuid a), <- (uuid_int_str_uuid b).
  by rewrite H.
Qed.

(** ** The monad *)

Lemma bind_inr {A B} (m : M A) (k : A → M B) st b st' :
  bind m k st = (inr b, st') →
  ∃ a st1, m st = (inr a, st1) ∧ k a st1 = (inr b, st').
Proof.
  unfold bind. destruct (m st) as [[e|a] st1]; [discriminate|]. eauto.
Qed.

Lemma lift_inr {A} (r : exn + A) st a st' :
  lift r st = (inr a, st') → r = inr a ∧ st' = st.
Proof. destruct r; unfold lift, raise, ret; intros [= <- <-]; done. Qed.

Lemma ret_inr {A} (x : A) st a st' :
  ret x st = (inr a, st') → a = x ∧ st' = st.
Proof. unfold ret. by intros [= <- <-]. Qed.

Lemma read_file_inr E path st data st' :
  read_file E path st = (inr data, st') →
  fs E path = Some data ∧ st' = log_open path st.
Proof.
  unfold read_file. destruct (fs E path); intros [= <- <-]; done.
Qed.

Lemma sign_inr E p st q st' :
  sign E p st = (inr q, st') →
  ∃ k c sig, key p = Some k ∧ cert p = Some c ∧
    pk_sign E k c (pass_package p) = Some sig ∧
    q = {| pass_package := pass_package p; key := Some k; cert := Some c;
           signature := Some sig |} ∧ st' = st.
Proof.
  unfold sign, ret, raise.
  destruct (key p) as [k|], (cert p) as [c|]; try discriminate.
  destruct (pk_sign E k c (pass_package p)) as [sig|] eqn:Hsig; [|discriminate].
  intros [= <- <-]. by exists k, c, sig.
Qed.

Ltac inv_bind H :=
  let a := fresh "a" in let s := fresh "s" in let Ha := fresh "Ha" in
  apply bind_inr in H as (a & s & Ha & H).

(** ** [get_img] and [pass_json] *)

(** [get_img] only talks to the network. *)
Lemma requests_get_state E url st r st' :
  requests_get E url st = (r, st') →
  uuid_ctr st' = uuid_ctr st ∧ fs_log st' = fs_log st.
Proof.
  unfold requests_get, raise.
  destruct url as [| | | |u| |]; try (intros [= _ <-]; done).
  destruct (http E _ u); intros [= _ <-]; done.
Qed.

Lemma get_img_state E depth : ∀ url st r st',
  get_img E depth url st = (r, st') →
  uuid_ctr st' = uuid_ctr st ∧ fs_log st' = fs_log st.
Proof.
  induction depth as [|depth IH]; intros url st r st' H; simpl in H.
  - unfold raise in H. by injection H as _ <-.
  - unfold bind in H.
    destruct (requests_get E url st) as [[e|resp] st1] eqn:Hreq;
      apply requests_get_state in Hreq as [Hu Hf].
    + by injection H as _ <-.
    + destruct (status_code resp <? 400)%Z.
      * unfold ret in H. by injection H as _ <-.
      * apply IH in H as [-> ->]. done.
Qed.

(** A fetch that is answered with a status below 400 returns the body of
    that answer and makes one request. *)
Lemma get_img_ok E depth u st resp :
  http E (length (http_log st)) u = Some resp →
  (status_code resp < 400)%Z →
  get_img E (S depth) (PStr u) st = (inr (raw resp), log_request u st).
Proof.
  intros Hresp Hstatus. simpl. unfold bind, requests_get. rewrite Hresp.
  destruct (Z.ltb_spec (status_code resp) 400); [done|lia].
Qed.

(** A fetch that is answered with a status of 400 or more goes on with the
    fallback URL, one frame deeper. *)
Lemma get_img_fallback E depth u st resp :
  http E (length (http_log st)) u = Some resp →
  (400 ≤ status_code resp)%Z →
  get_img E (S depth) (PStr u) st
  = get_img E depth (PStr fallback_url) (log_request u st).
Proof.
  intros Hresp Hstatus. simpl. unfold bind, requests_get. rewrite Hresp.
  destruct (Z.ltb_spec (status_code resp) 400); [lia|done].
Qed.

(** The manifest only depends on the profile and on the UUID drawn. *)
Lemma pass_json_result E user_data st :
  fst (pass_json E user_data st)
  = match py_get (dict_get user_data "discord" (PDict ∅)) "username" PNone with
    | inl e => inl e
    | inr altText =>
        match add_str_right (dict_get user_data "first_name" (PStr "")) " " with
        | inl e => inl e
        | inr name0 =>
            match add_str_left name0 (dict_get user_data "surname" (PStr "")) with
            | inl e => inl e
            | inr name =>
                inr (pass_json_dict
                       (str_uuid (uuid_source E (uuid_ctr st)))
                       (dict_get user_data "id" (PStr "Unknown_ID"))
                       altText name
                       (dict_get user_data "infra_email" (PStr "Not Provisioned")))
            end
        end
    end.
Proof.
  unfold pass_json, bind, uuid4.
  destruct (py_get _ "username" PNone) as [e|altText];
    cbn [lift ret raise fst]; [reflexivity|].
  destruct (add_str_right _ " ") as [e|name0];
    cbn [lift ret raise fst]; [reflexivity|].
  destruct (add_str_left name0 _) as [e|name]; reflexivity.
Qed.

Lemma pass_json_state E user_data st r st' :
  pass_json E user_data st = (r, st') → st' = log_draw st.
Proof.
  unfold pass_json, bind, uuid4.
  destruct (py_get _ "username" PNone) as [e|altText];
    cbn [lift ret raise]; [intros [= _ <-]; reflexivity|].
  destruct (add_str_right _ " ") as [e|name0];
    cbn [lift ret raise]; [intros [= _ <-]; reflexivity|].
  destruct (add_str_left name0 _) as [e|name];
    cbn [lift ret raise]; intros [= _ <-]; reflexivity.
Qed.

Lemma pass_json_ctr E user_data st1 st2 :
  uuid_ctr st1 = uuid_ctr st2 →
  fst (pass_json E user_data st1) = fst (pass_json E user_data st2).
Proof. intros H. by rewrite !pass_json_result, H. Qed.

(** ** What a run of [apple_wallet] that returns went through *)

Lemma add_to_pass_package_inr p asset q :
  add_to_pass_package p asset = inr q →
  snd asset ≠ [] ∧
  q = {| pass_package := (pass_package p ++ [asset])%list; key := key p;
         cert := cert p; signature := signature p |}.
Proof.
  unfold add_to_pass_package. destruct (snd asset); [discriminate|].
  by intros [= <-].
Qed.

Ltac inv_add H :=
  let a := fresh "a" in let s := fresh "s" in let Ha := fresh "Ha" in
  let Hne := fresh "Hne" in
  apply bind_inr in H as (a & s & Ha & H);
  apply lift_inr in Ha as [Ha ->];
  apply add_to_pass_package_inr in Ha as [Hne ->].

Lemma thumbnails_block E depth img (p : PKPass) st q st' :
  (if truthy img then
     let* img_data := get_img E depth img in
     let* p := lift (add_to_pass_package p ("thumbnail.png", img_data)) in
     let* img_data := get_img E depth img in
     lift (add_to_pass_package p ("thumbnail@2x.png", img_data))
   else ret p) st = (inr q, st') →
  ∃ thumbs, thumbnails E depth img st thumbs st' ∧
    Forall (fun e => snd e ≠ []) thumbs ∧
    q = {| pass_package := (pass_package p ++ thumbs)%list; key := key p;
           cert := cert p; signature := signature p |}.
Proof.
  unfold thumbnails. destruct (truthy img); intros H.
  - inv_bind H. inv_add H. inv_bind H.
    apply lift_inr in H as [H ->].
    apply add_to_pass_package_inr in H as [Hne2 ->].
    eexists. split; [by eexists _, _, _|].
    split; [by repeat constructor|].
    simpl. by rewrite <- app_assoc.
  - apply ret_inr in H as [-> ->]. exists []. split; [done|].
    split; [constructor|]. rewrite app_nil_r. by destruct p.
Qed.

Lemma py_get_inr v k dflt w :
  py_get v k dflt = inr w → ∃ d, v = PDict d ∧ w = dict_get d k dflt.
Proof. destruct v; try discriminate. intros [= <-]. eauto. Qed.

Lemma logo_block E (is_ops : bool) (p : PKPass) st q st' :
  (if is_ops then
     let* ico_data := read_file E (static_path "logo_ops@2x.png") in
     let* p := lift (add_to_pass_package p ("logo@2x.png", ico_data)) in
     let* ico_data := read_file E (static_path "logo_ops.png") in
     lift (add_to_pass_package p ("logo.png", ico_data))
   else
     let* ico_data := read_file E (static_path "logo_reg@2x.png") in
     let* p := lift (add_to_pass_package p ("logo@2x.png", ico_data)) in
     let* ico_data := read_file E (static_path "logo_reg.png") in
     lift (add_to_pass_package p ("logo.png", ico_data))) st = (inr q, st') →
  let files := if is_ops then ("logo_ops@2x.png", "logo_ops.png")
               else ("logo_reg@2x.png", "logo_reg.png") in
  ∃ logo2 logo,
    fs E (static_path (fst files)) = Some logo2 ∧
    fs E (static_path (snd files)) = Some logo ∧
    logo2 ≠ [] ∧ logo ≠ [] ∧
    q = {| pass_package :=
             (pass_package p ++ [("logo@2x.png", logo2); ("logo.png", logo)])%list;
           key := key p; cert := cert p; signature := signature p |} ∧
    st' = log_open (static_path (snd files))
            (log_open (static_path (fst files)) st).
Proof.
  destruct is_ops; intros H files; subst files;
    inv_bind H; apply read_file_inr in Ha as [Hlogo2 ->];
    inv_add H;
    inv_bind H; apply read_file_inr in Ha as [Hlogo ->];
    apply lift_inr in H as [H ->];
    apply add_to_pass_package_inr in H as [Hne2 ->];
    eexists _, _; (split; [exact Hlogo2|]); (split; [exact Hlogo|]);
    (split; [exact Hne|]); (split; [exact Hne2|]);
    (split; [|reflexivity]);
    simpl; by rewrite <- app_assoc.
Qed.

Lemma apple_wallet_run E depth user_data st p st' :
  apple_wallet E depth user_data st = (inr p, st') →
  wallet_run E depth user_data st p st'.
Proof.
  intros H. unfold apple_wallet in H. cbv zeta in H.
  inv_bind H. apply read_file_inr in Ha as [Hicon ->].
  inv_add H. rename Hne into Hnicon.
  inv_bind H. apply read_file_inr in Ha as [Hicon2 ->].
  inv_add H. rename Hne into Hnicon2.
  inv_bind H. pose proof (pass_json_state _ _ _ _ _ Ha) as ->.
  match type of Ha with pass_json _ _ _ = (inr ?m, _) =>
    assert (Hm : fst (pass_json E user_data st) = inr m)
  end.
  { rewrite (pass_json_ctr E user_data st
               (log_open (static_path "icon@2x.png")
                  (log_open (static_path "icon.png") st))) by done.
    by rewrite Ha. }
  clear Ha.
  inv_bind H. apply lift_inr in Ha as [Hget ->].
  apply py_get_inr in Hget as (discord & Hdiscord & ->).
  inv_bind H.
  apply thumbnails_block in Ha as (thumbs & Hthumbs & Hnthumbs & ->).
  inv_bind H.
  apply logo_block in Ha
    as (logo2 & logo & Hlogo2 & Hlogo & Hnlogo2 & Hnlogo & -> & ->).
  inv_add H. rename Hne into Hnjson.
  inv_bind H. apply read_file_inr in Ha as [Hkey ->].
  inv_bind H. apply read_file_inr in Ha as [Hcert ->].
  apply sign_inr in H as (k & c & sig & Hk & Hc & Hsig & -> & ->).
  simpl in Hk, Hc, Hsig. injection Hk as <-. injection Hc as <-.
  econstructor; try eassumption; simpl.
  - by rewrite <- !app_assoc.
  - do 2 (constructor; [done|]). rewrite !Forall_app.
    repeat split; try done; by repeat constructor.
  - done.
  - split; [exact Hsig|done].
  - reflexivity.
Qed.

(** ** The converse: when [apple_wallet] returns *)

Lemma bind_ok {A B} (m : M A) (k : A → M B) st a st1 :
  m st = (inr a, st1) → bind m k st = k a st1.
Proof. unfold bind. by intros ->. Qed.

Lemma bind_raise {A B} (m : M A) (k : A → M B) st e st1 :
  m st = (inl e, st1) → bind m k st = (inl e, st1).
Proof. unfold bind. by intros ->. Qed.

Lemma bind_ret {A B} (a : A) (k : A → M B) st : bind (ret a) k st = k a st.
Proof. reflexivity. Qed.

Lemma read_file_ok E path st data :
  fs E path = Some data → read_file E path st = (inr data, log_open path st).
Proof. unfold read_file. by intros ->. Qed.


Lemma add_to_pass_package_ok {B} p name data (k : PKPass → M B) st :
  data ≠ [] →
  bind (lift (add_to_pass_package p (name, data))) k st
  = k {| pass_package := (pass_package p ++ [(name, data)])%list;
         key := key p; cert := cert p; signature := signature p |} st.
Proof. intros Hne. unfold add_to_pass_package. by destruct data. Qed.


Lemma add_to_pass_package_empty {B} p name (k : PKPass → M B) st :
  bind (lift (add_to_pass_package p (name, []))) k st
  = (inl AssertionError, st).
Proof. reflexivity. Qed.




(** ** C1: the fallback of [get_img] *)

(** When the first answer is a failure and the fallback host answers, the
    fallback is requested once and its body is returned. *)
Lemma get_img_fallback_once E depth u st resp resp' :
  http E (length (http_log st)) u = Some resp →
  (400 ≤ status_code resp)%Z →
  http E (S (length (http_log st))) fallback_url = Some resp' →
  (status_code resp' < 400)%Z →
  get_img E (S (S depth)) (PStr u) st
  = (inr (raw resp'), log_request fallback_url (log_request u st)).
Proof.
  intros H1 Hs1 H2 Hs2.
  rewrite (get_img_fallback _ _ _ _ _ H1 Hs1).
  apply get_img_ok; [|done].
  simpl. rewrite length_app. simpl. by rewrite Nat.add_1_r.
Qed.

(** C1 (fails on the code): while every answer is a failure, [get_img]
    requests the fallback URL again and again, once per frame the
    interpreter allows, and ends in [RecursionError]; the fallback is not
    tried exactly once. *)
Theorem get_img_recursion_unbounded (depth : nat) : ∀ (u : string) (st : State),
  get_img env_down (S depth) (PStr u) st
  = (inl RecursionError,
     {| uuid_ctr := uuid_ctr st;
        http_log := http_log st ++ u :: repeat fallback_url depth;
        fs_log := fs_log st |}).
Proof.
  induction depth as [|depth IH]; intros u st.
  - reflexivity.
  - rewrite (get_img_fallback env_down _ u st {| status_code := 500; raw := [] |});
      [|done|simpl; lia].
    rewrite IH. unfold log_request. simpl. by rewrite <- app_assoc.
Qed.

(** ** Reading the manifest literal *)

Lemma manifest_serial_number serial message altText name infra :
  py_path (pass_json_dict serial message altText name infra) serial_number
  = Some (PStr serial).
Proof. reflexivity. Qed.

Lemma manifest_barcode serial message altText name infra :
  let m := pass_json_dict serial message altText name infra in
  py_path m barcode_format = Some (PStr "PKBarcodeFormatQR") ∧
  py_path m barcode_message = Some message ∧
  py_path m barcode_alt_text = Some altText.
Proof. repeat split; reflexivity. Qed.

Lemma manifest_fields serial message altText name infra :
  let m := pass_json_dict serial message altText name infra in
  py_path m primary_value = Some (PStr name) ∧
  py_path m secondary_value = Some infra.
Proof. split; reflexivity. Qed.

(** ** The entries of a returned pass *)

Lemma thumbnails_cases E depth img st thumbs st' :
  thumbnails E depth img st thumbs st' →
  (truthy img = false ∧ thumbs = [] ∧ st' = st) ∨
  (truthy img = true ∧ ∃ b1 st1 b2,
     get_img E depth img st = (inr b1, st1) ∧
     get_img E depth img st1 = (inr b2, st') ∧
     thumbs = [("thumbnail.png", b1); ("thumbnail@2x.png", b2)]).
Proof. unfold thumbnails. destruct (truthy img); intros H; eauto. Qed.

Lemma thumbnails_state E depth img st thumbs st' :
  thumbnails E depth img st thumbs st' →
  uuid_ctr st' = uuid_ctr st ∧ fs_log st' = fs_log st.
Proof.
  intros H. apply thumbnails_cases in H
    as [(_ & _ & ->)|(_ & b1 & st1 & b2 & H1 & H2 & _)]; [done|].
  apply get_img_state in H1 as [<- <-]. by apply get_img_state in H2.
Qed.

Lemma wallet_run_ctr E depth user_data st p st' :
  wallet_run E depth user_data st p st' → uuid_ctr st' = S (uuid_ctr st).
Proof.
  intros []. subst st'. simpl.
  apply thumbnails_state in Hthumbs as [-> _]. done.
Qed.

Lemma wallet_run_fs_log E depth user_data st p st' :
  wallet_run E depth user_data st p st' →
  fs_log st' =
    (fs_log st ++
     [static_path "icon.png"; static_path "icon@2x.png";
      static_path (fst (logo_files user_data));
      static_path (snd (logo_files user_data)); key_path; cert_path])%list.
Proof.
  intros []. subst st'. simpl.
  apply thumbnails_state in Hthumbs as [_ ->]. simpl.
  by rewrite <- !app_assoc.
Qed.

Lemma wallet_run_static_entries E depth user_data st p st' :
  wallet_run E depth user_data st p st' →
  entry p "icon.png" = fs E (static_path "icon.png") ∧
  entry p "icon@2x.png" = fs E (static_path "icon@2x.png") ∧
  entry p "logo@2x.png" = fs E (static_path (fst (logo_files user_data))) ∧
  entry p "logo.png" = fs E (static_path (snd (logo_files user_data))) ∧
  ∃ m, fst (pass_json E user_data st) = inr m ∧
       entry p "pass.json" = Some (json_dumps_utf8 E m).
Proof.
  intros []. unfold entry. rewrite Hpackage, Hicon, Hicon2, Hlogo2, Hlogo.
  apply thumbnails_cases in Hthumbs
    as [(_ & -> & _)|(_ & b1 & st1 & b2 & _ & _ & ->)];
    (repeat split; try reflexivity); by exists manifest.
Qed.

(** ** C10: entry names *)

Lemma wallet_run_names E depth user_data st p st' :
  wallet_run E depth user_data st p st' →
  names p = ["icon.png"; "icon@2x.png"; "logo@2x.png"; "logo.png"; "pass.json"] ∨
  names p = ["icon.png"; "icon@2x.png"; "thumbnail.png"; "thumbnail@2x.png";
             "logo@2x.png"; "logo.png"; "pass.json"].
Proof.
  intros []. unfold names. rewrite Hpackage.
  apply thumbnails_cases in Hthumbs
    as [(_ & -> & _)|(_ & b1 & st1 & b2 & _ & _ & ->)]; [by left|by right].
Qed.

(** C10: the entries of a pass that [apple_wallet] returns have pairwise
    distinct names. *)
Theorem entry_names_distinct E depth user_data st p st' :
  apple_wallet E depth user_data st = (inr p, st') → NoDup (names p).
Proof.
  intros H. apply apple_wallet_run, wallet_run_names in H as [-> | ->];
    apply (bool_decide_unpack _); reflexivity.
Qed.

Lemma entry_names_distinct_witness :
  ∃ p st', apple_wallet env_up 1 ada st0 = (inr p, st') ∧ NoDup (names p).
Proof.
  eexists _, _. split; [vm_compute; reflexivity|].
  eapply (entry_names_distinct env_up 1 ada st0). vm_compute. reflexivity.
Defined.

(** ** C9: all-or-nothing construction *)

(** A missing or empty asset, a missing credential file, an avatar that
    cannot be fetched or a signature that cannot be made ends the run in an
    exception. *)
Lemma apple_wallet_aborts E depth user_data st :
  fs E (static_path "icon.png") = None ∨
  fs E (static_path "icon.png") = Some [] ∨
  fs E (static_path "icon@2x.png") = None ∨
  fs E (static_path "icon@2x.png") = Some [] ∨
  (∃ discord,
     discord_record user_data discord ∧
     truthy (dict_get discord "avatar" (PBool false)) = true ∧
     ∀ s b s', get_img E depth (dict_get discord "avatar" (PBool false)) s
               = (inr b, s') → b = []) ∨
  fs E (static_path (fst (logo_files user_data))) = None ∨
  fs E (static_path (fst (logo_files user_data))) = Some [] ∨
  fs E (static_path (snd (logo_files user_data))) = None ∨
  fs E (static_path (snd (logo_files user_data))) = Some [] ∨
  fs E key_path = None ∨ fs E cert_path = None ∨
  (∀ k c entries, pk_sign E k c entries = None) →
  ∃ e, fst (apple_wallet E depth user_data st) = inl e.
Proof.
  intros Hfail.
  destruct (apple_wallet E depth user_data st) as [[e|p] st'] eqn:H;
    [by exists e|].
  exfalso. apply apple_wallet_run in H as [].
  destruct Hsigned as [Hsig _].
  rewrite Hpackage in Hnonempty.
  apply Forall_cons in Hnonempty as [Hnicon Hnonempty].
  apply Forall_cons in Hnonempty as [Hnicon2 Hnonempty].
  apply Forall_app in Hnonempty as [Hnthumbs Hnonempty].
  apply Forall_cons in Hnonempty as [Hnlogo2 Hnonempty].
  apply Forall_cons in Hnonempty as [Hnlogo _].
  simpl in Hnicon, Hnicon2, Hnlogo2, Hnlogo.
  destruct Hfail as [F|[F|[F|[F|[F|[F|[F|[F|[F|[F|[F|F]]]]]]]]]]];
    try congruence; try (by rewrite F in Hsig).
  destruct F as (discord' & Hd & Htruthy & Hget).
  unfold discord_record in Hd. rewrite Hdiscord in Hd. injection Hd as <-.
  unfold thumbnails in Hthumbs. rewrite Htruthy in Hthumbs.
  destruct Hthumbs as (b1 & st1 & b2 & H1 & _ & ->).
  apply Forall_cons in Hnthumbs as [Hb1 _]. simpl in Hb1.
  by apply Hget in H1.
Qed.

(** With every host down the avatar cannot be fetched and no pass is
    returned. *)
Example apple_wallet_network_down :
  fst (apple_wallet env_down 3 ada st0) = inl RecursionError.
Proof. vm_compute. reflexivity. Qed.

(** C9: a pass is returned only when every step before signing succeeded
    and signing itself succeeded: both icons were read, the manifest was
    built, the avatar block went through (for a profile with an avatar both
    calls of [get_img] returned and both thumbnails are in the pass; for a
    profile without, nothing was fetched and there is no thumbnail), both
    logos and both credential files were read and the manifest was
    serialised.  The pass returned holds exactly these entries, none of
    them empty, and the signature, which was made last, over exactly the
    entries the pass holds.  Hence a failure of any step leaves the caller
    with an exception and no pass, and what the route answers with is the
    serialisation of that signed pass. *)
Theorem apple_wallet_all_or_nothing E depth user_data st p st' :
  apple_wallet E depth user_data st = (inr p, st') →
  (∃ icon icon2 m discord thumbs st_img logo2 logo k c sig,
    fs E (static_path "icon.png") = Some icon ∧
    fs E (static_path "icon@2x.png") = Some icon2 ∧
    fst (pass_json E user_data st) = inr m ∧
    discord_record user_data discord ∧
    thumbnails E depth (dict_get discord "avatar" (PBool false))
      (log_draw (log_open (static_path "icon@2x.png")
                   (log_open (static_path "icon.png") st)))
      thumbs st_img ∧
    fs E (static_path (fst (logo_files user_data))) = Some logo2 ∧
    fs E (static_path (snd (logo_files user_data))) = Some logo ∧
    fs E key_path = Some k ∧ fs E cert_path = Some c ∧
    pass_package p
    = ([("icon.png", icon); ("icon@2x.png", icon2)] ++ thumbs ++
       [("logo@2x.png", logo2); ("logo.png", logo);
        ("pass.json", json_dumps_utf8 E m)])%list ∧
    Forall (fun e => snd e ≠ []) (pass_package p) ∧
    key p = Some k ∧ cert p = Some c ∧
    pk_sign E k c (pass_package p) = Some sig ∧
    signature p = Some sig) ∧
  ∀ resp st2,
    aapl_gen E depth user_data st = (inr resp, st2) →
    content resp = PKPass_bytes E p ∧ st2 = st'.
Proof.
  intros H.
  assert (Hgen : ∀ resp st2,
    aapl_gen E depth user_data st = (inr resp, st2) →
    content resp = PKPass_bytes E p ∧ st2 = st').
  { intros resp st2 Hr. unfold aapl_gen in Hr. inv_bind Hr.
    rewrite H in Ha. injection Ha as <- <-.
    by apply ret_inr in Hr as [-> ->]. }
  split; [|exact Hgen].
  apply apple_wallet_run in H as [].
  destruct Hcredentials, Hsigned.
  exists icon, icon2, manifest, discord, thumbs, st_img, logo2, logo, k, c, sig.
  repeat (split; [done|]). done.
Qed.

Lemma apple_wallet_all_or_nothing_witness :
  ∃ p st', apple_wallet env_up 1 ada st0 = (inr p, st') ∧
    is_Some (signature p) ∧
    names p = ["icon.png"; "icon@2x.png"; "thumbnail.png"; "thumbnail@2x.png";
               "logo@2x.png"; "logo.png"; "pass.json"].
Proof.
  eexists _, _. split; [vm_compute; reflexivity|].
  destruct (apple_wallet_all_or_nothing env_up 1 ada st0 _ _
              ltac:(vm_compute; reflexivity))
    as ((icon & icon2 & m & discord & thumbs & st_img & logo2 & logo & k & c
         & sig & _ & _ & _ & _ & _ & _ & _ & _ & _ & _ & _ & _ & _ & _ & Hsig)
        & _).
  split; [by exists sig|reflexivity].
Defined.

(** ** C4: the logo follows [ops_email] *)

Lemma is_ops_spec (user_data : pydict) :
  optional_str (user_data !! "ops_email") →
  truthy (dict_get user_data "ops_email" (PBool false)) = true
  ↔ ops_email_present user_data.
Proof.
  unfold ops_email_present, dict_get.
  intros [H|[H|[s H]]]; rewrite H; simpl.
  - split; [done|]. by intros (s & ? & _).
  - split; [done|]. by intros (s & ? & _).
  - destruct (String.eqb_spec s "") as [->|Hne]; simpl.
    + split; [done|]. intros (s' & [= <-] & Hne). done.
    + split; [|done]. intros _. by exists s.
Qed.

(** C4: for a profile whose [ops_email] is an optional string, the pass
    returned carries the operator logo pair (both scales, read from
    [logo_ops@2x.png] and [logo_ops.png]) exactly when [ops_email] is present
    and non-empty, and the regular pair ([logo_reg@2x.png], [logo_reg.png])
    exactly when it is not; no other logo file is opened. *)
Theorem logo_variant_by_ops_email E depth user_data st p st' :
  optional_str (user_data !! "ops_email") →
  apple_wallet E depth user_data st = (inr p, st') →
  ∃ logo2x logo : string,
    fs_log st' =
      (fs_log st ++
       [static_path "icon.png"; static_path "icon@2x.png";
        static_path logo2x; static_path logo; key_path; cert_path])%list ∧
    entry p "logo@2x.png" = fs E (static_path logo2x) ∧
    entry p "logo.png" = fs E (static_path logo) ∧
    ((logo2x, logo) = ("logo_ops@2x.png", "logo_ops.png")
     ↔ ops_email_present user_data) ∧
    ((logo2x, logo) = ("logo_reg@2x.png", "logo_reg.png")
     ↔ ¬ ops_email_present user_data).
Proof.
  intros Hopt H. apply apple_wallet_run in H.
  pose proof (wallet_run_fs_log _ _ _ _ _ _ H) as Hlog.
  destruct (wallet_run_static_entries _ _ _ _ _ _ H) as (_ & _ & Hl2 & Hl & _).
  apply is_ops_spec in Hopt.
  exists (fst (logo_files user_data)), (snd (logo_files user_data)).
  split; [exact Hlog|]. split; [exact Hl2|]. split; [exact Hl|].
  unfold logo_files.
  destruct (truthy (dict_get user_data "ops_email" (PBool false))); simpl.
  - split; [split; [intros _; by apply Hopt|done]|].
    split; [discriminate|]. intros Hn. destruct Hn. by apply Hopt.
  - assert (¬ ops_email_present user_data) as Hn.
    { intros Hp. apply Hopt in Hp. discriminate. }
    split; [split; [discriminate|done]|]. done.
Qed.

Lemma logo_variant_by_ops_email_witness :
  ∃ p st', apple_wallet env_up 1 ada st0 = (inr p, st') ∧
    ops_email_present ada ∧
    entry p "logo.png" = fs env_up (static_path "logo_ops.png").
Proof.
  eexists _, _. split; [vm_compute; reflexivity|].
  assert (Hp : ops_email_present ada).
  { exists "ada@hackucf.org". split; [vm_compute; reflexivity|discriminate]. }
  split; [exact Hp|].
  destruct (logo_variant_by_ops_email env_up 1 ada st0 _ _
              ltac:(right; right; eexists; vm_compute; reflexivity)
              ltac:(vm_compute; reflexivity))
    as (logo2x & logo & _ & _ & Hl & Hops & _).
  apply Hops in Hp. injection Hp as _ ->. exact Hl.
Defined.

(** ** C8: a fresh serial number per invocation *)

Lemma wallet_run_serial E depth user_data st p st' :
  wallet_run E depth user_data st p st' →
  ∃ m, fst (pass_json E user_data st) = inr m ∧
    entry p "pass.json" = Some (json_dumps_utf8 E m) ∧
    py_path m serial_number
    = Some (PStr (str_uuid (uuid_source E (uuid_ctr st)))).
Proof.
  intros H.
  destruct (wallet_run_static_entries _ _ _ _ _ _ H)
    as (_ & _ & _ & _ & m & Hm & Hpj).
  exists m. split; [done|]. split; [done|].
  rewrite pass_json_result in Hm.
  destruct (py_get _ "username" PNone); [done|].
  destruct (add_str_right _ " "); [done|].
  destruct (add_str_left _ _); [done|].
  injection Hm as <-. apply manifest_serial_number.
Qed.

(** Among more values than [B] below [B] two are equal. *)
Lemma repeated_value (f : nat → N) : ∀ m,
  ¬ NoDup (f <$> seq 0 m) → ∃ i j, (i < j < m)%nat ∧ f i = f j.
Proof.
  induction m as [|m IH]; intros Hdup.
  - destruct Hdup. constructor.
  - rewrite seq_S, fmap_app in Hdup. simpl in Hdup.
    destruct (decide (NoDup (f <$> seq 0 m))) as [Hnd|Hnd].
    + destruct (decide (f m ∈ f <$> seq 0 m)) as [Hin|Hnin].
      * apply list_elem_of_fmap in Hin as (i & Heq & Hi).
        apply elem_of_seq in Hi. exists i, m. split; [lia|done].
      * destruct Hdup. apply NoDup_app. split; [done|].
        split; [|apply NoDup_singleton].
        intros x Hx Hx'. apply list_elem_of_singleton in Hx' as ->. done.
    + destruct (IH Hnd) as (i & j & Hij & Heq). exists i, j. split; [lia|done].
Qed.

Lemma pigeonhole (f : nat → N) (B : N) :
  (∀ i, (f i < B)%N) → ∃ i j, (i < j)%nat ∧ f i = f j.
Proof.
  intros Hb. set (n := N.to_nat B).
  destruct (decide (NoDup (f <$> seq 0 (S n)))) as [Hnd|Hnd].
  - exfalso.
    assert (Hsub : (f <$> seq 0 (S n)) ⊆+ (N.of_nat <$> seq 0 n)).
    { apply NoDup_submseteq; [done|]. intros x Hx.
      apply list_elem_of_fmap in Hx as (i & -> & _).
      apply list_elem_of_fmap. exists (N.to_nat (f i)).
      split; [lia|]. apply elem_of_seq. specialize (Hb i). lia. }
    apply submseteq_length in Hsub.
    rewrite !length_fmap, !length_seq in Hsub. lia.
  - destruct (repeated_value f _ Hnd) as (i & j & Hij & Heq).
    exists i, j. split; [lia|done].
Qed.

(** Whatever the generator, if its UUIDs have 128 bits then two of the
    draws give the same manifest to a profile, serial number included. *)
Lemma serial_numbers_must_repeat E user_data :
  uuid_128 E →
  ∃ i j, i ≠ j ∧
    ∀ st1 st2, uuid_ctr st1 = i → uuid_ctr st2 = j →
      fst (pass_json E user_data st1) = fst (pass_json E user_data st2).
Proof.
  intros Hb. destruct (pigeonhole (uuid_source E) _ Hb) as (i & j & Hij & Heq).
  exists i, j. split; [lia|]. intros st1 st2 H1 H2.
  by rewrite !pass_json_result, H1, H2, Heq.
Qed.

(** C8: [apple_wallet] calls [uuid.uuid4] once at every invocation and
    writes the text of the UUID it got into the manifest as the serial
    number; nothing is kept from one invocation to the next, so a later
    invocation reads a later draw.  The text determines the UUID: the two
    serial numbers are equal exactly when [uuid4] returned the same UUID
    to the two invocations. *)
Theorem serial_numbers_differ_iff E depth1 depth2 ud1 ud2 st1 p1 st1' st2 p2
    st2' :
  apple_wallet E depth1 ud1 st1 = (inr p1, st1') →
  apple_wallet E depth2 ud2 st2 = (inr p2, st2') →
  ∃ m1 m2 s1 s2,
    fst (pass_json E ud1 st1) = inr m1 ∧
    entry p1 "pass.json" = Some (json_dumps_utf8 E m1) ∧
    fst (pass_json E ud2 st2) = inr m2 ∧
    entry p2 "pass.json" = Some (json_dumps_utf8 E m2) ∧
    py_path m1 serial_number = Some (PStr s1) ∧
    py_path m2 serial_number = Some (PStr s2) ∧
    s1 = str_uuid (uuid_source E (uuid_ctr st1)) ∧
    s2 = str_uuid (uuid_source E (uuid_ctr st2)) ∧
    uuid_ctr st1' = S (uuid_ctr st1) ∧
    uuid_ctr st2' = S (uuid_ctr st2) ∧
    (s1 = s2 ↔ uuid_source E (uuid_ctr st1) = uuid_source E (uuid_ctr st2)).
Proof.
  intros H1 H2.
  apply apple_wallet_run in H1, H2.
  pose proof (wallet_run_ctr _ _ _ _ _ _ H1) as Hctr1.
  pose proof (wallet_run_ctr _ _ _ _ _ _ H2) as Hctr2.
  apply wallet_run_serial in H1 as (m1 & Hm1 & Hp1 & Hs1).
  apply wallet_run_serial in H2 as (m2 & Hm2 & Hp2 & Hs2).
  exists m1, m2. eexists _, _.
  repeat (split; [eassumption || reflexivity|]).
  split; [apply str_uuid_inj|by intros ->].
Qed.

Lemma serial_numbers_differ_iff_witness :
  ∃ p1 st1 p2 st2 m1 m2,
    apple_wallet env_up 1 ada st0 = (inr p1, st1) ∧
    apple_wallet env_up 1 ada st1 = (inr p2, st2) ∧
    fst (pass_json env_up ada st0) = inr m1 ∧
    fst (pass_json env_up ada st1) = inr m2 ∧
    py_path m1 serial_number ≠ py_path m2 serial_number.
Proof.
  eexists _, _, _, _.
  match goal with |- ∃ m1 m2, ?R1 ∧ ?R2 ∧ _ =>
    assert (H1 : R1) by (vm_compute; reflexivity);
    assert (H2 : R2) by (vm_compute; reflexivity)
  end.
  destruct (serial_numbers_differ_iff env_up 1 1 ada ada _ _ _ _ _ _ H1 H2)
    as (m1 & m2 & s1 & s2 & Hm1 & _ & Hm2 & _ & Hs1 & Hs2 & -> & -> & _ & _
        & Hiff).
  exists m1, m2. repeat (split; [assumption|]).
  rewrite Hs1, Hs2. intros Heq.
  apply (f_equal (fun o => match o with Some (PStr x) => x | _ => "" end))
    in Heq.
  apply Hiff in Heq. discriminate Heq.
Defined.

(** Two invocations in a row on one profile, with a generator that returns
    the same UUID twice: the two passes carry the same serial number. *)
Lemma serial_numbers_equal_counterexample :
  ∃ p1 st1 p2 st2 m1 m2 s,
    apple_wallet env_repeating 1 ada st0 = (inr p1, st1) ∧
    apple_wallet env_repeating 1 ada st1 = (inr p2, st2) ∧
    fst (pass_json env_repeating ada st0) = inr m1 ∧
    entry p1 "pass.json" = Some (json_dumps_utf8 env_repeating m1) ∧
    fst (pass_json env_repeating ada st1) = inr m2 ∧
    entry p2 "pass.json" = Some (json_dumps_utf8 env_repeating m2) ∧
    py_path m1 serial_number = Some (PStr s) ∧
    py_path m2 serial_number = Some (PStr s).
Proof.
  eexists _, _, _, _, _, _, _.
  repeat (split; [vm_compute; reflexivity|]). vm_compute. reflexivity.
Qed.

(** ** The manifest of a profile *)

Lemma name_field_get user_data k s :
  name_field user_data k s → dict_get user_data k (PStr "") = PStr s.
Proof. unfold dict_get. by intros [->|[-> ->]]. Qed.

(** The manifest is built whenever the [discord] field is a record or is
    absent and both names are strings. *)
Lemma pass_json_ok E user_data st discord first sur :
  discord_record user_data discord →
  name_field user_data "first_name" first →
  name_field user_data "surname" sur →
  fst (pass_json E user_data st)
  = inr (pass_json_dict
           (str_uuid (uuid_source E (uuid_ctr st)))
           (dict_get user_data "id" (PStr "Unknown_ID"))
           (dict_get discord "username" PNone)
           ((first ++ " ") ++ sur)
           (dict_get user_data "infra_email" (PStr "Not Provisioned"))).
Proof.
  intros Hd Hf Hs. rewrite pass_json_result.
  unfold discord_record in Hd.
  by rewrite Hd, (name_field_get _ _ _ Hf), (name_field_get _ _ _ Hs).
Qed.

(** Conversely, a manifest that was built is that literal. *)
Lemma pass_json_inr E user_data st m :
  fst (pass_json E user_data st) = inr m →
  ∃ discord name,
    discord_record user_data discord ∧
    m = pass_json_dict
          (str_uuid (uuid_source E (uuid_ctr st)))
          (dict_get user_data "id" (PStr "Unknown_ID"))
          (dict_get discord "username" PNone)
          name
          (dict_get user_data "infra_email" (PStr "Not Provisioned")).
Proof.
  rewrite pass_json_result. unfold discord_record.
  destruct (py_get _ "username" PNone) as [e|altText] eqn:Hget; [done|].
  apply py_get_inr in Hget as (discord & Hd & ->).
  destruct (add_str_right _ " ") as [e|name0]; [done|].
  destruct (add_str_left name0 _) as [e|name]; [done|].
  intros [= <-]. by exists discord, name.
Qed.

(** ** C7: the primary field *)




(** A name that is [None] instead of a string makes the concatenation
    raise: no manifest is built. *)
Example name_none_raises (E : Env) (st : State) :
  fst (pass_json E (<["first_name" := PNone]> bob) st) = inl TypeError.
Proof. rewrite pass_json_result. reflexivity. Qed.

(** ** C5: the secondary field *)

(** Without an [infra_email] key the secondary field is the placeholder. *)
Lemma secondary_field_placeholder E user_data st m :
  user_data !! "infra_email" = None →
  fst (pass_json E user_data st) = inr m →
  py_path m secondary_value = Some (PStr "Not Provisioned").
Proof.
  intros Hnone (discord & name & _ & ->)%pass_json_inr.
  assert (dict_get user_data "infra_email" (PStr "Not Provisioned")
          = PStr "Not Provisioned") as ->
    by (unfold dict_get; by rewrite Hnone).
  apply manifest_fields.
Qed.

(** C5 (fails on the code): [bob] has an empty [infra_email]; the secondary
    field of his manifest is that empty string, not the placeholder, which
    only replaces a key that is absent. *)
Theorem empty_infra_email_not_replaced (E : Env) (st : State) :
  ∃ m,
    fst (pass_json E bob st) = inr m ∧
    py_path m secondary_value = Some (PStr "") ∧
    py_path m secondary_value ≠ Some (PStr "Not Provisioned") ∧
    ∀ depth p st',
      apple_wallet E depth bob st = (inr p, st') →
      entry p "pass.json" = Some (json_dumps_utf8 E m).
Proof.
  assert (Hm := pass_json_ok E bob st ∅ "Bob" "" eq_refl
                  (or_introl eq_refl) (or_introl eq_refl)).
  eexists. split; [exact Hm|].
  split; [reflexivity|]. split; [discriminate|].
  intros depth p st' H.
  apply apple_wallet_run, wallet_run_static_entries in H
    as (_ & _ & _ & _ & m & Hm' & Hpj).
  rewrite Hm in Hm'. injection Hm' as <-. exact Hpj.
Qed.

(** ** C3: the barcode *)

(** C3 as amended: the barcode of a returned pass is a QR descriptor whose
    message is the [id] of the profile (the text [Unknown_ID] when the
    profile has none) and whose alt-text is the Discord user name when the
    Discord record has one and [None] otherwise. *)
Theorem barcode_of_pass E depth user_data st p st' :
  apple_wallet E depth user_data st = (inr p, st') →
  ∃ m discord,
    fst (pass_json E user_data st) = inr m ∧
    entry p "pass.json" = Some (json_dumps_utf8 E m) ∧
    discord_record user_data discord ∧
    py_path m barcode_format = Some (PStr "PKBarcodeFormatQR") ∧
    py_path m barcode_message
    = Some (dict_get user_data "id" (PStr "Unknown_ID")) ∧
    py_path m barcode_alt_text = Some (dict_get discord "username" PNone).
Proof.
  intros H.
  apply apple_wallet_run, wallet_run_static_entries in H
    as (_ & _ & _ & _ & m & Hm & Hpj).
  destruct (pass_json_inr _ _ _ _ Hm) as (discord & name & Hd & Heq).
  exists m, discord. repeat (split; [assumption|]).
  subst m. apply manifest_barcode.
Qed.

Lemma barcode_of_pass_witness :
  ∃ p st' m,
    apple_wallet env_up 1 ada st0 = (inr p, st') ∧
    fst (pass_json env_up ada st0) = inr m ∧
    py_path m barcode_message = Some (PStr "6a1f") ∧
    py_path m barcode_alt_text = Some (PStr "ada").
Proof.
  eexists _, _.
  match goal with |- ∃ m, ?R ∧ _ =>
    assert (H : R) by (vm_compute; reflexivity)
  end.
  destruct (barcode_of_pass env_up 1 ada st0 _ _ H)
    as (m & discord & Hm & _ & Hd & _ & Hmsg & Halt).
  exists m. split; [exact H|]. split; [exact Hm|].
  vm_compute in Hd. injection Hd as <-.
  split; [exact Hmsg|exact Halt].
Defined.

(** C3 as stated fails: [bob] has no Discord user name, and the alt-text of
    his barcode is [None], not a placeholder string. *)
Lemma alt_text_placeholder_counterexample :
  ∃ p st' m,
    apple_wallet env_up 1 bob st0 = (inr p, st') ∧
    fst (pass_json env_up bob st0) = inr m ∧
    entry p "pass.json" = Some (json_dumps_utf8 env_up m) ∧
    py_path m barcode_alt_text = Some PNone ∧
    ¬ ∃ s, py_path m barcode_alt_text = Some (PStr s).
Proof.
  pose proof (pass_json_ok env_up bob st0 ∅ "Bob" "") as Hm.
  eexists _, _, _.
  split; [vm_compute; reflexivity|].
  split; [apply Hm; [vm_compute; reflexivity|left; vm_compute; reflexivity..]|].
  split; [reflexivity|].
  split; [reflexivity|].
  intros (s & Hs). discriminate Hs.
Qed.

(** ** C6: the thumbnails *)

Lemma wallet_run_thumbnails E depth user_data st p st' :
  wallet_run E depth user_data st p st' →
  ∃ discord thumbs s0 s1,
    discord_record user_data discord ∧
    http_log s0 = http_log st ∧ http_log st' = http_log s1 ∧
    thumbnails E depth (dict_get discord "avatar" (PBool false)) s0 thumbs s1 ∧
    names p = (["icon.png"; "icon@2x.png"] ++ map fst thumbs ++
               ["logo@2x.png"; "logo.png"; "pass.json"])%list ∧
    entry p "thumbnail.png" = assoc "thumbnail.png" thumbs ∧
    entry p "thumbnail@2x.png" = assoc "thumbnail@2x.png" thumbs.
Proof.
  intros []. exists discord, thumbs. eexists _, _.
  split; [exact Hdiscord|]. split; [|split; [|split; [exact Hthumbs|]]].
  - reflexivity.
  - by subst st'.
  - unfold names, entry. rewrite Hpackage.
    apply thumbnails_cases in Hthumbs
      as [(_ & -> & _)|(_ & b1 & st1 & b2 & _ & _ & ->)]; done.
Qed.

(** C6 as amended: a pass returned for a profile without avatar URL has no
    thumbnail entry and no request was made; a pass returned for a profile
    with one has exactly the two thumbnail entries, the first holding the
    result of one call of [get_img] and the second the result of a second
    call made after it.  The two are the same bytes when the avatar URL is
    answered the same way, with a status below 400, every time. *)
Theorem thumbnails_of_pass E depth user_data st p st' :
  apple_wallet E depth user_data st = (inr p, st') →
  ∃ discord,
    discord_record user_data discord ∧
    let img := dict_get discord "avatar" (PBool false) in
    (truthy img = false →
       names p = ["icon.png"; "icon@2x.png"; "logo@2x.png"; "logo.png";
                  "pass.json"] ∧
       entry p "thumbnail.png" = None ∧ entry p "thumbnail@2x.png" = None ∧
       http_log st' = http_log st) ∧
    (truthy img = true →
       ∃ b1 b2 s0 s1 s2,
         names p = ["icon.png"; "icon@2x.png"; "thumbnail.png";
                    "thumbnail@2x.png"; "logo@2x.png"; "logo.png";
                    "pass.json"] ∧
         entry p "thumbnail.png" = Some b1 ∧
         entry p "thumbnail@2x.png" = Some b2 ∧
         http_log s0 = http_log st ∧
         get_img E depth img s0 = (inr b1, s1) ∧
         get_img E depth img s1 = (inr b2, s2) ∧
         http_log st' = http_log s2 ∧
         ∀ u resp,
           img = PStr u → (∀ i, http E i u = Some resp) →
           (status_code resp < 400)%Z →
           b1 = raw resp ∧ b2 = raw resp).
Proof.
  intros H. apply apple_wallet_run, wallet_run_thumbnails in H
    as (discord & thumbs & s0 & s1 & Hd & Hs0 & Hs1 & Hth & Hn & He1 & He2).
  exists discord. split; [exact Hd|]. cbv zeta.
  apply thumbnails_cases in Hth
    as [(Hf & -> & ->)|(Ht & b1 & sm & b2 & Hg1 & Hg2 & ->)].
  - split; [|intros Ht; congruence].
    intros _. rewrite Hn, He1, He2, Hs1, Hs0. done.
  - split; [intros Hf; congruence|].
    intros _. exists b1, b2, s0, sm, s1.
    rewrite Hn, He1, He2. repeat (split; [done|]).
    intros u resp Hu Hstable Hstatus.
    destruct depth as [|depth]; [discriminate|].
    rewrite Hu in Hg1, Hg2.
    rewrite (get_img_ok E depth u s0 resp (Hstable _) Hstatus) in Hg1.
    rewrite (get_img_ok E depth u sm resp (Hstable _) Hstatus) in Hg2.
    injection Hg1 as <- _. injection Hg2 as <- _. done.
Qed.

Lemma thumbnails_of_pass_witness :
  ∃ p st',
    apple_wallet env_up 1 ada st0 = (inr p, st') ∧
    entry p "thumbnail.png" = Some (list_byte_of_string avatar_url) ∧
    entry p "thumbnail@2x.png" = Some (list_byte_of_string avatar_url).
Proof.
  eexists _, _.
  match goal with |- ?R ∧ _ =>
    assert (H : R) by (vm_compute; reflexivity)
  end.
  split; [exact H|].
  destruct (thumbnails_of_pass env_up 1 ada st0 _ _ H) as (discord & Hd & _ & Ht).
  vm_compute in Hd. injection Hd as <-.
  destruct (Ht eq_refl)
    as (b1 & b2 & s0 & s1 & s2 & _ & He1 & He2 & _ & _ & _ & _ & Hsame).
  destruct (Hsame avatar_url
              {| status_code := 200; raw := list_byte_of_string avatar_url |}
              eq_refl (fun _ => eq_refl) eq_refl) as [Hb1 Hb2].
  rewrite He1, He2, Hb1, Hb2. split; reflexivity.
Defined.

(** C6 as stated fails: the avatar URL of [ada] answers every request with
    status 200, the body changing between requests; [apple_wallet] fetches
    it twice and the two thumbnail entries differ. *)
Lemma thumbnails_differ_counterexample :
  ∃ p st',
    apple_wallet env_changing 1 ada st0 = (inr p, st') ∧
    (∀ i, ∃ resp, http env_changing i avatar_url = Some resp ∧
                  (status_code resp < 400)%Z) ∧
    http_log st' = [avatar_url; avatar_url] ∧
    is_Some (entry p "thumbnail.png") ∧
    is_Some (entry p "thumbnail@2x.png") ∧
    entry p "thumbnail.png" ≠ entry p "thumbnail@2x.png".
Proof.
  eexists _, _.
  split; [vm_compute; reflexivity|].
  split; [intros i; eexists; split; [reflexivity|done]|].
  split; [reflexivity|].
  split; [by eexists|]. split; [by eexists|].
  discriminate.
Qed.

(** ** C2: two profiles that differ only in [id] *)

Lemma differ_only_in_id_get ud1 ud2 k dflt :
  differ_only_in_id ud1 ud2 → k ≠ "id" →
  dict_get ud1 k dflt = dict_get ud2 k dflt.
Proof.
  intros [Hdel _] Hk. unfold dict_get.
  rewrite <- (lookup_delete_ne ud1 "id" k), Hdel, lookup_delete_ne; done.
Qed.

Lemma assoc_snoc_ne name l k data :
  name ≠ k → assoc name (l ++ [(k, data)]) = assoc name l.
Proof.
  intros Hne. induction l as [|[n d] l IH]; simpl.
  - destruct (String.eqb_spec k name); [congruence|done].
  - by rewrite IH.
Qed.

Lemma thumbnails_deterministic E depth img st t1 s1 t2 s2 :
  thumbnails E depth img st t1 s1 → thumbnails E depth img st t2 s2 → t1 = t2.
Proof.
  unfold thumbnails. destruct (truthy img).
  - intros (b1 & sa & b2 & Ha & Hb & ->) (b1' & sa' & b2' & Ha' & Hb' & ->).
    rewrite Ha in Ha'. injection Ha' as <- <-.
    rewrite Hb in Hb'. by injection Hb' as <- _.
  - by intros [-> _] [-> _].
Qed.

Lemma thumbnails_names E depth img st1 t1 s1 st2 t2 s2 :
  thumbnails E depth img st1 t1 s1 → thumbnails E depth img st2 t2 s2 →
  map fst t1 = map fst t2.
Proof.
  unfold thumbnails. destruct (truthy img).
  - by intros (? & ? & ? & _ & _ & ->) (? & ? & ? & _ & _ & ->).
  - by intros [-> _] [-> _].
Qed.

(** C2 as amended: for two profiles that both carry an [id] and differ in
    it alone, the two passes returned have different barcode payloads,
    namely the two ids; their manifests are one and the same literal but for
    the payload and the serial number, which is drawn anew at every
    invocation; their entries bear the same names, and the icon and logo
    entries are the same bytes.  Built from the same state of the
    environment, the two passes are the same in every entry other than
    [pass.json], thumbnails included, and in the serial number as well. *)
Theorem passes_differing_in_id E depth ud1 ud2 st1 st2 p1 p2 st1' st2' :
  differ_only_in_id ud1 ud2 →
  is_Some (ud1 !! "id") → is_Some (ud2 !! "id") →
  apple_wallet E depth ud1 st1 = (inr p1, st1') →
  apple_wallet E depth ud2 st2 = (inr p2, st2') →
  ∃ id1 id2 altText name infra,
    ud1 !! "id" = Some id1 ∧ ud2 !! "id" = Some id2 ∧ id1 ≠ id2 ∧
    let m1 := pass_json_dict (str_uuid (uuid_source E (uuid_ctr st1)))
                id1 altText name infra in
    let m2 := pass_json_dict (str_uuid (uuid_source E (uuid_ctr st2)))
                id2 altText name infra in
    fst (pass_json E ud1 st1) = inr m1 ∧
    fst (pass_json E ud2 st2) = inr m2 ∧
    entry p1 "pass.json" = Some (json_dumps_utf8 E m1) ∧
    entry p2 "pass.json" = Some (json_dumps_utf8 E m2) ∧
    py_path m1 barcode_message = Some id1 ∧
    py_path m2 barcode_message = Some id2 ∧
    names p1 = names p2 ∧
    (∀ n, n ∈ ["icon.png"; "icon@2x.png"; "logo@2x.png"; "logo.png"] →
          entry p1 n = entry p2 n) ∧
    (st1 = st2 → ∀ n, n ≠ "pass.json" → entry p1 n = entry p2 n).
Proof.
  intros Hdiff [id1 Hid1] [id2 Hid2] H1 H2.
  assert (Hne : id1 ≠ id2).
  { intros ->. destruct Hdiff as [_ Hd]. apply Hd. by rewrite Hid1, Hid2. }
  apply apple_wallet_run in H1, H2.
  destruct (wallet_run_static_entries _ _ _ _ _ _ H1)
    as (Hi & Hi2 & Hl2 & Hl & m1 & Hm1 & Hp1).
  destruct (wallet_run_static_entries _ _ _ _ _ _ H2)
    as (Hi' & Hi2' & Hl2' & Hl' & m2 & Hm2 & Hp2).
  assert (Hlogo : logo_files ud1 = logo_files ud2).
  { unfold logo_files.
    by rewrite (differ_only_in_id_get ud1 ud2 "ops_email" _ Hdiff). }
  pose proof Hm1 as Hm1'. pose proof Hm2 as Hm2'.
  rewrite pass_json_result in Hm1, Hm2.
  rewrite <- (differ_only_in_id_get ud1 ud2 "discord" _ Hdiff),
    <- (differ_only_in_id_get ud1 ud2 "first_name" _ Hdiff),
    <- (differ_only_in_id_get ud1 ud2 "surname" _ Hdiff),
    <- (differ_only_in_id_get ud1 ud2 "infra_email" _ Hdiff) in Hm2 by done.
  destruct (py_get _ "username" PNone) as [e|altText]; [done|].
  destruct (add_str_right _ " ") as [e|name0]; [done|].
  destruct (add_str_left name0 _) as [e|name]; [done|].
  assert (Hg1 : dict_get ud1 "id" (PStr "Unknown_ID") = id1)
    by (unfold dict_get; by rewrite Hid1).
  assert (Hg2 : dict_get ud2 "id" (PStr "Unknown_ID") = id2)
    by (unfold dict_get; by rewrite Hid2).
  rewrite Hg1 in Hm1. rewrite Hg2 in Hm2.
  injection Hm1 as <-. injection Hm2 as <-.
  exists id1, id2, altText, name,
    (dict_get ud1 "infra_email" (PStr "Not Provisioned")).
  do 3 (split; [done|]). cbv zeta.
  do 4 (split; [done|]).
  split; [apply manifest_barcode|]. split; [apply manifest_barcode|].
  destruct H1 as [ic ic2 ma d1 t1 si1 lg2 lg k c sg Hic Hic2 _ Hd1 Ht1 Hlg2 Hlg
                    _ _ Hpk1 _ _ _].
  destruct H2 as [ic' ic2' mb d2 t2 si2 lg2' lg' k' c' sg' Hic' Hic2' _ Hd2 Ht2
                    Hlg2' Hlg' _ _ Hpk2 _ _ _].
  rewrite <- (differ_only_in_id_get ud1 ud2 "discord" _ Hdiff) in Hd2 by done.
  rewrite Hd1 in Hd2. injection Hd2 as <-.
  rewrite <- Hlogo in Hlg2', Hlg'.
  rewrite Hic in Hic'. injection Hic' as <-.
  rewrite Hic2 in Hic2'. injection Hic2' as <-.
  rewrite Hlg2 in Hlg2'. injection Hlg2' as <-.
  rewrite Hlg in Hlg'. injection Hlg' as <-.
  split; [|split].
  - unfold names. rewrite Hpk1, Hpk2, !map_app.
    by rewrite (thumbnails_names _ _ _ _ _ _ _ _ _ Ht1 Ht2).
  - intros n Hn. rewrite !elem_of_cons in Hn.
    destruct Hn as [->|[->|[->|[->|Hn]]]];
      [congruence..|by apply elem_of_nil in Hn].
  - intros <- n Hn. unfold entry. rewrite Hpk1, Hpk2.
    rewrite (thumbnails_deterministic _ _ _ _ _ _ _ _ Ht2 Ht1).
    change [("logo@2x.png", lg2); ("logo.png", lg);
            ("pass.json", json_dumps_utf8 E ma)]
      with ([("logo@2x.png", lg2); ("logo.png", lg)]
            ++ [("pass.json", json_dumps_utf8 E ma)])%list.
    change [("logo@2x.png", lg2); ("logo.png", lg);
            ("pass.json", json_dumps_utf8 E mb)]
      with ([("logo@2x.png", lg2); ("logo.png", lg)]
            ++ [("pass.json", json_dumps_utf8 E mb)])%list.
    rewrite !app_assoc. by rewrite !assoc_snoc_ne.
Qed.


Lemma bob_bob'_differ_only_in_id : differ_only_in_id bob bob'.
Proof.
  split; [|vm_compute; discriminate].
  apply map_eq. intros k. unfold bob'.
  destruct (decide (k = "id")) as [->|Hk].
  - by rewrite !lookup_delete_eq.
  - by rewrite !lookup_delete_ne, lookup_insert_ne.
Qed.

Lemma passes_differing_in_id_witness :
  ∃ p1 s1 p2 s2,
    apple_wallet env_up 1 bob st0 = (inr p1, s1) ∧
    apple_wallet env_up 1 bob' st0 = (inr p2, s2) ∧
    names p1 = names p2 ∧
    entry p1 "logo.png" = entry p2 "logo.png".
Proof.
  eexists _, _, _, _.
  match goal with |- ?R1 ∧ ?R2 ∧ _ =>
    assert (H1 : R1) by (vm_compute; reflexivity);
    assert (H2 : R2) by (vm_compute; reflexivity)
  end.
  split; [exact H1|]. split; [exact H2|].
  destruct (passes_differing_in_id env_up 1 bob bob' st0 st0 _ _ _ _
              bob_bob'_differ_only_in_id
              ltac:(eexists; vm_compute; reflexivity)
              ltac:(eexists; vm_compute; reflexivity) H1 H2)
    as (id1 & id2 & alt & name & infra & _ & _ & _ & _ & _ & _ & _ & _ & _
        & Hnames & Hstatic & _).
  split; [exact Hnames|]. apply Hstatic.
  do 3 apply list_elem_of_further. apply list_elem_of_here.
Defined.

(** C2 as stated fails: [bob] and [bob'] differ only in [id]; the pass
    built for the one and then the pass built for the other differ in the
    serial number as well as in the barcode payload. *)
Lemma passes_differ_in_serial_counterexample :
  differ_only_in_id bob bob' ∧
  ∃ p1 s1 p2 s2 m1 m2,
    apple_wallet env_up 1 bob st0 = (inr p1, s1) ∧
    apple_wallet env_up 1 bob' s1 = (inr p2, s2) ∧
    fst (pass_json env_up bob st0) = inr m1 ∧
    fst (pass_json env_up bob' s1) = inr m2 ∧
    entry p1 "pass.json" = Some (json_dumps_utf8 env_up m1) ∧
    entry p2 "pass.json" = Some (json_dumps_utf8 env_up m2) ∧
    py_path m1 serial_number
    = Some (PStr "00000000-0000-0000-0000-000000000000") ∧
    py_path m2 serial_number
    = Some (PStr "00000000-0000-0000-0000-000000000001").
Proof.
  split; [exact bob_bob'_differ_only_in_id|].
  eexists _, _, _, _, _, _.
  split; [vm_compute; reflexivity|].
  split; [vm_compute; reflexivity|].
  split; [apply (pass_json_ok env_up bob _ ∅ "Bob" "");
          [vm_compute; reflexivity|left; vm_compute; reflexivity..]|].
  split; [apply (pass_json_ok env_up bob' _ ∅ "Bob" "");
          [vm_compute; reflexivity|left; vm_compute; reflexivity..]|].
  split; [reflexivity|]. split; [reflexivity|].
  split; reflexivity.
Qed.

(** * Further properties of [get_img] and [apple_wallet] *)

(** ** The calls of [requests.get] by [get_img] *)

Lemma requests_get_log E url st r st' :
  requests_get E url st = (r, st') →
  (∃ u, url = PStr u ∧ st' = log_request u st) ∨
  ((∀ u, url ≠ PStr u) ∧ st' = st ∧ r = inl RequestException).
Proof.
  unfold requests_get, raise.
  destruct url as [| | | |u| |];
    try (intros [= <- <-]; right; by repeat split).
  destruct (http E _ u); intros [= _ <-]; left; by exists u.
Qed.

(** Whatever its outcome, [get_img] calls [requests.get] with the URL it
    was given at most once and after that with the fallback URL only, calls
    it no more often than it has frames, opens no file and draws no UUID.
    (What the library sends for one call, a redirect followed say, is the
    library's affair and is not counted here.) *)
Theorem get_img_request_discipline E depth : ∀ u st r st',
  get_img E depth (PStr u) st = (r, st') →
  ∃ n, (n ≤ depth)%nat ∧
    http_log st' = (http_log st ++ take n (u :: repeat fallback_url depth))%list ∧
    uuid_ctr st' = uuid_ctr st ∧ fs_log st' = fs_log st.
Proof.
  induction depth as [|depth IH]; intros u st r st' H.
  - simpl in H. unfold raise in H. injection H as _ <-.
    exists 0%nat. by rewrite take_0, app_nil_r.
  - pose proof (get_img_state _ _ _ _ _ _ H) as [Hu Hf].
    cbn [get_img] in H. unfold bind in H.
    destruct (requests_get E (PStr u) st) as [[e|resp] st1] eqn:Hreq;
      apply requests_get_log in Hreq as [(u' & [= <-] & ->)|(Hne & _)];
      try (by destruct (Hne u)).
    + injection H as _ <-. exists 1%nat. repeat split; [lia|done..].
    + destruct (status_code resp <? 400)%Z.
      * unfold ret in H. injection H as _ <-.
        exists 1%nat. repeat split; [lia|done..].
      * apply IH in H as (n & Hn & Hlog & _ & _).
        destruct n as [|n].
        -- exists 1%nat. rewrite take_0, app_nil_r in Hlog.
           repeat split; [lia|by rewrite Hlog|done..].
        -- exists (S (S n)). repeat split; [lia| |done..].
           rewrite Hlog. simpl. rewrite <- app_assoc. simpl.
           by do 3 f_equal.
Qed.

Lemma get_img_request_discipline_witness :
  ∃ n, (n ≤ 3)%nat ∧
    http_log (snd (get_img env_down 3 (PStr avatar_url) st0))
    = take n (avatar_url :: repeat fallback_url 3).
Proof.
  destruct (get_img_request_discipline env_down 3 avatar_url st0
              (fst (get_img env_down 3 (PStr avatar_url) st0))
              (snd (get_img env_down 3 (PStr avatar_url) st0)))
    as (n & Hn & Hlog & _).
  - vm_compute. reflexivity.
  - exists n. split; [exact Hn|exact Hlog].
Defined.

(** What [get_img] returns is the body of the response that its last call
    of [requests.get] handed back, and that response had a status below
    400; that call was passed the URL given or the fallback URL. *)
Theorem get_img_returns_successful_body E depth : ∀ u st b st',
  get_img E depth (PStr u) st = (inr b, st') →
  ∃ v resp,
    (v = u ∨ v = fallback_url) ∧
    last (http_log st') = Some v ∧
    http E (length (http_log st') - 1) v = Some resp ∧
    (status_code resp < 400)%Z ∧
    b = raw resp.
Proof.
  induction depth as [|depth IH]; intros u st b st' H; [discriminate|].
  cbn [get_img] in H. unfold bind, requests_get in H.
  destruct (http E (length (http_log st)) u) as [resp|] eqn:Hresp;
    [|discriminate].
  destruct (Z.ltb_spec (status_code resp) 400) as [Hlt|Hge].
  - unfold ret in H. injection H as <- <-.
    exists u, resp. split; [by left|]. simpl.
    rewrite last_snoc, length_app. simpl.
    replace (length (http_log st) + 1 - 1)%nat with (length (http_log st)) by lia.
    done.
  - apply IH in H as (v & resp' & Hv & Hlast & Hhttp & Hst & ->).
    exists v, resp'. split; [right; by destruct Hv|done].
Qed.

Lemma get_img_returns_successful_body_witness :
  ∃ b st',
    get_img env_up 1 (PStr avatar_url) st0 = (inr b, st') ∧
    b = list_byte_of_string avatar_url.
Proof.
  eexists _, _.
  match goal with |- ?R ∧ _ => assert (H : R) by (vm_compute; reflexivity) end.
  split; [exact H|].
  destruct (get_img_returns_successful_body env_up 1 avatar_url st0 _ _ H)
    as (v & resp & [-> | ->] & _ & Hhttp & _ & Hb);
    injection Hhttp as <-; [exact Hb|].
  vm_compute. reflexivity.
Defined.

(** A transport error is not covered by the fallback: when a request
    cannot be made, be it the first one or the one to the fallback URL
    after a failure status, [get_img] ends in the exception of [requests]
    there, with no further request. *)
Theorem get_img_transport_error E depth u st :
  http E (length (http_log st)) u = None ∨
  (∃ resp,
     http E (length (http_log st)) u = Some resp ∧
     (400 ≤ status_code resp)%Z ∧
     http E (S (length (http_log st))) fallback_url = None) →
  ∃ st',
    get_img E (S (S depth)) (PStr u) st = (inl RequestException, st') ∧
    (http E (length (http_log st)) u = None → st' = log_request u st) ∧
    (http E (length (http_log st)) u ≠ None →
     st' = log_request fallback_url (log_request u st)).
Proof.
  assert (Hdirect : ∀ d v s,
    http E (length (http_log s)) v = None →
    get_img E (S d) (PStr v) s = (inl RequestException, log_request v s)).
  { intros d v s Hnone. cbn [get_img]. unfold bind, requests_get.
    by rewrite Hnone. }
  intros [Hnone|(resp & Hresp & Hge & Hnone)].
  - exists (log_request u st). split; [by apply Hdirect|]. by split.
  - exists (log_request fallback_url (log_request u st)). split.
    + rewrite (get_img_fallback _ _ _ _ _ Hresp Hge).
      apply Hdirect. simpl. rewrite length_app. simpl.
      by rewrite Nat.add_1_r.
    + split; [|done]. intros H'. by rewrite H' in Hresp.
Qed.

Lemma get_img_transport_error_witness :
  ∃ st',
    get_img
      {| fs := fs env_up;
         http := fun i _ =>
           match i with
           | O => Some {| status_code := 404; raw := [] |}
           | S _ => None
           end;
         uuid_source := uuid_source env_up;
         json_dumps_utf8 := json_dumps_utf8 env_up;
         pk_sign := pk_sign env_up; pk_bytes := pk_bytes env_up |}
      2 (PStr avatar_url) st0 = (inl RequestException, st') ∧
    http_log st' = [avatar_url; fallback_url].
Proof.
  destruct (get_img_transport_error
              {| fs := fs env_up;
                 http := fun i _ =>
                   match i with
                   | O => Some {| status_code := 404; raw := [] |}
                   | S _ => None
                   end;
                 uuid_source := uuid_source env_up;
                 json_dumps_utf8 := json_dumps_utf8 env_up;
                 pk_sign := pk_sign env_up; pk_bytes := pk_bytes env_up |}
              0 avatar_url st0)
    as (st' & Hrun & _ & Hlog).
  - right. exists {| status_code := 404; raw := [] |}.
    split; [reflexivity|]. split; [vm_compute; discriminate|reflexivity].
  - exists st'. split; [exact Hrun|].
    rewrite Hlog; [reflexivity|discriminate].
Defined.

(** ** When [apple_wallet] returns, and with what *)





(** ** How [apple_wallet] fails *)

Lemma uuid4_ok E st :
  uuid4 E st = (inr (uuid_source E (uuid_ctr st)), log_draw st).
Proof. reflexivity. Qed.



(** An asset that can be read and is empty is refused by the package: with
    an empty [icon.png], or a good [icon.png] and an empty [icon@2x.png],
    [apple_wallet] ends in [AssertionError] right after reading that
    file, before a UUID is drawn. *)
Lemma apple_wallet_empty_icon E depth user_data st :
  fs E (static_path "icon.png") = Some [] ∨
  (∃ icon, fs E (static_path "icon.png") = Some icon ∧ icon ≠ [] ∧
           fs E (static_path "icon@2x.png") = Some []) →
  ∃ st',
    apple_wallet E depth user_data st = (inl AssertionError, st') ∧
    uuid_ctr st' = uuid_ctr st ∧ http_log st' = http_log st.
Proof.
  intros [Hicon|(icon & Hicon & Hne & Hicon2)]; unfold apple_wallet; cbv zeta.
  - rewrite (bind_ok _ _ _ _ _ (read_file_ok E _ st _ Hicon)).
    rewrite add_to_pass_package_empty. by eexists.
  - rewrite (bind_ok _ _ _ _ _ (read_file_ok E _ st _ Hicon)).
    rewrite add_to_pass_package_ok by done.
    rewrite (bind_ok _ _ _ _ _ (read_file_ok E _ _ _ Hicon2)).
    rewrite add_to_pass_package_empty. by eexists.
Qed.

(** A [discord] field that is present and is not a record ([None] for a
    member without Discord account, say) makes [apple_wallet] end in
    [AttributeError]: only an absent key gets the empty record.  Both icons
    have been read and stored (neither is empty) and a UUID has been drawn
    by then. *)
Theorem apple_wallet_discord_not_record E depth user_data st v icon icon2 :
  user_data !! "discord" = Some v →
  (∀ d, v ≠ PDict d) →
  fs E (static_path "icon.png") = Some icon → icon ≠ [] →
  fs E (static_path "icon@2x.png") = Some icon2 → icon2 ≠ [] →
  apple_wallet E depth user_data st
  = (inl AttributeError,
     log_draw (log_open (static_path "icon@2x.png")
                 (log_open (static_path "icon.png") st))).
Proof.
  intros Hv Hnd Hicon Hne Hicon2 Hne2. unfold apple_wallet. cbv zeta.
  rewrite (bind_ok _ _ _ _ _ (read_file_ok E _ st _ Hicon)).
  rewrite add_to_pass_package_ok by done.
  rewrite (bind_ok _ _ _ _ _ (read_file_ok E _ _ _ Hicon2)).
  rewrite add_to_pass_package_ok by done.
  apply bind_raise. unfold pass_json.
  rewrite (bind_ok _ _ _ _ _ (uuid4_ok E _)).
  apply bind_raise.
  assert (dict_get user_data "discord" (PDict ∅) = v) as ->
    by (unfold dict_get; by rewrite Hv).
  destruct v; try reflexivity. by destruct (Hnd d).
Qed.

Lemma apple_wallet_discord_not_record_witness :
  fst (apple_wallet env_up 1 (<["discord" := PNone]> ada) st0) = inl AttributeError.
Proof.
  assert (H : (<["discord" := PNone]> ada) !! "discord" = Some PNone)
    by (vm_compute; reflexivity).
  assert (Hn : ∀ d, PNone ≠ PDict d) by discriminate.
  assert (Hne : list_byte_of_string (static_path "icon.png") ≠ [])
    by discriminate.
  assert (Hne2 : list_byte_of_string (static_path "icon@2x.png") ≠ [])
    by discriminate.
  rewrite (apple_wallet_discord_not_record env_up 1 (<["discord" := PNone]> ada)
             st0 PNone _ _ H Hn eq_refl Hne eq_refl Hne2).
  reflexivity.
Defined.

(** A name component that is present and is not a string ([None], say)
    makes [apple_wallet] end in [TypeError], both icons read and stored
    (neither is empty) and a UUID drawn. *)
Theorem apple_wallet_name_not_str E depth user_data st discord v icon icon2 :
  discord_record user_data discord →
  (user_data !! "first_name" = Some v ∨
   (∃ first, name_field user_data "first_name" first) ∧
   user_data !! "surname" = Some v) →
  (∀ s, v ≠ PStr s) →
  fs E (static_path "icon.png") = Some icon → icon ≠ [] →
  fs E (static_path "icon@2x.png") = Some icon2 → icon2 ≠ [] →
  apple_wallet E depth user_data st
  = (inl TypeError,
     log_draw (log_open (static_path "icon@2x.png")
                 (log_open (static_path "icon.png") st))).
Proof.
  intros Hd Hv Hns Hicon Hne Hicon2 Hne2. unfold apple_wallet. cbv zeta.
  rewrite (bind_ok _ _ _ _ _ (read_file_ok E _ st _ Hicon)).
  rewrite add_to_pass_package_ok by done.
  rewrite (bind_ok _ _ _ _ _ (read_file_ok E _ _ _ Hicon2)).
  rewrite add_to_pass_package_ok by done.
  apply bind_raise. unfold pass_json.
  rewrite (bind_ok _ _ _ _ _ (uuid4_ok E _)).
  unfold discord_record in Hd. rewrite Hd. cbn [py_get lift].
  rewrite bind_ret.
  destruct Hv as [Hfirst|[[first Hfirst] Hsur]].
  - apply bind_raise.
    assert (dict_get user_data "first_name" (PStr "") = v) as ->
      by (unfold dict_get; by rewrite Hfirst).
    destruct v; try reflexivity. by destruct (Hns s).
  - rewrite (name_field_get _ _ _ Hfirst). cbn [add_str_right lift].
    rewrite bind_ret. apply bind_raise.
    assert (dict_get user_data "surname" (PStr "") = v) as ->
      by (unfold dict_get; by rewrite Hsur).
    destruct v; try reflexivity. by destruct (Hns s).
Qed.

Lemma apple_wallet_name_not_str_witness :
  fst (apple_wallet env_up 1 (<["surname" := PNone]> bob) st0) = inl TypeError.
Proof.
  assert (Hd : discord_record (<["surname" := PNone]> bob) ∅)
    by (vm_compute; reflexivity).
  assert (Hv : (<["surname" := PNone]> bob) !! "first_name" = Some PNone ∨
               (∃ first, name_field (<["surname" := PNone]> bob) "first_name" first) ∧
               (<["surname" := PNone]> bob) !! "surname" = Some PNone).
  { right. split; [exists "Bob"; left|]; vm_compute; reflexivity. }
  assert (Hn : ∀ s, PNone ≠ PStr s) by discriminate.
  assert (Hne : list_byte_of_string (static_path "icon.png") ≠ [])
    by discriminate.
  assert (Hne2 : list_byte_of_string (static_path "icon@2x.png") ≠ [])
    by discriminate.
  rewrite (apple_wallet_name_not_str env_up 1 (<["surname" := PNone]> bob)
             st0 ∅ PNone _ _ Hd Hv Hn eq_refl Hne eq_refl Hne2).
  reflexivity.
Defined.

(** ** What [apple_wallet] reads and whom it contacts *)

(** [apple_wallet] reads six keys of the profile and no other: two
    profiles that agree on them get the same result in the same state,
    whatever else they hold. *)
Theorem apple_wallet_reads_six_keys E depth ud1 ud2 st :
  (∀ k, k ∈ ["ops_email"; "id"; "discord"; "first_name"; "surname";
              "infra_email"] → ud1 !! k = ud2 !! k) →
  apple_wallet E depth ud1 st = apple_wallet E depth ud2 st.
Proof.
  intros Hkeys.
  assert (Hg : ∀ k dflt,
    k ∈ ["ops_email"; "id"; "discord"; "first_name"; "surname"; "infra_email"] →
    dict_get ud1 k dflt = dict_get ud2 k dflt).
  { intros k dflt Hk. unfold dict_get. by rewrite (Hkeys k Hk). }
  unfold apple_wallet, pass_json.
  rewrite (Hg "ops_email"), (Hg "id"), !(Hg "discord"), (Hg "first_name"),
    (Hg "surname"), (Hg "infra_email")
    by (repeat first [apply list_elem_of_here | apply list_elem_of_further]).
  reflexivity.
Qed.

Lemma apple_wallet_reads_six_keys_witness :
  apple_wallet env_up 1 (<["nid" := PStr "ab123456"]> ada) st0
  = apple_wallet env_up 1 ada st0.
Proof.
  apply apple_wallet_reads_six_keys.
  intros k Hk. apply lookup_insert_ne. intros <-.
  repeat (apply elem_of_cons in Hk as [Hk|Hk]; [discriminate|]).
  by apply elem_of_nil in Hk.
Defined.

Lemma get_img_inr_log E depth : ∀ url st b st',
  get_img E depth url st = (inr b, st') →
  ∃ u reqs,
    url = PStr u ∧ http_log st' = (http_log st ++ reqs)%list ∧
    (length reqs ≤ depth)%nat ∧
    Forall (fun v => v = u ∨ v = fallback_url) reqs.
Proof.
  induction depth as [|depth IH]; intros url st b st' H; [discriminate|].
  cbn [get_img] in H. unfold bind in H.
  destruct (requests_get E url st) as [[e|resp] st1] eqn:Hreq; [discriminate|].
  apply requests_get_log in Hreq as [(u & -> & ->)|(_ & _ & [=])].
  exists u. destruct (status_code resp <? 400)%Z.
  - unfold ret in H. injection H as _ <-. exists [u].
    repeat split; [simpl; lia|]. constructor; [by left|constructor].
  - apply IH in H as (v & reqs & [= <-] & Hlog & Hlen & Hall).
    exists (u :: reqs). split; [done|]. split.
    { rewrite Hlog. simpl. by rewrite <- app_assoc. }
    split; [simpl; lia|]. constructor; [by left|].
    eapply Forall_impl; [exact Hall|]. intros w [-> | ->]; by right.
Qed.

(** A run that returns a pass has called [requests.get] at most twice per
    frame allowed to [get_img], each time with the avatar URL of the
    profile or with the fallback URL. *)
Theorem apple_wallet_requests E depth user_data st p st' :
  apple_wallet E depth user_data st = (inr p, st') →
  ∃ reqs,
    http_log st' = (http_log st ++ reqs)%list ∧
    (length reqs ≤ 2 * depth)%nat ∧
    ∀ u, u ∈ reqs →
      u = fallback_url ∨
      ∃ discord, discord_record user_data discord ∧
                 discord !! "avatar" = Some (PStr u).
Proof.
  intros H. apply apple_wallet_run, wallet_run_thumbnails in H
    as (discord & thumbs & s0 & s1 & Hd & Hs0 & Hs1 & Hth & _).
  apply thumbnails_cases in Hth
    as [(_ & _ & ->)|(Ht & b1 & sm & b2 & Hg1 & Hg2 & _)].
  - exists []. rewrite app_nil_r, Hs1, Hs0. split; [done|].
    split; [simpl; lia|]. intros u Hu. by apply elem_of_nil in Hu.
  - apply get_img_inr_log in Hg1 as (u & r1 & Hu & Hl1 & Hn1 & Ha1).
    apply get_img_inr_log in Hg2 as (u' & r2 & Hu' & Hl2 & Hn2 & Ha2).
    rewrite Hu in Hu'. injection Hu' as <-.
    exists (r1 ++ r2)%list. split.
    { by rewrite Hs1, Hl2, Hl1, Hs0, app_assoc. }
    split; [rewrite length_app; lia|].
    intros v Hv. apply elem_of_app in Hv.
    assert (Hvu : v = u ∨ v = fallback_url).
    { destruct Hv as [Hv|Hv];
        [rewrite Forall_forall in Ha1; by apply Ha1
        |rewrite Forall_forall in Ha2; by apply Ha2]. }
    destruct Hvu as [-> | ->]; [right|by left].
    exists discord. split; [done|].
    unfold dict_get in Hu. destruct (discord !! "avatar") as [w|]; [|done].
    simpl in Hu. by rewrite Hu.
Qed.

Lemma apple_wallet_requests_witness :
  ∃ p st' reqs,
    apple_wallet env_up 1 ada st0 = (inr p, st') ∧
    http_log st' = reqs ∧ (length reqs ≤ 2)%nat.
Proof.
  eexists _, _.
  match goal with |- ∃ reqs, ?R ∧ _ =>
    assert (H : R) by (vm_compute; reflexivity) end.
  destruct (apple_wallet_requests env_up 1 ada st0 _ _ H)
    as (reqs & Hlog & Hlen & _).
  exists reqs. split; [exact H|]. split; [exact Hlog|exact Hlen].
Defined.

(** * Properties of the settings loader *)

(** ** Dicts in insertion order *)

Lemma oget_oset_eq {A} (k : string) (a : A) (d : Settings.odict A) :
  Settings.oget k (Settings.oset k a d) = Some a.
Proof.
  induction d as [|[k' a'] d IH]; simpl.
  - by rewrite String.eqb_refl.
  - destruct (String.eqb_spec k' k) as [->|Hne]; simpl.
    + by rewrite String.eqb_refl.
    + destruct (String.eqb_spec k' k); [done|exact IH].
Qed.

Lemma oget_oset_ne {A} (k k' : string) (a : A) (d : Settings.odict A) :
  k ≠ k' → Settings.oget k' (Settings.oset k a d) = Settings.oget k' d.
Proof.
  intros Hne. induction d as [|[k0 a0] d IH]; simpl.
  - destruct (String.eqb_spec k k'); [done|done].
  - destruct (String.eqb_spec k0 k) as [->|Hk0]; simpl.
    + destruct (String.eqb_spec k k'); [done|done].
    + destruct (String.eqb_spec k0 k'); [done|exact IH].
Qed.

Lemma oget_None {A} (k : string) (d : Settings.odict A) :
  k ∉ map fst d → Settings.oget k d = None.
Proof.
  induction d as [|[k' a'] d IH]; simpl; [done|].
  intros Hk. apply not_elem_of_cons in Hk as [Hne Hk].
  destruct (String.eqb_spec k' k); [congruence|by apply IH].
Qed.

Lemma oget_is_Some {A} (k : string) (d : Settings.odict A) :
  is_Some (Settings.oget k d) ↔ k ∈ map fst d.
Proof.
  induction d as [|[k' a'] d IH]; simpl.
  - split; [by intros [? ?]|by intros ?%elem_of_nil].
  - destruct (String.eqb_spec k' k) as [->|Hne].
    + split; [intros _; apply list_elem_of_here|by eauto].
    + rewrite IH, elem_of_cons. split; [by right|].
      intros [?|?]; [congruence|done].
Qed.

Lemma oset_keys {A} (k : string) (a : A) (d : Settings.odict A) :
  map fst (Settings.oset k a d)
  = if decide (k ∈ map fst d) then map fst d else (map fst d ++ [k])%list.
Proof.
  induction d as [|[k' a'] d IH].
  - destruct (decide (k ∈ map fst [])) as [Hin|_];
      [by apply elem_of_nil in Hin|done].
  - cbn [Settings.oset map fst].
    destruct (String.eqb_spec k' k) as [->|Hne]; cbn [map fst].
    + destruct (decide (k ∈ k :: map fst d)) as [_|Hnin]; [done|].
      destruct Hnin. apply list_elem_of_here.
    + rewrite IH.
      destruct (decide (k ∈ map fst d)) as [Hin|Hnin];
        destruct (decide (k ∈ k' :: map fst d)) as [Hin'|Hnin']; try done.
      * destruct Hnin'. by apply list_elem_of_further.
      * apply elem_of_cons in Hin' as [?|?]; congruence.
Qed.

Lemma oset_NoDup {A} (k : string) (a : A) (d : Settings.odict A) :
  NoDup (map fst d) → NoDup (map fst (Settings.oset k a d)).
Proof.
  intros Hnd. rewrite oset_keys. destruct (decide (k ∈ map fst d)); [done|].
  apply NoDup_app. split; [done|]. split.
  - intros x Hx ->%list_elem_of_singleton. done.
  - apply NoDup_singleton.
Qed.

(** ** The first loop of [BitwardenConfig] *)

Lemma oget2_add_secret bs acc bw t n t' n' :
  Settings.oget2 t' n' (Settings.add_secret bs acc (bw, (t, n)))
  = match Settings.written_get bw bs with
    | Some v =>
        if decide ((t, n) = (t', n')) then Some v
        else Settings.oget2 t' n' acc
    | None => Settings.oget2 t' n' acc
    end.
Proof.
  unfold Settings.add_secret.
  destruct (Settings.written_get bw bs) as [v|]; [|done].
  unfold Settings.oget2. cbv zeta.
  destruct (decide (t = t')) as [<-|Ht].
  - rewrite oget_oset_eq. destruct (decide (n = n')) as [<-|Hn].
    + rewrite oget_oset_eq. by rewrite decide_True.
    + rewrite oget_oset_ne by done. rewrite decide_False by congruence.
      by destruct (Settings.oget t acc).
  - rewrite oget_oset_ne by done. by rewrite decide_False by congruence.
Qed.

Lemma oget2_fold_add_secret bs l : ∀ acc t n,
  Settings.oget2 t n (fold_left (Settings.add_secret bs) l acc)
  = Settings.routed bs l t n (Settings.oget2 t n acc).
Proof.
  unfold Settings.routed.
  induction l as [|[bw [t0 n0]] l IH]; intros acc t n; [done|].
  cbn [fold_left]. rewrite IH, oget2_add_secret. cbn [fst snd].
  destruct (Settings.written_get bw bs); [|done].
  by destruct (decide ((t0, n0) = (t, n))).
Qed.

Lemma routed_miss bs l t n init :
  (∀ bw, (bw, (t, n)) ∈ l → Settings.written_get bw bs = None) →
  Settings.routed bs l t n init = init.
Proof.
  unfold Settings.routed. revert init.
  induction l as [|[bw tn] l IH]; intros init Hmiss; [done|].
  simpl. rewrite IH.
  - destruct (Settings.written_get bw bs) as [v|] eqn:Hv; [|done].
    destruct (decide (tn = (t, n))) as [->|]; [|done].
    rewrite Hmiss in Hv; [done|apply list_elem_of_here].
  - intros bw' Hin. apply Hmiss. by apply list_elem_of_further.
Qed.

Lemma routed_hit bs l t n init bw v :
  NoDup (map snd l) →
  (bw, (t, n)) ∈ l →
  Settings.written_get bw bs = Some v →
  Settings.routed bs l t n init = Some v.
Proof.
  unfold Settings.routed. revert init.
  induction l as [|[bw0 tn0] l IH]; intros init Hnd Hin Hv.
  - by apply elem_of_nil in Hin.
  - simpl in Hnd. apply NoDup_cons in Hnd as [Hnotin Hnd].
    apply elem_of_cons in Hin as [[= <- <-]|Hin]; simpl.
    + rewrite Hv, decide_True by done.
      apply (routed_miss bs l t n (Some v)).
      intros bw' Hin'. destruct Hnotin.
      apply list_elem_of_fmap. by exists (bw', (t, n)).
    + by apply IH.
Qed.

Lemma routed_is_Some bs l t n :
  is_Some (Settings.routed bs l t n None) →
  ∃ bw, (bw, (t, n)) ∈ l ∧ is_Some (Settings.written_get bw bs).
Proof.
  intros Hsome.
  destruct (decide (Exists (fun e => snd e = (t, n) ∧
                      is_Some (Settings.written_get (fst e) bs)) l))
    as [Hex|Hnex].
  - apply Exists_exists in Hex as ([bw tn] & Hin & Htn & Hv).
    simpl in *. subst tn. by exists bw.
  - rewrite routed_miss in Hsome; [by destruct Hsome|].
    intros bw Hin.
    destruct (Settings.written_get bw bs) as [v|] eqn:Hv; [|done].
    destruct Hnex. apply Exists_exists. exists (bw, (t, n)).
    split; [done|]. simpl. by rewrite Hv.
Qed.

Lemma add_secret_well_formed bs acc entry :
  Settings.well_formed acc →
  Settings.well_formed (Settings.add_secret bs acc entry).
Proof.
  destruct entry as [bw [t n]]. intros [Hnd Hsec].
  unfold Settings.add_secret.
  destruct (Settings.written_get bw bs) as [v|]; [|by split].
  cbv zeta. split; [by apply oset_NoDup|].
  intros top section Hget.
  destruct (decide (t = top)) as [<-|Hne].
  - rewrite oget_oset_eq in Hget. injection Hget as <-. split.
    + apply oset_NoDup. destruct (Settings.oget t acc) as [sec|] eqn:Hsec0.
      * by apply (Hsec t sec).
      * constructor.
    + by destruct (default [] (Settings.oget t acc)) as [|[k a] sec];
        simpl; [|destruct (String.eqb k n)].
  - rewrite oget_oset_ne in Hget by done. by apply (Hsec top section).
Qed.

Lemma map_secrets_well_formed bs : Settings.well_formed (Settings.map_secrets bs).
Proof.
  unfold Settings.map_secrets.
  assert (Hgen : ∀ l acc, Settings.well_formed acc →
            Settings.well_formed (fold_left (Settings.add_secret bs) l acc)).
  { induction l as [|e l IH]; intros acc Hacc; [done|].
    simpl. by apply IH, add_secret_well_formed. }
  apply Hgen. split; [constructor|]. intros top section Hget. discriminate Hget.
Qed.

Lemma oget2_map_secrets bs t n :
  Settings.oget2 t n (Settings.map_secrets bs)
  = Settings.routed bs Settings.bitwarden_mapping t n None.
Proof. unfold Settings.map_secrets. by rewrite oget2_fold_add_secret. Qed.

(** ** The second loop of [BitwardenConfig] *)

Lemma section_update_lookup nd : ∀ d k,
  NoDup (map fst nd) →
  Settings.section_update nd d !! k
  = match Settings.oget k nd with Some v => Some v | None => d !! k end.
Proof.
  unfold Settings.section_update.
  induction nd as [|[k0 v0] nd IH]; intros d k Hnd; [done|].
  simpl in Hnd. apply NoDup_cons in Hnd as [Hnotin Hnd].
  cbn [fold_left Settings.oget fst snd]. rewrite IH by done.
  destruct (String.eqb_spec k0 k) as [->|Hne].
  - by rewrite (oget_None k nd), lookup_insert_eq.
  - by rewrite lookup_insert_ne.
Qed.

Lemma object_update_lookup nd : ∀ d k,
  NoDup (map fst nd) →
  Settings.object_update nd d !! k
  = match Settings.oget k nd with
    | Some v => Some (Settings.RVal v)
    | None => d !! k
    end.
Proof.
  unfold Settings.object_update.
  induction nd as [|[k0 v0] nd IH]; intros d k Hnd; [done|].
  simpl in Hnd. apply NoDup_cons in Hnd as [Hnotin Hnd].
  cbn [fold_left Settings.oget fst snd]. rewrite IH by done.
  destruct (String.eqb_spec k0 k) as [->|Hne].
  - by rewrite (oget_None k nd), lookup_insert_eq.
  - by rewrite lookup_insert_ne.
Qed.

Lemma deref_insert_eq h l o : Settings.deref (<[l := o]> h) l = o.
Proof. unfold Settings.deref. by rewrite lookup_insert_eq. Qed.

Lemma deref_insert_ne h l l' o :
  l ≠ l' → Settings.deref (<[l := o]> h) l' = Settings.deref h l'.
Proof. intros Hne. unfold Settings.deref. by rewrite lookup_insert_ne. Qed.

(** A section that is an object of the heap takes the items in place. *)
Lemma merge_section_ref nd : ∀ settings h top l d,
  settings !! top = Some (Settings.RRef l) →
  Settings.deref h l = Settings.HDict d →
  ∃ h',
    Settings.merge_section settings h top nd = (inr settings, h') ∧
    Settings.deref h' l = Settings.HDict (Settings.object_update nd d) ∧
    ∀ l', l' ≠ l → Settings.deref h' l' = Settings.deref h l'.
Proof.
  unfold Settings.object_update.
  induction nd as [|[k v] nd IH]; intros settings h top l d Htop Hd.
  - exists h. by repeat split.
  - cbn [Settings.merge_section fold_left fst snd].
    unfold Settings.setitem2. rewrite Htop, Hd.
    destruct (IH settings
                (<[l := Settings.HDict (<[k := Settings.RVal v]> d)]> h)
                top l (<[k := Settings.RVal v]> d) Htop
                (deref_insert_eq _ _ _)) as (h' & Hrun & Hl & Hother).
    exists h'. split; [done|]. split; [done|].
    intros l' Hne. rewrite Hother by done. by rewrite deref_insert_ne.
Qed.

(** A section given outright takes them as a value. *)
Lemma merge_section_val nd : ∀ settings h top d,
  settings !! top = Some (Settings.RVal (PDict d)) →
  Settings.merge_section settings h top nd
  = (inr (<[top := Settings.RVal (PDict (Settings.section_update nd d))]>
            settings), h).
Proof.
  unfold Settings.section_update.
  induction nd as [|[k v] nd IH]; intros settings h top d Hd.
  - simpl. by rewrite insert_id.
  - cbn [Settings.merge_section fold_left fst snd].
    unfold Settings.setitem2. rewrite Hd.
    rewrite (IH _ h top (<[k := v]> d)) by apply lookup_insert_eq.
    by rewrite insert_insert_eq.
Qed.

(** A section that is no dict takes none. *)
Lemma merge_section_not_dict nd settings h top v :
  settings !! top = Some v → Settings.items h v = None →
  Settings.merge_section settings h top nd
  = (match nd with [] => inr settings | _ => inl Settings.TypeError end, h).
Proof.
  intros Hv Hnd. destruct nd as [|[k x] nd]; [done|].
  cbn [Settings.merge_section]. unfold Settings.setitem2. rewrite Hv.
  unfold Settings.items in Hnd.
  destruct v as [[]|l]; try done.
  by destruct (Settings.deref h l).
Qed.

(** The three cases together: the section [top] of the result, the
    references of the result and the objects after one section. *)
Lemma merge_section_inr nd settings h top r h' :
  is_Some (settings !! top) →
  Settings.merge_section settings h top nd = (inr r, h') →
  (∀ t l, Settings.is_object r t l = Settings.is_object settings t l) ∧
  (∀ t, t ≠ top → r !! t = settings !! t) ∧
  (∀ v, settings !! top = Some v → (∀ d, v ≠ Settings.RVal (PDict d)) →
        r !! top = Some v) ∧
  (∀ d, settings !! top = Some (Settings.RVal (PDict d)) →
        r !! top = Some (Settings.RVal (PDict (Settings.section_update nd d)))) ∧
  ∀ l, Settings.deref h' l
       = match Settings.deref h l with
         | Settings.HDict d =>
             Settings.HDict
               (if Settings.is_object settings top l
                then Settings.object_update nd d else d)
         | Settings.HList x => Settings.HList x
         end.
Proof.
  intros [v Hv] Hrun.
  destruct (Settings.items h v) as [its|] eqn:Hits.
  - destruct v as [x|l0].
    + destruct x as [| | | | | |d0]; try discriminate.
      rewrite (merge_section_val nd _ _ _ _ Hv) in Hrun.
      injection Hrun as <- <-.
      assert (Hobj : ∀ l, Settings.is_object settings top l = false)
        by (intros l; unfold Settings.is_object; by rewrite Hv).
      split; [|split; [|split; [|split]]].
      * intros t l. unfold Settings.is_object.
        destruct (decide (t = top)) as [->|Hne].
        -- by rewrite lookup_insert_eq, Hv.
        -- by rewrite lookup_insert_ne.
      * intros t Hne. by rewrite lookup_insert_ne.
      * intros v Hv' Hnd. rewrite Hv in Hv'. injection Hv' as <-.
        by destruct (Hnd d0).
      * intros d Hd. rewrite Hv in Hd. injection Hd as <-.
        by rewrite lookup_insert_eq.
      * intros l. rewrite Hobj. by destruct (Settings.deref h l).
    + simpl in Hits.
      destruct (Settings.deref h l0) as [d0|x] eqn:Hd0; [|discriminate].
      destruct (merge_section_ref nd _ _ _ _ _ Hv Hd0)
        as (h1 & Hrun1 & Hl & Hother).
      rewrite Hrun1 in Hrun. injection Hrun as <- <-.
      split; [done|]. split; [done|]. split; [done|].
      split; [intros d Hd; by rewrite Hv in Hd|].
      intros l. unfold Settings.is_object. rewrite Hv.
      destruct (decide (l0 = l)) as [<-|Hne].
      * rewrite Hl, Hd0. by rewrite bool_decide_eq_true_2.
      * rewrite Hother by done. rewrite bool_decide_eq_false_2 by done.
        by destruct (Settings.deref h l).
  - rewrite (merge_section_not_dict nd _ _ _ _ Hv Hits) in Hrun.
    destruct nd; [|discriminate]. injection Hrun as <- <-.
    split; [done|]. split; [done|]. split; [done|].
    split.
    + intros d Hd. rewrite Hv in Hd. injection Hd as ->. discriminate.
    + intros l. destruct (Settings.is_object settings top l);
        by destruct (Settings.deref h l).
Qed.

Lemma object_merge_ext s1 s2 mapped l : ∀ d,
  (∀ t, Settings.is_object s1 t l = Settings.is_object s2 t l) →
  Settings.object_merge s1 mapped l d = Settings.object_merge s2 mapped l d.
Proof.
  unfold Settings.object_merge.
  induction mapped as [|[t nd] mapped IH]; intros d Hext; [done|].
  simpl. rewrite Hext. by apply IH.
Qed.

(** Whether a value is a dict does not change when dicts take items. *)
Lemma items_None_stable (h h' : gmap nat Settings.hobj)
    (f : nat → gmap string Settings.rval → gmap string Settings.rval) v :
  (∀ l, Settings.deref h' l
        = match Settings.deref h l with
          | Settings.HDict d => Settings.HDict (f l d)
          | Settings.HList x => Settings.HList x
          end) →
  Settings.items h' v = None ↔ Settings.items h v = None.
Proof.
  intros Hd. destruct v as [x|l]; [done|]. simpl. rewrite Hd.
  by destruct (Settings.deref h l).
Qed.

Lemma well_formed_tail t nd mapped :
  Settings.well_formed ((t, nd) :: mapped) →
  (t ∉ map fst mapped) ∧ NoDup (map fst nd) ∧ nd ≠ [] ∧
  Settings.well_formed mapped.
Proof.
  intros [Hnodup Hsec]. simpl in Hnodup.
  apply NoDup_cons in Hnodup as [Hnotin Hnodup].
  destruct (Hsec t nd) as [Hnd Hne]; [simpl; by rewrite String.eqb_refl|].
  split; [done|]. split; [done|]. split; [done|].
  split; [done|]. intros top' sec Hget. apply (Hsec top' sec).
  simpl. destruct (String.eqb_spec t top') as [->|]; [|done].
  by rewrite oget_None in Hget.
Qed.

(** What the second loop leaves when it succeeds: the references of
    [settings] as they were, the sections given outright updated as
    values, and every dict of the heap with the items of the sections that
    are this dict. *)
Lemma merge_inr mapped : ∀ settings h r h',
  Settings.well_formed mapped →
  Settings.merge settings h mapped = (inr r, h') →
  (∀ t l, Settings.is_object r t l = Settings.is_object settings t l) ∧
  (∀ top,
     r !! top
     = match settings !! top, Settings.oget top mapped with
       | Some (Settings.RVal (PDict d)), Some nd =>
           Some (Settings.RVal (PDict (Settings.section_update nd d)))
       | v, _ => v
       end) ∧
  ∀ l, Settings.deref h' l
       = match Settings.deref h l with
         | Settings.HDict d =>
             Settings.HDict (Settings.object_merge settings mapped l d)
         | Settings.HList x => Settings.HList x
         end.
Proof.
  induction mapped as [|[t nd] mapped IH]; intros settings h r h' Hwf Hmerge.
  - injection Hmerge as <- <-. split; [done|]. split.
    + intros top. simpl. by destruct (settings !! top) as [[[]|]|].
    + intros l. by destruct (Settings.deref h l).
  - apply well_formed_tail in Hwf as (Hnotin & Hnd & Hne & Hwf).
    cbn [Settings.merge] in Hmerge.
    destruct (settings !! t) as [v|] eqn:Hv.
    + destruct (Settings.merge_section settings h t nd) as [[e|s1] h1] eqn:Hms;
        [discriminate|].
      destruct (merge_section_inr nd settings h t s1 h1) as
        (Hobj1 & Hother1 & Hsame1 & Hval1 & Hheap1); [by rewrite Hv|done|].
      destruct (IH _ _ _ _ Hwf Hmerge) as (Hobj & Htop & Hheap).
      split; [intros t' l; by rewrite Hobj, Hobj1|]. split.
      * intros top. rewrite Htop. cbn [Settings.oget].
        destruct (String.eqb_spec t top) as [<-|Hne'].
        -- rewrite (oget_None t mapped) by done. rewrite Hv.
           destruct v as [[| | | | | |d]|l];
             try (rewrite (Hsame1 _ Hv) by discriminate; reflexivity).
           by rewrite (Hval1 d Hv).
        -- by rewrite Hother1.
      * intros l. rewrite Hheap, Hheap1.
        destruct (Settings.deref h l) as [d|x]; [|done].
        unfold Settings.object_merge at 2. cbn [fold_left fst snd].
        f_equal. fold (Settings.object_merge settings mapped l
          (if Settings.is_object settings t l
           then Settings.object_update nd d else d)).
        apply object_merge_ext. intros t'. apply Hobj1.
    + destruct (IH _ _ _ _ Hwf Hmerge) as (Hobj & Htop & Hheap).
      split; [done|]. split.
      * intros top. rewrite Htop. cbn [Settings.oget].
        destruct (String.eqb_spec t top) as [<-|Hne']; [|done].
        by rewrite Hv.
      * intros l. rewrite Hheap.
        destruct (Settings.deref h l) as [d|x]; [|done].
        unfold Settings.object_merge at 2. cbn [fold_left fst snd].
        unfold Settings.is_object at 2. by rewrite Hv.
Qed.

Lemma merge_section_error nd : ∀ settings h top e h',
  Settings.merge_section settings h top nd = (inl e, h') →
  is_Some (settings !! top) → e = Settings.TypeError.
Proof.
  induction nd as [|[k v] nd IH]; intros settings h top e h' Hms Hsome;
    [discriminate|].
  cbn [Settings.merge_section] in Hms.
  destruct (Settings.setitem2 settings h top k v) as [[e1|s1] h1] eqn:Hset.
  - injection Hms as <- <-. unfold Settings.setitem2 in Hset.
    destruct Hsome as [x Hx]. rewrite Hx in Hset.
    destruct x as [[]|l]; try (by injection Hset as <-); try discriminate.
    destruct (Settings.deref h l); [discriminate|by injection Hset as <-].
  - eapply IH; [exact Hms|]. unfold Settings.setitem2 in Hset.
    destruct Hsome as [x Hx]. rewrite Hx in Hset.
    destruct x as [[]|l]; try discriminate.
    + injection Hset as <- <-. by rewrite lookup_insert_eq.
    + destruct (Settings.deref h l); [|discriminate].
      injection Hset as <- <-. by rewrite Hx.
Qed.

Lemma merge_error mapped : ∀ settings h e h',
  Settings.merge settings h mapped = (inl e, h') → e = Settings.TypeError.
Proof.
  induction mapped as [|[t nd] mapped IH]; intros settings h e h' Hmerge;
    [discriminate|].
  cbn [Settings.merge] in Hmerge.
  destruct (settings !! t) as [v|] eqn:Hv; [|by eapply IH].
  destruct (Settings.merge_section settings h t nd) as [[e1|s1] h1] eqn:Hms;
    [|by eapply IH].
  injection Hmerge as <- <-.
  eapply merge_section_error; [exact Hms|by rewrite Hv].
Qed.

(** A section that is no dict and is to take a secret stops the loop. *)
Lemma merge_not_dict mapped settings h top nd v :
  Settings.well_formed mapped →
  Settings.oget top mapped = Some nd →
  settings !! top = Some v → Settings.items h v = None →
  ∃ h', Settings.merge settings h mapped = (inl Settings.TypeError, h').
Proof.
  intros Hwf Hget Hv Hnd.
  destruct (Settings.merge settings h mapped) as [[e|r] h'] eqn:Hmerge.
  - exists h'. by rewrite (merge_error _ _ _ _ _ Hmerge).
  - exfalso. revert settings h r h' Hv Hnd Hmerge Hwf Hget.
    induction mapped as [|[t nd0] mapped IH];
      intros settings h r h' Hv Hnd Hmerge Hwf Hget; [discriminate|].
    apply well_formed_tail in Hwf as (Hnotin & Hnodup & Hne & Hwf).
    cbn [Settings.merge] in Hmerge. cbn [Settings.oget] in Hget.
    destruct (String.eqb_spec t top) as [->|Hne'].
    + injection Hget as ->. rewrite Hv in Hmerge.
      rewrite (merge_section_not_dict nd _ _ _ _ Hv Hnd) in Hmerge.
      by destruct nd.
    + destruct (settings !! t) as [x|] eqn:Hx.
      * destruct (Settings.merge_section settings h t nd0)
          as [[e|s1] h1] eqn:Hms; [discriminate|].
        destruct (merge_section_inr nd0 settings h t s1 h1) as
          (_ & Hother1 & _ & _ & Hheap1); [by rewrite Hx|done|].
        apply (IH s1 h1 r h'); try done.
        -- by rewrite Hother1.
        -- by apply (items_None_stable h h1
                       (fun l d => if Settings.is_object settings t l
                                   then Settings.object_update nd0 d else d)).
      * by apply (IH settings h r h').
Qed.

(** ** [BitwardenConfig] as a whole *)

Arguments Settings.map_secrets : simpl never.
Arguments Settings.merge : simpl never.
Arguments Settings.parse_json_to_dict : simpl never.

Lemma existsb_not_in_class (pid : string) :
  existsb (fun c => negb (Settings.in_class c)) (list_ascii_of_string pid) = false
  ↔ ∀ c, c ∈ list_ascii_of_string pid → Settings.in_class c = true.
Proof.
  induction (list_ascii_of_string pid) as [|c l IH]; simpl.
  - split; [by intros _ c ?%elem_of_nil|done].
  - rewrite orb_false_iff, IH, negb_false_iff. split.
    + intros [Hc Hl] c' [->|Hin]%elem_of_cons; [done|by apply Hl].
    + intros Hall. split; [apply Hall, list_elem_of_here|].
      intros c' Hin. by apply Hall, list_elem_of_further.
Qed.

(** The course of [BitwardenConfig], case by case. *)
Lemma BitwardenConfig_cases Y settings w :
  let failed e w :=
    (inl e : Settings.error + gmap string Settings.rval,
     {| Settings.commands := Settings.commands w;
        Settings.log := (Settings.log w ++ [Settings.Exception e])%list;
        Settings.objects := Settings.objects w |}) in
  Settings.BitwardenConfig Y settings w
  = match settings !! "bws" with
    | None => failed (Settings.KeyError "bws") w
    | Some bws =>
        match Settings.r_getitem (Settings.objects w) bws "project_id" with
        | inl e => failed e w
        | inr (Settings.RVal (PStr pid)) =>
            if existsb (fun c => negb (Settings.in_class c))
                 (list_ascii_of_string pid)
            then failed (Settings.ValueError "Invalid project id") w
            else
              let command := ["bws"; "secret"; "list"; pid; "--output"; "json"] in
              let w1 := {| Settings.commands :=
                             (Settings.commands w ++ [command])%list;
                           Settings.log := Settings.log w;
                           Settings.objects := Settings.objects w |} in
              match Settings.subprocess_stdout Y command with
              | None => failed Settings.OSError w1
              | Some raw =>
                  match Settings.parse_json_to_dict Y raw with
                  | inl e => (inl e, w1)
                  | inr written =>
                      Settings.merging settings (Settings.map_secrets written) w1
                  end
              end
        | inr _ => failed Settings.TypeError w
        end
    end.
Proof.
  intros failed. subst failed.
  unfold Settings.BitwardenConfig, Settings.bind, Settings.logged,
    Settings.lift, Settings.top_getitem, Settings.reading,
    Settings.re_search_not_in_class, Settings.subprocess_run.
  destruct (settings !! "bws") as [bws|]; [|done]. simpl.
  destruct (Settings.r_getitem (Settings.objects w) bws "project_id")
    as [e|[[| | | |pid| |]|l]]; try done.
  simpl. destruct (existsb _ (list_ascii_of_string pid)); [done|]. simpl.
  destruct (Settings.subprocess_stdout Y _) as [raw|]; [|done].
  by destruct (Settings.parse_json_to_dict Y raw).
Qed.

Lemma merging_world settings mapped w r w' :
  Settings.merging settings mapped w = (r, w') →
  Settings.commands w' = Settings.commands w ∧
  Settings.log w' = Settings.log w ∧
  Settings.merge settings (Settings.objects w) mapped
  = (r, Settings.objects w').
Proof.
  unfold Settings.merging.
  destruct (Settings.merge settings (Settings.objects w) mapped) as [r0 h'].
  by intros [= <- <-].
Qed.

(** With a project id of the right form, [BitwardenConfig] runs [bws] once
    and goes on with what it printed. *)
Lemma BitwardenConfig_run Y settings w pid :
  Settings.bws_project_id (Settings.objects w) settings pid →
  (∀ c, c ∈ list_ascii_of_string pid → Settings.in_class c = true) →
  let command := ["bws"; "secret"; "list"; pid; "--output"; "json"] in
  let w1 := {| Settings.commands := (Settings.commands w ++ [command])%list;
               Settings.log := Settings.log w;
               Settings.objects := Settings.objects w |} in
  Settings.BitwardenConfig Y settings w
  = match Settings.subprocess_stdout Y command with
    | None =>
        (inl Settings.OSError,
         {| Settings.commands := Settings.commands w1;
            Settings.log :=
              (Settings.log w ++ [Settings.Exception Settings.OSError])%list;
            Settings.objects := Settings.objects w |})
    | Some raw =>
        match Settings.parse_json_to_dict Y raw with
        | inl e => (inl e, w1)
        | inr written =>
            Settings.merging settings (Settings.map_secrets written) w1
        end
    end.
Proof.
  intros (bws & Hbws & Hpid) Hvalid command w1.
  apply (proj2 (existsb_not_in_class pid)) in Hvalid.
  rewrite BitwardenConfig_cases. cbv zeta.
  by rewrite Hbws, Hpid, Hvalid.
Qed.

(** Whatever the outcome, [BitwardenConfig] starts at most one process,
    [bws secret list <project id> --output json], and only with a project
    id made of the characters [a-z], [0-9] and [-]. *)
Theorem BitwardenConfig_command Y settings w r w' :
  Settings.BitwardenConfig Y settings w = (r, w') →
  Settings.commands w' = Settings.commands w ∨
  ∃ pid,
    Settings.bws_project_id (Settings.objects w) settings pid ∧
    (∀ c, c ∈ list_ascii_of_string pid → Settings.in_class c = true) ∧
    Settings.commands w'
    = (Settings.commands w ++
       [["bws"; "secret"; "list"; pid; "--output"; "json"]])%list.
Proof.
  rewrite BitwardenConfig_cases. cbv zeta.
  destruct (settings !! "bws") as [bws|] eqn:Hbws;
    [|intros [= _ <-]; by left].
  destruct (Settings.r_getitem (Settings.objects w) bws "project_id")
    as [e|[[| | | |pid| |]|l]] eqn:Hpid; try (intros [= _ <-]; by left).
  destruct (existsb _ (list_ascii_of_string pid)) eqn:Hex;
    [intros [= _ <-]; by left|].
  pose proof (proj1 (existsb_not_in_class pid) Hex) as Hvalid.
  intros H. right. exists pid. split; [by exists bws|]. split; [done|].
  destruct (Settings.subprocess_stdout Y _) as [raw|];
    [|by injection H as _ <-].
  destruct (Settings.parse_json_to_dict Y raw); [by injection H as _ <-|].
  by apply merging_world in H as (-> & _ & _).
Qed.

Lemma bitwarden_mapping_targets_NoDup :
  NoDup (map snd Settings.bitwarden_mapping).
Proof. apply (bool_decide_unpack _). vm_compute. reflexivity. Qed.

(** What a run of [BitwardenConfig] that returns went through. *)
Lemma BitwardenConfig_inr Y settings w r w' :
  Settings.BitwardenConfig Y settings w = (inr r, w') →
  ∃ pid raw written,
    Settings.bws_project_id (Settings.objects w) settings pid ∧
    Settings.subprocess_stdout Y
      ["bws"; "secret"; "list"; pid; "--output"; "json"] = Some raw ∧
    Settings.parse_json_to_dict Y raw = inr written ∧
    Settings.merge settings (Settings.objects w) (Settings.map_secrets written)
    = (inr r, Settings.objects w') ∧
    Settings.commands w'
    = (Settings.commands w ++
       [["bws"; "secret"; "list"; pid; "--output"; "json"]])%list ∧
    Settings.log w' = Settings.log w.
Proof.
  rewrite BitwardenConfig_cases. cbv zeta.
  destruct (settings !! "bws") as [bws|] eqn:Hbws; [|discriminate].
  destruct (Settings.r_getitem (Settings.objects w) bws "project_id")
    as [e|[[| | | |pid| |]|l]] eqn:Hpid; try discriminate.
  destruct (existsb _ (list_ascii_of_string pid)); [discriminate|].
  destruct (Settings.subprocess_stdout Y _) as [raw|] eqn:Hraw;
    [|discriminate].
  destruct (Settings.parse_json_to_dict Y raw) as [e|written] eqn:Hparse;
    [discriminate|].
  intros (Hc & Hl & Hm)%merging_world.
  exists pid, raw, written. split; [by exists bws|]. by repeat split.
Qed.

Lemma map_secrets_section_None written top :
  (∀ bw n, (bw, (top, n)) ∈ Settings.bitwarden_mapping →
           Settings.written_get bw written = None) →
  Settings.oget top (Settings.map_secrets written) = None.
Proof.
  intros Hnone.
  destruct (Settings.oget top (Settings.map_secrets written)) as [sec|] eqn:Hsec;
    [|done].
  exfalso.
  destruct (map_secrets_well_formed written) as [_ Hwf].
  destruct (Hwf top sec Hsec) as [_ Hne].
  destruct sec as [|[n v] sec]; [done|].
  assert (Hr : is_Some (Settings.routed written Settings.bitwarden_mapping
                          top n None)).
  { rewrite <- oget2_map_secrets. unfold Settings.oget2. rewrite Hsec.
    simpl. rewrite String.eqb_refl. by eexists. }
  apply routed_is_Some in Hr as (bw & Hin & [v' Hv']).
  by rewrite (Hnone bw n Hin) in Hv'.
Qed.

Lemma map_secrets_section_Some written top bw n v :
  (bw, (top, n)) ∈ Settings.bitwarden_mapping →
  Settings.written_get bw written = Some v →
  ∃ sec, Settings.oget top (Settings.map_secrets written) = Some sec ∧
         Settings.oget n sec = Some v.
Proof.
  intros Hin Hv.
  pose proof (oget2_map_secrets written top n) as H2.
  rewrite (routed_hit written _ top n None bw v
             bitwarden_mapping_targets_NoDup Hin Hv) in H2.
  unfold Settings.oget2 in H2.
  destruct (Settings.oget top (Settings.map_secrets written)) as [sec|];
    [|done].
  by exists sec.
Qed.

Lemma map_secrets_item_None written top n :
  (∀ bw, (bw, (top, n)) ∈ Settings.bitwarden_mapping →
         Settings.written_get bw written = None) →
  Settings.oget2 top n (Settings.map_secrets written) = None.
Proof. intros Hnone. rewrite oget2_map_secrets. by apply routed_miss. Qed.

Lemma map_secrets_item_Some written top bw n v :
  (bw, (top, n)) ∈ Settings.bitwarden_mapping →
  Settings.written_get bw written = Some v →
  Settings.oget2 top n (Settings.map_secrets written) = Some v.
Proof.
  intros Hin Hv. rewrite oget2_map_secrets.
  by apply (routed_hit written _ top n None bw v
              bitwarden_mapping_targets_NoDup).
Qed.

(** ** What an object of the heap ends up with *)

Lemma oget2_cons {A} t (nd : Settings.odict A) mapped top n :
  t ∉ map fst mapped →
  Settings.oget2 top n ((t, nd) :: mapped)
  = if decide (t = top) then Settings.oget n nd
    else Settings.oget2 top n mapped.
Proof.
  intros Hnotin. unfold Settings.oget2. cbn [Settings.oget].
  destruct (String.eqb_spec t top) as [->|Hne].
  - by rewrite decide_True.
  - by rewrite decide_False.
Qed.

Lemma oget2_absent {A} top n (mapped : Settings.odict (Settings.odict A)) :
  top ∉ map fst mapped → Settings.oget2 top n mapped = None.
Proof. intros H. unfold Settings.oget2. by rewrite oget_None. Qed.

Lemma object_merge_lookup settings mapped l n : ∀ d,
  Settings.well_formed mapped →
  Settings.object_merge settings mapped l d !! n
  = Settings.received settings mapped l n (d !! n).
Proof.
  unfold Settings.object_merge, Settings.received.
  induction mapped as [|[t nd] mapped IH]; intros d Hwf; [done|].
  apply well_formed_tail in Hwf as (Hnotin & Hnd & Hne & Hwf).
  cbn [fold_left fst snd]. rewrite IH by done.
  destruct (Settings.is_object settings t l); [|done].
  by rewrite object_update_lookup.
Qed.

Lemma received_miss settings mapped l n : ∀ init,
  Settings.well_formed mapped →
  (∀ top, Settings.is_object settings top l = true →
          Settings.oget2 top n mapped = None) →
  Settings.received settings mapped l n init = init.
Proof.
  unfold Settings.received.
  induction mapped as [|[t nd] mapped IH]; intros init Hwf Hmiss; [done|].
  apply well_formed_tail in Hwf as (Hnotin & Hnd & Hne & Hwf).
  cbn [fold_left fst snd]. rewrite IH; [|done|].
  - destruct (Settings.is_object settings t l) eqn:Hobj; [|done].
    specialize (Hmiss t Hobj). rewrite oget2_cons, decide_True in Hmiss by done.
    by rewrite Hmiss.
  - intros top Hobj. specialize (Hmiss top Hobj).
    rewrite oget2_cons in Hmiss by done.
    destruct (decide (t = top)) as [<-|]; [by apply oget2_absent|done].
Qed.

Lemma received_hit settings mapped l n top v : ∀ init,
  Settings.well_formed mapped →
  Settings.is_object settings top l = true →
  Settings.oget2 top n mapped = Some v →
  (∀ top', top' ≠ top → Settings.is_object settings top' l = true →
           Settings.oget2 top' n mapped = None) →
  Settings.received settings mapped l n init = Some (Settings.RVal v).
Proof.
  induction mapped as [|[t nd] mapped IH]; intros init Hwf Hobj Hv Hother;
    [discriminate|].
  pose proof Hwf as Hwf0.
  apply well_formed_tail in Hwf as (Hnotin & Hnd & Hne & Hwf).
  rewrite oget2_cons in Hv by done.
  unfold Settings.received. cbn [fold_left fst snd].
  fold (Settings.received settings mapped l n).
  destruct (decide (t = top)) as [->|Hne'].
  - rewrite Hobj, Hv. apply received_miss; [done|].
    intros top' Hobj'. destruct (decide (top' = top)) as [->|Hne'].
    + by apply oget2_absent.
    + specialize (Hother top' Hne' Hobj').
      rewrite oget2_cons, decide_False in Hother by done. done.
  - assert (Hstep : (if Settings.is_object settings t l
                     then match Settings.oget n nd with
                          | Some value => Some (Settings.RVal value)
                          | None => init
                          end
                     else init) = init).
    { destruct (Settings.is_object settings t l) eqn:Hobjt; [|done].
      specialize (Hother t Hne' Hobjt).
      rewrite oget2_cons, decide_True in Hother by done. by rewrite Hother. }
    rewrite Hstep. apply IH; try done.
    intros top' Hne'' Hobj'. specialize (Hother top' Hne'' Hobj').
    rewrite oget2_cons in Hother by done.
    destruct (decide (t = top')) as [<-|]; [by apply oget2_absent|done].
Qed.

Lemma is_object_true settings top l :
  Settings.is_object settings top l = true
  ↔ settings !! top = Some (Settings.RRef l).
Proof.
  unfold Settings.is_object.
  destruct (settings !! top) as [[x|l']|].
  - split; discriminate.
  - rewrite bool_decide_eq_true. split; [by intros ->|congruence].
  - split; discriminate.
Qed.

(** ** What [BitwardenConfig] returns *)

(** A secret that [bws] printed under a key of the mapping ends up in its
    place in the settings, whatever [config.yml] had there, provided the
    section exists in [config.yml] and is a mapping, and provided no other
    section that is the same object (an alias of the same anchor) takes a
    secret under the same nested key; of two such secrets one overwrites
    the other. *)
Theorem BitwardenConfig_secret_overrides Y settings w r w' :
  Settings.BitwardenConfig Y settings w = (inr r, w') →
  ∃ pid raw written,
    Settings.bws_project_id (Settings.objects w) settings pid ∧
    Settings.subprocess_stdout Y
      ["bws"; "secret"; "list"; pid; "--output"; "json"] = Some raw ∧
    Settings.parse_json_to_dict Y raw = inr written ∧
    ∀ bw_key top_key nested_key value d,
      (bw_key, (top_key, nested_key)) ∈ Settings.bitwarden_mapping →
      Settings.written_get bw_key written = Some value →
      Settings.section (Settings.objects w) settings top_key d →
      (∀ bw' top' l,
         top' ≠ top_key →
         (bw', (top', nested_key)) ∈ Settings.bitwarden_mapping →
         settings !! top_key = Some (Settings.RRef l) →
         settings !! top' = Some (Settings.RRef l) →
         Settings.written_get bw' written = None) →
      ∃ d', Settings.section (Settings.objects w') r top_key d' ∧
            d' !! nested_key = Some (Settings.RVal value).
Proof.
  intros (pid & raw & written & Hpid & Hraw & Hparse & Hmerge & _)
    %BitwardenConfig_inr.
  exists pid, raw, written. repeat (split; [done|]).
  intros bw top n value d Hin Hv (v & Htop & Hitems) Halias.
  pose proof (map_secrets_well_formed written) as Hwf.
  destruct (merge_inr _ _ _ _ _ Hwf Hmerge) as (Hobj & Hr & Hheap).
  destruct (map_secrets_section_Some written top bw n value Hin Hv)
    as (sec & Hsec & Hn).
  specialize (Hr top). rewrite Htop, Hsec in Hr.
  destruct v as [x|l].
  - destruct x as [| | | | | |d0]; try discriminate.
    injection Hitems as <-.
    eexists. split; [eexists; split; [exact Hr|reflexivity]|].
    rewrite lookup_fmap, section_update_lookup, Hn; [done|].
    destruct Hwf as [_ Hwf]. by destruct (Hwf top sec Hsec).
  - simpl in Hitems.
    destruct (Settings.deref (Settings.objects w) l) as [d0|x] eqn:Hd0;
      [|discriminate].
    injection Hitems as <-.
    eexists. split.
    { exists (Settings.RRef l). split; [exact Hr|]. simpl.
      by rewrite Hheap, Hd0. }
    rewrite object_merge_lookup by done.
    apply (received_hit _ _ _ _ top); try done.
    + by apply is_object_true.
    + by apply (map_secrets_item_Some written top bw).
    + intros top' Hne Hobj'. apply is_object_true in Hobj'.
      apply map_secrets_item_None. intros bw' Hin'.
      by apply (Halias bw' top' l).
Qed.

Lemma BitwardenConfig_secret_overrides_witness :
  ∃ r w' d',
    Settings.BitwardenConfig Settings.sys_ok Settings.config_yml Settings.w0
    = (inr r, w') ∧
    Settings.section (Settings.objects w') r "stripe" d' ∧
    d' !! "api_key" = Some (Settings.RVal (PStr "sk_live")).
Proof.
  assert (Hok : match fst (Settings.BitwardenConfig Settings.sys_ok
                             Settings.config_yml Settings.w0) with
                | inr _ => true | inl _ => false end = true)
    by (vm_compute; reflexivity).
  destruct (Settings.BitwardenConfig Settings.sys_ok Settings.config_yml
              Settings.w0) as [[e|r] w'] eqn:H; [discriminate Hok|].
  destruct (BitwardenConfig_secret_overrides _ _ _ _ _ H)
    as (pid & raw & written & _ & Hraw & Hparse & Hover).
  vm_compute in Hraw. injection Hraw as <-.
  vm_compute in Hparse. injection Hparse as <-.
  edestruct (Hover "stripe_api_key" "stripe" "api_key" (PStr "sk_live"))
    as (d' & Hr & Hd').
  - do 3 apply list_elem_of_further. apply list_elem_of_here.
  - vm_compute. reflexivity.
  - exists (Settings.RRef 3). split; vm_compute; reflexivity.
  - intros bw' top' l Hne Hin _ _.
    repeat (apply elem_of_cons in Hin as [Heq|Hin]; [by simplify_eq|]).
    by apply elem_of_nil in Hin.
  - exists r, w', d'. split; [reflexivity|]. split; [exact Hr|exact Hd'].
Defined.



(** Two sections that are one object change together: with [email] an
    alias of [stripe], the key that [bws] printed for Stripe shows in the
    section [email] as well. *)
Example aliased_sections_change_together :
  ∃ r w' d,
    Settings.BitwardenConfig Settings.sys_ok Settings.config_aliased Settings.w0
    = (inr r, w') ∧
    Settings.section (Settings.objects w') r "email" d ∧
    d !! "api_key" = Some (Settings.RVal (PStr "sk_live")).
Proof.
  eexists _, _, _. split; [vm_compute; reflexivity|].
  split; [eexists; split; vm_compute; reflexivity|].
  vm_compute. reflexivity.
Qed.

(** With [jwt] an alias of [discord] and a secret printed for each under
    the nested key [secret], the section [discord] ends up with the secret
    of [jwt], which the second loop writes later. *)
Example aliased_sections_last_secret_stays :
  ∃ r w' d,
    Settings.BitwardenConfig
      (Settings.sys_printing
         (PList [py_dict [("key", PStr "discord_secret"); ("value", PStr "d")];
                 py_dict [("key", PStr "jwt_secret"); ("value", PStr "j")]]))
      (<["jwt" := Settings.RRef 2]> Settings.config_yml) Settings.w0
    = (inr r, w') ∧
    Settings.section (Settings.objects w') r "discord" d ∧
    d !! "secret" = Some (Settings.RVal (PStr "j")).
Proof.
  eexists _, _, _. split; [vm_compute; reflexivity|].
  split; [eexists; split; vm_compute; reflexivity|].
  vm_compute. reflexivity.
Qed.

(** A section of [config.yml] that is not a mapping and for which a secret
    was printed makes [BitwardenConfig] end in [TypeError], after [bws] has
    run; nothing is logged. *)
Theorem BitwardenConfig_section_not_dict Y settings w pid raw written
    bw_key top_key nested_key value x :
  Settings.bws_project_id (Settings.objects w) settings pid →
  (∀ c, c ∈ list_ascii_of_string pid → Settings.in_class c = true) →
  Settings.subprocess_stdout Y
    ["bws"; "secret"; "list"; pid; "--output"; "json"] = Some raw →
  Settings.parse_json_to_dict Y raw = inr written →
  (bw_key, (top_key, nested_key)) ∈ Settings.bitwarden_mapping →
  Settings.written_get bw_key written = Some value →
  settings !! top_key = Some x →
  Settings.items (Settings.objects w) x = None →
  ∃ w',
    Settings.BitwardenConfig Y settings w = (inl Settings.TypeError, w') ∧
    Settings.commands w'
    = (Settings.commands w ++
       [["bws"; "secret"; "list"; pid; "--output"; "json"]])%list ∧
    Settings.log w' = Settings.log w.
Proof.
  intros Hpid Hvalid Hraw Hparse Hin Hv Hx Hnd.
  rewrite (BitwardenConfig_run Y settings w pid Hpid Hvalid).
  cbv zeta. rewrite Hraw, Hparse.
  destruct (map_secrets_section_Some written top_key bw_key nested_key value
              Hin Hv) as (sec & Hsec & _).
  destruct (merge_not_dict _ settings (Settings.objects w) top_key sec x
              (map_secrets_well_formed written) Hsec Hx Hnd) as [h' Hmerge].
  unfold Settings.merging. cbn [Settings.objects]. rewrite Hmerge.
  eexists. split; [reflexivity|]. split; reflexivity.
Qed.

Lemma BitwardenConfig_section_not_dict_witness :
  fst (Settings.BitwardenConfig Settings.sys_ok
         (<["jwt" := Settings.RVal (PStr "HS256")]> Settings.config_yml)
         Settings.w0)
  = inl Settings.TypeError.
Proof.
  assert (Hpid : Settings.bws_project_id (Settings.objects Settings.w0)
                   (<["jwt" := Settings.RVal (PStr "HS256")]> Settings.config_yml)
                   "0a1b-2c3d").
  { exists (Settings.RRef 1). split; vm_compute; reflexivity. }
  assert (Hvalid : ∀ c, c ∈ list_ascii_of_string "0a1b-2c3d" →
                        Settings.in_class c = true).
  { intros c Hc. repeat (apply elem_of_cons in Hc as [->|Hc]; [reflexivity|]).
    by apply elem_of_nil in Hc. }
  assert (Hin : ("jwt_secret", ("jwt", "secret")) ∈ Settings.bitwarden_mapping).
  { do 7 apply list_elem_of_further. apply list_elem_of_here. }
  assert (Hx : (<["jwt" := Settings.RVal (PStr "HS256")]> Settings.config_yml)
               !! "jwt" = Some (Settings.RVal (PStr "HS256")))
    by (vm_compute; reflexivity).
  destruct (BitwardenConfig_section_not_dict Settings.sys_ok _ Settings.w0
              "0a1b-2c3d" _ _ "jwt_secret" "jwt" "secret" (PStr "s3cr3t")
              (Settings.RVal (PStr "HS256")) Hpid Hvalid eq_refl eq_refl Hin
              eq_refl Hx eq_refl) as (w' & -> & _).
  reflexivity.
Defined.

(** A project id with a character outside [a-z], [0-9] and [-] is refused:
    [BitwardenConfig] ends in [ValueError], which it logs, and starts no
    process. *)
Theorem BitwardenConfig_invalid_project_id Y settings w pid c :
  Settings.bws_project_id (Settings.objects w) settings pid →
  c ∈ list_ascii_of_string pid → Settings.in_class c = false →
  Settings.BitwardenConfig Y settings w
  = (inl (Settings.ValueError "Invalid project id"),
     {| Settings.commands := Settings.commands w;
        Settings.log :=
          (Settings.log w ++
           [Settings.Exception (Settings.ValueError "Invalid project id")])%list;
        Settings.objects := Settings.objects w |}).
Proof.
  intros (bws & Hbws & Hpid) Hc Hout.
  assert (Hex : existsb (fun c => negb (Settings.in_class c))
                  (list_ascii_of_string pid) = true).
  { apply existsb_exists. exists c. split; [by apply list_elem_of_In|].
    by rewrite Hout. }
  rewrite BitwardenConfig_cases. cbv zeta. by rewrite Hbws, Hpid, Hex.
Qed.

Lemma BitwardenConfig_invalid_project_id_witness :
  fst (Settings.BitwardenConfig Settings.sys_ok
         (<["bws" := Settings.RVal (py_dict [("project_id", PStr "x; rm -rf /")])]>
            Settings.config_yml) Settings.w0)
  = inl (Settings.ValueError "Invalid project id").
Proof.
  assert (Hc : ";"%char ∈ list_ascii_of_string "x; rm -rf /").
  { apply list_elem_of_further, list_elem_of_here. }
  assert (Hpid : Settings.bws_project_id (Settings.objects Settings.w0)
            (<["bws" := Settings.RVal (py_dict [("project_id", PStr "x; rm -rf /")])]>
               Settings.config_yml) "x; rm -rf /").
  { eexists. split; vm_compute; reflexivity. }
  rewrite (BitwardenConfig_invalid_project_id Settings.sys_ok _ Settings.w0
             "x; rm -rf /" ";"%char Hpid Hc eq_refl).
  reflexivity.
Defined.

Lemma BitwardenConfig_command_witness :
  Settings.commands
    (snd (Settings.BitwardenConfig Settings.sys_ok Settings.config_yml Settings.w0))
  = [["bws"; "secret"; "list"; "0a1b-2c3d"; "--output"; "json"]].
Proof.
  destruct (BitwardenConfig_command Settings.sys_ok Settings.config_yml
              Settings.w0
              (fst (Settings.BitwardenConfig Settings.sys_ok Settings.config_yml Settings.w0))
              (snd (Settings.BitwardenConfig Settings.sys_ok Settings.config_yml Settings.w0)))
    as [Hsame|(pid & (bws & Hbws & Hpid) & _ & Hcmd)].
  - vm_compute. reflexivity.
  - vm_compute in Hsame. discriminate Hsame.
  - vm_compute in Hbws. injection Hbws as <-.
    vm_compute in Hpid. injection Hpid as <-. exact Hcmd.
Defined.

(** ** [parse_json_to_dict] *)

Lemma written_get_snoc k written k' v :
  Settings.written_get k (written ++ [(PStr k', v)])
  = if String.eqb k' k then Some v else Settings.written_get k written.
Proof. unfold Settings.written_get. by rewrite fold_left_app. Qed.

Lemma written_get_map k (kvs : list (string * pyval)) :
  Settings.written_get k (map (fun kv => (PStr (fst kv), snd kv)) kvs)
  = (list_to_map (reverse kvs) : gmap string pyval) !! k.
Proof.
  induction kvs as [|[k' v] kvs IH] using rev_ind; [done|].
  rewrite map_app, reverse_snoc. simpl.
  rewrite written_get_snoc, IH.
  destruct (String.eqb_spec k' k) as [->|Hne].
  - by rewrite lookup_insert_eq.
  - by rewrite lookup_insert_ne.
Qed.

Lemma comprehension_good items : ∀ kvs written,
  Forall2 (fun item kv => ∃ d, item = PDict d ∧
             d !! "key" = Some (PStr (fst kv)) ∧ d !! "value" = Some (snd kv))
    items kvs →
  ∀ rest,
    Settings.comprehension (items ++ rest) written
    = Settings.comprehension rest
        (written ++ map (fun kv => (PStr (fst kv), snd kv)) kvs).
Proof.
  induction items as [|item items IH]; intros kvs written Hall rest.
  - apply Forall2_nil_inv_l in Hall as ->. simpl. by rewrite app_nil_r.
  - apply Forall2_cons_inv_l in Hall
      as (kv & kvs' & (d & -> & Hk & Hv) & Hall & ->).
    simpl. rewrite Hk, Hv. simpl. rewrite (IH kvs' _ Hall).
    by rewrite <- app_assoc.
Qed.

(** From a JSON array of objects that each have a string under ["key"] and
    something under ["value"], whatever else they hold,
    [parse_json_to_dict] makes the dict of the values by key; of two
    objects with the same key the later one counts. *)
Theorem parse_json_to_dict_last_wins Y json_string items kvs :
  Settings.json_loads Y json_string = Some (PList items) →
  Forall2 (fun item kv => ∃ d, item = PDict d ∧
             d !! "key" = Some (PStr (fst kv)) ∧ d !! "value" = Some (snd kv))
    items kvs →
  ∃ written,
    Settings.parse_json_to_dict Y json_string = inr written ∧
    ∀ k, Settings.written_get k written
         = (list_to_map (reverse kvs) : gmap string pyval) !! k.
Proof.
  intros Hjson Hall. eexists. split.
  - unfold Settings.parse_json_to_dict. rewrite Hjson. simpl.
    rewrite <- (app_nil_r items), (comprehension_good items kvs [] Hall []).
    reflexivity.
  - intros k. simpl. apply written_get_map.
Qed.

Lemma parse_json_to_dict_last_wins_witness :
  ∃ written,
    Settings.parse_json_to_dict
      (Settings.sys_printing
         (PList [py_dict [("key", PStr "jwt_secret"); ("value", PStr "old")];
                 py_dict [("key", PStr "jwt_secret"); ("value", PStr "new")]]))
      "..." = inr written ∧
    Settings.written_get "jwt_secret" written = Some (PStr "new").
Proof.
  destruct (parse_json_to_dict_last_wins
              (Settings.sys_printing
                 (PList [py_dict [("key", PStr "jwt_secret"); ("value", PStr "old")];
                         py_dict [("key", PStr "jwt_secret"); ("value", PStr "new")]]))
              "..." _
              [("jwt_secret", PStr "old"); ("jwt_secret", PStr "new")] eq_refl)
    as (written & Hparse & Hget).
  - repeat constructor; eexists; (split; [reflexivity|]); split; reflexivity.
  - exists written. split; [exact Hparse|]. rewrite Hget. reflexivity.
Defined.

(** The first object of the array that lacks ["key"] or ["value"], or the
    first element that is no object, decides: its exception ([KeyError] or
    [TypeError]) is the outcome, whatever follows it. *)
Theorem parse_json_to_dict_bad_item Y json_string items kvs item rest e :
  Settings.json_loads Y json_string = Some (PList (items ++ item :: rest)) →
  Forall2 (fun item kv => ∃ d, item = PDict d ∧
             d !! "key" = Some (PStr (fst kv)) ∧ d !! "value" = Some (snd kv))
    items kvs →
  Settings.getitem item "key" = inl e ∨
  ((∃ k, Settings.getitem item "key" = inr k) ∧
   Settings.getitem item "value" = inl e) →
  Settings.parse_json_to_dict Y json_string = inl e ∧
  (e = Settings.TypeError ∨ e = Settings.KeyError "key" ∨
   e = Settings.KeyError "value").
Proof.
  intros Hjson Hall Hbad. split.
  - unfold Settings.parse_json_to_dict. rewrite Hjson. simpl.
    rewrite (comprehension_good items kvs [] Hall). simpl.
    destruct Hbad as [->|[[k ->] ->]]; done.
  - unfold Settings.getitem in Hbad.
    destruct item as [| | | | | |d]; try (left; by destruct Hbad as [[= <-]|[_ [= <-]]]).
    destruct Hbad as [Hk|[_ Hv]].
    + destruct (d !! "key"); [done|]. injection Hk as <-. right. by left.
    + destruct (d !! "value"); [done|]. injection Hv as <-. right. by right.
Qed.

Lemma parse_json_to_dict_bad_item_witness :
  Settings.parse_json_to_dict
    (Settings.sys_printing
       (PList [py_dict [("key", PStr "a"); ("value", PStr "1")];
               py_dict [("key", PStr "b")]])) "..."
  = inl (Settings.KeyError "value").
Proof.
  apply (parse_json_to_dict_bad_item
           (Settings.sys_printing
              (PList [py_dict [("key", PStr "a"); ("value", PStr "1")];
                      py_dict [("key", PStr "b")]])) "..."
           [py_dict [("key", PStr "a"); ("value", PStr "1")]]
           [("a", PStr "1")] (py_dict [("key", PStr "b")]) []).
  - reflexivity.
  - repeat constructor. eexists. split; [reflexivity|]. split; reflexivity.
  - right. split; [by eexists|reflexivity].
Defined.

(** What is not an array: the empty object and the empty string give the
    empty dict, [null], a boolean or a number and every object or string
    that is not empty give [TypeError]. *)
Theorem parse_json_to_dict_not_an_array Y json_string data :
  Settings.json_loads Y json_string = Some data →
  (∀ l, data ≠ PList l) →
  (data = PDict ∅ ∨ data = PStr "" →
   Settings.parse_json_to_dict Y json_string = inr []) ∧
  (data ≠ PDict ∅ → data ≠ PStr "" →
   Settings.parse_json_to_dict Y json_string = inl Settings.TypeError).
Proof.
  intros Hjson Hnl. unfold Settings.parse_json_to_dict. rewrite Hjson.
  split.
  - intros [-> | ->]; simpl; [|done]. by rewrite map_to_list_empty.
  - intros Hd Hs. destruct data as [|b|z|f|s|l|d]; simpl; try done.
    + destruct s as [|c s]; [done|reflexivity].
    + by destruct (Hnl l).
    + destruct (map_to_list d) as [|[k v] kvs] eqn:Hl; [|reflexivity].
      apply map_to_list_empty_iff in Hl as ->. done.
Qed.

Lemma parse_json_to_dict_not_an_array_witness :
  Settings.parse_json_to_dict
    (Settings.sys_printing (py_dict [("error", PStr "denied")])) "..."
  = inl Settings.TypeError.
Proof.
  apply (parse_json_to_dict_not_an_array
           (Settings.sys_printing (py_dict [("error", PStr "denied")])) "..."
           (py_dict [("error", PStr "denied")]) eq_refl);
    [discriminate| |discriminate].
  intros H.
  assert (Hl : match py_dict [("error", PStr "denied")] with
               | PDict d => d !! "error" | _ => None end
               = Some (PStr "denied")) by reflexivity.
  rewrite H in Hl. discriminate Hl.
Defined.

(** ** The body of the module *)

Lemma sbind_inr {A B} (m : Settings.S A) (k : A → Settings.S B) w b w' :
  Settings.bind m k w = (inr b, w') →
  ∃ a w1, m w = (inr a, w1) ∧ k a w1 = (inr b, w').
Proof.
  unfold Settings.bind. destruct (m w) as [[e|a] w1]; [discriminate|]. eauto.
Qed.

Lemma construct_inr Y cls v c w w' :
  Settings.construct Y cls v w = (inr c, w') →
  w' = w ∧ ∃ d fields,
    Settings.items (Settings.objects w) v = Some d ∧
    Settings.validate Y cls d (Settings.objects w) = Some fields ∧
    c = Settings.Config cls fields.
Proof.
  unfold Settings.construct.
  destruct (Settings.items (Settings.objects w) v) as [d|]; [|discriminate].
  destruct (Settings.validate Y cls d (Settings.objects w)) as [fields|] eqn:Hv;
    [|discriminate].
  intros [= <- <-]. split; [done|]. by exists d, fields.
Qed.

Lemma required_inr Y settings cls key c w w' :
  Settings.required Y settings cls key w = (inr c, w') →
  w' = w ∧ Settings.configured Y (Settings.objects w) settings cls key c.
Proof.
  unfold Settings.required. intros (v & w1 & Hv & Hc)%sbind_inr.
  unfold Settings.lift, Settings.top_getitem in Hv.
  destruct (settings !! key) as [x|] eqn:Hkey; [|discriminate].
  injection Hv as <- <-.
  apply construct_inr in Hc as (-> & d & fields & Hd & Hval & ->).
  split; [done|]. exists d, fields. split; [by exists x|done].
Qed.

Lemma optional_inr Y settings cls key msg oc w w' :
  Settings.optional Y settings cls key msg w = (inr oc, w') →
  (Settings.present (Settings.objects w) settings key = true ∧ w' = w ∧
   ∃ c, oc = Some c ∧
        Settings.configured Y (Settings.objects w) settings cls key c) ∨
  (Settings.present (Settings.objects w) settings key = false ∧ oc = None ∧
   w' = {| Settings.commands := Settings.commands w;
           Settings.log := (Settings.log w ++ [Settings.Warning msg])%list;
           Settings.objects := Settings.objects w |}).
Proof.
  unfold Settings.optional, Settings.present.
  destruct (Settings.r_truthy (Settings.objects w)
              (Settings.top_get settings key)).
  - intros (c & w1 & Hc & Hret)%sbind_inr.
    apply required_inr in Hc as [-> Hc]. injection Hret as <- <-.
    left. repeat split. by exists c.
  - intros [= <- <-]. by right.
Qed.

(** What a run of the module body that reaches its end has done. *)
Lemma module_body_inr Y settings w d w' :
  Settings.module_body Y settings w = (inr d, w') →
  ∃ enable s' w1,
    Settings.r_get (Settings.objects w) (Settings.top_get settings "bws")
      "enable" = inr enable ∧
    (if Settings.r_truthy (Settings.objects w) enable
     then Settings.BitwardenConfig Y settings w = (inr s', w1)
     else s' = settings ∧ w1 = w) ∧
    let h := Settings.objects w1 in
    Settings.present h s' "discord" = true ∧
    Settings.configured Y h s' "DiscordConfig" "discord" (Settings.discord d) ∧
    Settings.configured Y h s' "StripeConfig" "stripe" (Settings.stripe d) ∧
    Settings.configured Y h s' "EmailConfig" "email" (Settings.email d) ∧
    Settings.configured Y h s' "JwtConfig" "jwt" (Settings.jwt d) ∧
    Settings.configured Y h s' "InfraConfig" "infra" (Settings.infra d) ∧
    Settings.configured Y h s' "TelemetryConfig" "telemetry"
      (Settings.telemetry d) ∧
    Settings.configured Y h s' "HttpConfig" "http" (Settings.http d) ∧
    (if Settings.present h s' "keycloak"
     then ∃ c, Settings.keycloak d = Some c ∧
               Settings.configured Y h s' "KeycloakConfig" "keycloak" c
     else Settings.keycloak d = None) ∧
    (if Settings.present h s' "database"
     then Settings.configured Y h s' "DatabaseConfig" "database"
            (Settings.database d)
     else Settings.built Y h "DatabaseConfig"
            [("url", PStr "sqlite:///:memory:")] (Settings.database d)) ∧
    (if Settings.present h s' "redis"
     then Settings.configured Y h s' "RedisConfig" "redis" (Settings.redis d)
     else Settings.built Y h "RedisConfig"
            [("host", PStr "localhost"); ("db", PInt 0); ("port", PInt 6379)]
            (Settings.redis d)) ∧
    Settings.commands w' = Settings.commands w1 ∧
    Settings.objects w' = h ∧
    Settings.log w'
    = (Settings.log w1 ++
       Settings.missing h s' "keycloak" "Missing Keycloak Config" ++
       Settings.missing h s' "database" "Missing database config" ++
       Settings.missing h s' "redis" "Missing redis config")%list.
Proof.
  intros H. unfold Settings.module_body in H.
  apply sbind_inr in H as (enable & wa & Hen & H).
  unfold Settings.reading, Settings.lift in Hen.
  destruct (Settings.r_get (Settings.objects w)
              (Settings.top_get settings "bws") "enable")
    as [e|en] eqn:Hg; [discriminate|].
  injection Hen as -> <-.
  apply sbind_inr in H as (s' & w1 & Hs & H).
  exists enable, s', w1. split; [done|]. split.
  { destruct (Settings.r_truthy (Settings.objects w) enable); [done|].
    by injection Hs as <- <-. }
  cbv zeta.
  apply sbind_inr in H as (dc & w2 & Hdc & H).
  apply sbind_inr in H as (sc & w3 & Hsc & H).
  apply required_inr in Hsc as [-> Hsc].
  apply sbind_inr in H as (ec & w3 & Hec & H).
  apply required_inr in Hec as [-> Hec].
  apply sbind_inr in H as (jc & w3 & Hjc & H).
  apply required_inr in Hjc as [-> Hjc].
  apply sbind_inr in H as (ic & w3 & Hic & H).
  apply required_inr in Hic as [-> Hic].
  apply sbind_inr in H as (kc & w3 & Hkc & H).
  apply sbind_inr in H as (tc & w4 & Htc & H).
  apply required_inr in Htc as [-> Htc].
  apply sbind_inr in H as (bc & w4 & Hbc & H).
  apply sbind_inr in H as (rc & w5 & Hrc & H).
  apply sbind_inr in H as (hc & w6 & Hhc & H).
  apply required_inr in Hhc as [-> Hhc].
  apply sbind_inr in H as (dd & w6 & Hdd & H).
  apply sbind_inr in H as (bd & w7 & Hbd & H).
  apply sbind_inr in H as (rd & w8 & Hrd & H).
  injection H as <- <-. cbn [Settings.discord Settings.stripe Settings.email
    Settings.jwt Settings.database Settings.infra Settings.redis Settings.http
    Settings.keycloak Settings.telemetry].
  destruct dc as [dc|]; [|discriminate]. injection Hdd as -> <-.
  apply optional_inr in Hdc as [(Hdt & -> & c & [= <-] & Hdc)|(_ & [=] & _)].
  (* the states: nothing after the Bitwarden step touches the objects *)
  assert (Hw3 : Settings.objects w3 = Settings.objects w1 ∧
                Settings.commands w3 = Settings.commands w1 ∧
                Settings.log w3
                = (Settings.log w1 ++
                   Settings.missing (Settings.objects w1) s' "keycloak"
                     "Missing Keycloak Config")%list ∧
                if Settings.present (Settings.objects w1) s' "keycloak"
                then ∃ c, kc = Some c ∧
                          Settings.configured Y (Settings.objects w1) s'
                            "KeycloakConfig" "keycloak" c
                else kc = None).
  { unfold Settings.missing.
    apply optional_inr in Hkc as [(Ht & -> & c & -> & Hc)|(Ht & -> & ->)];
      rewrite Ht; cbn [Settings.objects Settings.commands Settings.log].
    - rewrite app_nil_r. repeat split. by exists c.
    - done. }
  destruct Hw3 as (Ho3 & Hc3 & Hl3 & Hk).
  rewrite Ho3 in Htc.
  assert (Hw4 : Settings.objects w4 = Settings.objects w1 ∧
                Settings.commands w4 = Settings.commands w1 ∧
                Settings.log w4
                = (Settings.log w3 ++
                   Settings.missing (Settings.objects w1) s' "database"
                     "Missing database config")%list ∧
                if Settings.present (Settings.objects w1) s' "database"
                then ∃ c, bc = Some c ∧
                          Settings.configured Y (Settings.objects w1) s'
                            "DatabaseConfig" "database" c
                else bc = None).
  { unfold Settings.missing.
    apply optional_inr in Hbc as [(Ht & -> & c & -> & Hc)|(Ht & -> & ->)];
      rewrite Ho3 in Ht; rewrite Ht;
      cbn [Settings.objects Settings.commands Settings.log].
    - rewrite app_nil_r, Ho3 in *. repeat split; try done. by exists c.
    - by rewrite Ho3. }
  destruct Hw4 as (Ho4 & Hc4 & Hl4 & Hb).
  assert (Hw5 : Settings.objects w5 = Settings.objects w1 ∧
                Settings.commands w5 = Settings.commands w1 ∧
                Settings.log w5
                = (Settings.log w4 ++
                   Settings.missing (Settings.objects w1) s' "redis"
                     "Missing redis config")%list ∧
                if Settings.present (Settings.objects w1) s' "redis"
                then ∃ c, rc = Some c ∧
                          Settings.configured Y (Settings.objects w1) s'
                            "RedisConfig" "redis" c
                else rc = None).
  { unfold Settings.missing.
    apply optional_inr in Hrc as [(Ht & -> & c & -> & Hc)|(Ht & -> & ->)];
      rewrite Ho4 in Ht; rewrite Ht;
      cbn [Settings.objects Settings.commands Settings.log].
    - rewrite app_nil_r, Ho4 in *. repeat split; try done. by exists c.
    - by rewrite Ho4. }
  destruct Hw5 as (Ho5 & Hc5 & Hl5 & Hr).
  rewrite Ho5 in Hhc.
  do 8 (split; [done|]).
  assert (Hbd' : w7 = w5 ∧
    if Settings.present (Settings.objects w1) s' "database"
    then Settings.configured Y (Settings.objects w1) s' "DatabaseConfig"
           "database" bd
    else Settings.built Y (Settings.objects w1) "DatabaseConfig"
           [("url", PStr "sqlite:///:memory:")] bd).
  { destruct (Settings.present (Settings.objects w1) s' "database").
    - destruct Hb as (c & -> & Hc). by injection Hbd as -> ->.
    - subst bc. apply construct_inr in Hbd as (-> & x & f & Hx & Hv & ->).
      split; [done|]. injection Hx as <-. rewrite Ho5 in Hv. by exists f. }
  destruct Hbd' as [-> Hbd'].
  assert (Hrd' : w8 = w5 ∧
    if Settings.present (Settings.objects w1) s' "redis"
    then Settings.configured Y (Settings.objects w1) s' "RedisConfig"
           "redis" rd
    else Settings.built Y (Settings.objects w1) "RedisConfig"
           [("host", PStr "localhost"); ("db", PInt 0); ("port", PInt 6379)]
           rd).
  { destruct (Settings.present (Settings.objects w1) s' "redis").
    - destruct Hr as (c & -> & Hc). by injection Hrd as -> ->.
    - subst rc. apply construct_inr in Hrd as (-> & x & f & Hx & Hv & ->).
      split; [done|]. injection Hx as <-. rewrite Ho5 in Hv. by exists f. }
  destruct Hrd' as [-> Hrd'].
  split.
  { destruct (Settings.present (Settings.objects w1) s' "keycloak"); [|done].
    destruct Hk as (c & -> & Hc). by exists c. }
  split; [done|]. split; [done|]. split; [done|]. split; [done|].
  by rewrite Hl5, Hl4, Hl3, <- !app_assoc.
Qed.

(** The settings the configuration objects are built from: [config.yml]
    itself, or what [BitwardenConfig] made of it.  Either way a section
    that is a mapping was one in [config.yml], a section the mapping does
    not name is the same value, and an object that none of the sections
    named by the mapping is stays as it was. *)
Lemma final_settings Y settings w enable s' w1 :
  (if Settings.r_truthy (Settings.objects w) enable
   then Settings.BitwardenConfig Y settings w = (inr s', w1)
   else s' = settings ∧ w1 = w) →
  Settings.log w1 = Settings.log w ∧
  (∀ top d', Settings.section (Settings.objects w1) s' top d' →
             ∃ d, Settings.section (Settings.objects w) settings top d) ∧
  (∀ top, (∀ bw n, (bw, (top, n)) ∉ Settings.bitwarden_mapping) →
          s' !! top = settings !! top) ∧
  (∀ l, (∀ bw top n, (bw, (top, n)) ∈ Settings.bitwarden_mapping →
                     settings !! top ≠ Some (Settings.RRef l)) →
        Settings.deref (Settings.objects w1) l
        = Settings.deref (Settings.objects w) l).
Proof.
  destruct (Settings.r_truthy (Settings.objects w) enable).
  - intros (pid & raw & written & _ & _ & _ & Hmerge & _ & Hlog)
      %BitwardenConfig_inr.
    pose proof (map_secrets_well_formed written) as Hwf.
    destruct (merge_inr _ _ _ _ _ Hwf Hmerge) as (Hobj & Hr & Hheap).
    split; [done|]. split; [|split].
    + intros top d' (v & Hv & Hitems). rewrite Hr in Hv.
      destruct (settings !! top) as [x|] eqn:Hx; [|done].
      destruct x as [y|l].
      * assert (∃ d0, y = PDict d0) as [d0 ->].
        { destruct y; try (injection Hv as <-; discriminate Hitems).
          by eexists. }
        eexists. exists (Settings.RVal (PDict d0)). by split.
      * injection Hv as <-. simpl in Hitems. rewrite Hheap in Hitems.
        destruct (Settings.deref (Settings.objects w) l) as [d0|] eqn:Hd0;
          [|discriminate].
        exists d0, (Settings.RRef l). split; [done|]. simpl. by rewrite Hd0.
    + intros top Hnot. rewrite Hr, map_secrets_section_None.
      * by destruct (settings !! top) as [[[]|]|].
      * intros bw n Hin. by destruct (Hnot bw n).
    + intros l Hnot. rewrite Hheap.
      destruct (Settings.deref (Settings.objects w) l) as [d|x]; [|done].
      f_equal. apply map_eq. intros n. rewrite object_merge_lookup by done.
      apply received_miss; [done|]. intros top Hobj'%is_object_true.
      apply map_secrets_item_None. intros bw Hin.
      by destruct (Hnot bw top n Hin).
  - intros [-> ->]. split; [done|]. split; [|done].
    intros top d' H. by exists d'.
Qed.


Lemma configured_section Y h settings cls key c :
  Settings.configured Y h settings cls key c →
  ∃ d, Settings.section h settings key d.
Proof. intros (d & f & Hd & _). by exists d. Qed.


(** The module can only be imported when [config.yml] has the sections
    [bws], [discord], [stripe], [email], [jwt], [infra], [telemetry] and
    [http], each of them a mapping: with one of them missing or of another
    type the module body raises, whether or not Bitwarden is enabled. *)
Theorem module_body_needs_sections Y settings w d w' :
  Settings.module_body Y settings w = (inr d, w') →
  ∀ key,
    key ∈ ["bws"; "discord"; "stripe"; "email"; "jwt"; "infra"; "telemetry";
           "http"] →
    ∃ items, Settings.section (Settings.objects w) settings key items.
Proof.
  intros (enable & s' & w1 & Hen & Hs & _ & Hdi & Hst & Hem & Hjw & Hin & Hte
          & Hht & _)%module_body_inr.
  destruct (final_settings _ _ _ _ _ _ Hs) as (_ & Hback & _).
  intros key Hkey.
  apply elem_of_cons in Hkey as [->|Hkey].
  { unfold Settings.r_get, Settings.top_get in Hen.
    destruct (settings !! "bws") as [v|] eqn:Hv; [|discriminate].
    simpl in Hen.
    destruct (Settings.items (Settings.objects w) v) as [its|] eqn:Hits;
      [|discriminate].
    exists its, v. by split. }
  repeat (apply elem_of_cons in Hkey as [->|Hkey];
          [match goal with
           | H : Settings.configured _ _ _ _ ?k _
             |- ∃ _, Settings.section _ _ ?k _ =>
               apply configured_section in H as [x Hx]; exact (Hback _ _ Hx)
           end|]).
  by apply elem_of_nil in Hkey.
Qed.

Lemma module_body_needs_sections_witness :
  ∃ d w' items,
    Settings.module_body Settings.sys_ok Settings.config_yml Settings.w0
    = (inr d, w') ∧
    Settings.section (Settings.objects Settings.w0) Settings.config_yml "jwt"
      items.
Proof.
  assert (Hok : match fst (Settings.module_body Settings.sys_ok
                             Settings.config_yml Settings.w0) with
                | inr _ => true | inl _ => false end = true)
    by (vm_compute; reflexivity).
  destruct (Settings.module_body Settings.sys_ok Settings.config_yml
              Settings.w0) as [[e|d] w'] eqn:H; [discriminate Hok|].
  destruct (module_body_needs_sections _ _ _ _ _ H "jwt") as [items Hs].
  - do 4 apply list_elem_of_further. apply list_elem_of_here.
  - exists d, w', items. split; [reflexivity|exact Hs].
Defined.



Lemma sbind_ok {A B} (m : Settings.S A) (k : A → Settings.S B) w a w1 :
  m w = (inr a, w1) → Settings.bind m k w = k a w1.
Proof. unfold Settings.bind. by intros ->. Qed.

Lemma construct_items_ok Y cls v kwargs fields w :
  Settings.items (Settings.objects w) v = Some kwargs →
  Settings.validate Y cls kwargs (Settings.objects w) = Some fields →
  Settings.construct Y cls v w = (inr (Settings.Config cls fields), w).
Proof. intros Hi Hv. unfold Settings.construct. by rewrite Hi, Hv. Qed.

Lemma required_ok Y settings cls key c w :
  Settings.configured Y (Settings.objects w) settings cls key c →
  Settings.required Y settings cls key w = (inr c, w).
Proof.
  intros (d & f & (v & Hv & Hd) & Hval & ->).
  unfold Settings.required, Settings.bind, Settings.lift,
    Settings.top_getitem, Settings.ret.
  rewrite Hv. by apply construct_items_ok with d.
Qed.

Lemma construct_ok Y cls kwargs c w :
  Settings.built Y (Settings.objects w) cls kwargs c →
  Settings.construct Y cls (Settings.RVal (py_dict kwargs)) w = (inr c, w).
Proof.
  intros (f & Hv & ->).
  by apply construct_items_ok with (Settings.RVal <$> list_to_map kwargs).
Qed.

Lemma optional_run Y settings cls key msg w :
  (Settings.present (Settings.objects w) settings key = true →
   ∃ c, Settings.configured Y (Settings.objects w) settings cls key c) →
  ∃ oc,
    Settings.optional Y settings cls key msg w
    = (inr oc,
       {| Settings.commands := Settings.commands w;
          Settings.log :=
            (Settings.log w
             ++ Settings.missing (Settings.objects w) settings key msg)%list;
          Settings.objects := Settings.objects w |}) ∧
    (is_Some oc ↔ Settings.present (Settings.objects w) settings key = true).
Proof.
  intros Hc. unfold Settings.optional, Settings.missing, Settings.present in *.
  destruct (Settings.r_truthy (Settings.objects w)
              (Settings.top_get settings key)).
  - destruct (Hc eq_refl) as [c Hcc]. exists (Some c).
    rewrite (sbind_ok _ _ _ _ _ (required_ok _ _ _ _ _ w Hcc)).
    unfold Settings.ret. rewrite app_nil_r. destruct w. split; [done|].
    split; [done|]. by eexists.
  - exists None. split; [done|]. split; [by intros [? ?]|done].
Qed.

(** The course of the module body once the final settings [s'] are there
    and in order: everything is built, and only then does the class
    [Settings] find out whether [discord_config] was bound. *)
Lemma module_body_run Y settings w enable s' w1 :
  Settings.r_get (Settings.objects w) (Settings.top_get settings "bws")
    "enable" = inr enable →
  (if Settings.r_truthy (Settings.objects w) enable
   then Settings.BitwardenConfig Y settings w = (inr s', w1)
   else s' = settings ∧ w1 = w) →
  Settings.in_order Y (Settings.objects w1) s' →
  let h := Settings.objects w1 in
  ∃ w',
    Settings.commands w' = Settings.commands w1 ∧
    Settings.objects w' = h ∧
    Settings.log w'
    = (Settings.log w1 ++
       Settings.missing h s' "discord" "Missing discord config" ++
       Settings.missing h s' "keycloak" "Missing Keycloak Config" ++
       Settings.missing h s' "database" "Missing database config" ++
       Settings.missing h s' "redis" "Missing redis config")%list ∧
    if Settings.present h s' "discord"
    then ∃ d, Settings.module_body Y settings w = (inr d, w')
    else Settings.module_body Y settings w
         = (inl (Settings.NameError "discord_config"), w').
Proof.
  intros Hen Hs (Hreq & Hopt & Hdb & Hrd). cbv zeta.
  assert (Hstart : ∀ B (k : Settings.rdict → Settings.S B),
    Settings.bind
      (fun w => if Settings.r_truthy (Settings.objects w) enable
                then Settings.BitwardenConfig Y settings w
                else Settings.ret settings w) k w = k s' w1).
  { intros B k. apply sbind_ok.
    destruct (Settings.r_truthy (Settings.objects w) enable); [done|].
    by destruct Hs as [-> ->]. }
  destruct (optional_run Y s' "DiscordConfig" "discord"
              "Missing discord config" w1) as (dc & Hdc & Hdct).
  { apply Hopt. apply list_elem_of_here. }
  set (w2 := {| Settings.commands := _ |}) in Hdc.
  destruct (Hreq "StripeConfig" "stripe") as [sc Hsc];
    [apply list_elem_of_here|].
  destruct (Hreq "EmailConfig" "email") as [ec Hec];
    [do 1 apply list_elem_of_further; apply list_elem_of_here|].
  destruct (Hreq "JwtConfig" "jwt") as [jc Hjc];
    [do 2 apply list_elem_of_further; apply list_elem_of_here|].
  destruct (Hreq "InfraConfig" "infra") as [ic Hic];
    [do 3 apply list_elem_of_further; apply list_elem_of_here|].
  destruct (Hreq "TelemetryConfig" "telemetry") as [tc Htc];
    [do 4 apply list_elem_of_further; apply list_elem_of_here|].
  destruct (Hreq "HttpConfig" "http") as [hc Hhc];
    [do 5 apply list_elem_of_further; apply list_elem_of_here|].
  destruct (optional_run Y s' "KeycloakConfig" "keycloak"
              "Missing Keycloak Config" w2) as (kc & Hkc & Hkct).
  { apply Hopt. do 1 apply list_elem_of_further. apply list_elem_of_here. }
  set (w3 := {| Settings.commands := _ |}) in Hkc.
  destruct (optional_run Y s' "DatabaseConfig" "database"
              "Missing database config" w3) as (bc & Hbc & Hbct).
  { apply Hopt. do 2 apply list_elem_of_further. apply list_elem_of_here. }
  set (w4 := {| Settings.commands := _ |}) in Hbc.
  destruct (optional_run Y s' "RedisConfig" "redis"
              "Missing redis config" w4) as (rc & Hrc & Hrct).
  { apply Hopt. do 3 apply list_elem_of_further. apply list_elem_of_here. }
  set (w5 := {| Settings.commands := _ |}) in Hrc.
  exists w5. split; [done|]. split; [done|]. split.
  { subst w5 w4 w3 w2. cbn [Settings.log Settings.objects].
    by rewrite <- !app_assoc. }
  assert (Hbd : ∃ bd,
    match bc with
    | Some c => Settings.ret c
    | None =>
        Settings.construct Y "DatabaseConfig"
          (Settings.RVal (py_dict [("url", PStr "sqlite:///:memory:")]))
    end w5 = (inr bd, w5)).
  { destruct bc as [c|]; [by exists c|].
    destruct Hdb as [c Hc].
    - destruct (Settings.present (Settings.objects w1) s' "database") eqn:Hp;
        [|done].
      by destruct (proj2 Hbct Hp).
    - exists c. by apply construct_ok. }
  destruct Hbd as [bd Hbd].
  assert (Hrdd : ∃ rd,
    match rc with
    | Some c => Settings.ret c
    | None =>
        Settings.construct Y "RedisConfig"
          (Settings.RVal (py_dict [("host", PStr "localhost"); ("db", PInt 0);
                                   ("port", PInt 6379)]))
    end w5 = (inr rd, w5)).
  { destruct rc as [c|]; [by exists c|].
    destruct Hrd as [c Hc].
    - destruct (Settings.present (Settings.objects w1) s' "redis") eqn:Hp;
        [|done].
      by destruct (proj2 Hrct Hp).
    - exists c. by apply construct_ok. }
  destruct Hrdd as [rd Hrdd].
  assert (Hrun : Settings.module_body Y settings w
    = match dc with
      | Some c =>
          (inr {| Settings.discord := c; Settings.stripe := sc;
                  Settings.email := ec; Settings.jwt := jc;
                  Settings.database := bd; Settings.infra := ic;
                  Settings.redis := rd; Settings.http := hc;
                  Settings.keycloak := kc; Settings.telemetry := tc |}, w5)
      | None => (inl (Settings.NameError "discord_config"), w5)
      end).
  { unfold Settings.module_body.
    rewrite (sbind_ok (Settings.reading _) _ w enable w)
      by (unfold Settings.reading, Settings.lift; by rewrite Hen).
    rewrite Hstart.
    rewrite (sbind_ok _ _ _ _ _ Hdc).
    rewrite (sbind_ok _ _ _ _ _ (required_ok _ _ _ _ _ w2 Hsc)).
    rewrite (sbind_ok _ _ _ _ _ (required_ok _ _ _ _ _ w2 Hec)).
    rewrite (sbind_ok _ _ _ _ _ (required_ok _ _ _ _ _ w2 Hjc)).
    rewrite (sbind_ok _ _ _ _ _ (required_ok _ _ _ _ _ w2 Hic)).
    rewrite (sbind_ok _ _ _ _ _ Hkc).
    rewrite (sbind_ok _ _ _ _ _ (required_ok _ _ _ _ _ w3 Htc)).
    rewrite (sbind_ok _ _ _ _ _ Hbc).
    rewrite (sbind_ok _ _ _ _ _ Hrc).
    rewrite (sbind_ok _ _ _ _ _ (required_ok _ _ _ _ _ w5 Hhc)).
    destruct dc as [c|]; [|done].
    rewrite (sbind_ok (Settings.ret c) _ w5 c w5) by done.
    rewrite (sbind_ok _ _ _ _ _ Hbd).
    rewrite (sbind_ok _ _ _ _ _ Hrdd).
    done. }
  rewrite Hrun.
  destruct (Settings.present (Settings.objects w1) s' "discord").
  - destruct (proj2 Hdct eq_refl) as [c ->]. by eexists.
  - destruct dc as [c|]; [|done].
    discriminate (proj1 Hdct (ex_intro _ c eq_refl)).
Qed.

(** With a pydantic that accepts everything, settings are in order as soon
    as the sections looked at are mappings. *)
Lemma in_order_sys_ok h (s : Settings.rdict) :
  forallb (fun e : string * string =>
             match s !! snd e with
             | Some v => match Settings.items h v with
                         | Some _ => true
                         | None => false
                         end
             | None => false
             end)
    Settings.required_sections = true →
  forallb (fun e : string * string =>
             match s !! snd e with
             | Some v => match Settings.items h v with
                         | Some _ => true
                         | None => negb (Settings.r_truthy h v)
                         end
             | None => true
             end)
    Settings.optional_sections = true →
  Settings.in_order Settings.sys_ok h s.
Proof.
  intros Hreq Hopt. rewrite forallb_forall in Hreq, Hopt.
  split; [|split; [|split]].
  - intros cls key Hin. apply list_elem_of_In in Hin.
    specialize (Hreq _ Hin). simpl in Hreq.
    destruct (s !! key) as [v|] eqn:Hv; [|discriminate].
    destruct (Settings.items h v) as [d|] eqn:Hd; [|discriminate].
    exists (Settings.Config cls d), d, d. split; [by exists v|done].
  - intros cls key Hin Ht. apply list_elem_of_In in Hin.
    specialize (Hopt _ Hin). simpl in Hopt.
    unfold Settings.present, Settings.top_get in Ht.
    destruct (s !! key) as [v|] eqn:Hv; [|discriminate Ht].
    simpl in Ht.
    destruct (Settings.items h v) as [d|] eqn:Hd;
      [|rewrite Ht in Hopt; discriminate].
    exists (Settings.Config cls d), d, d. split; [by exists v|done].
  - intros _. eexists. eexists. by split.
  - intros _. eexists. eexists. by split.
Qed.

(** The Discord section is tested like the optional ones, but nothing is
    bound to [discord_config] when it is missing, and the class [Settings]
    reads that name: a configuration in order in everything else, without
    a Discord section (or with an empty one), gets through the building of
    all the other objects, one warning for Discord and one for each other
    missing optional section, and then ends in [NameError], with no
    process started after Bitwarden's. *)
Theorem module_body_discord_missing Y settings w enable s' w1 :
  Settings.r_get (Settings.objects w) (Settings.top_get settings "bws")
    "enable" = inr enable →
  (if Settings.r_truthy (Settings.objects w) enable
   then Settings.BitwardenConfig Y settings w = (inr s', w1)
   else s' = settings ∧ w1 = w) →
  Settings.in_order Y (Settings.objects w1) s' →
  Settings.present (Settings.objects w1) s' "discord" = false →
  ∃ w',
    Settings.module_body Y settings w
    = (inl (Settings.NameError "discord_config"), w') ∧
    Settings.commands w' = Settings.commands w1 ∧
    Settings.objects w' = Settings.objects w1 ∧
    Settings.log w'
    = (Settings.log w1 ++
       [Settings.Warning "Missing discord config"] ++
       Settings.missing (Settings.objects w1) s' "keycloak"
         "Missing Keycloak Config" ++
       Settings.missing (Settings.objects w1) s' "database"
         "Missing database config" ++
       Settings.missing (Settings.objects w1) s' "redis"
         "Missing redis config")%list.
Proof.
  intros Hen Hs Hord Hd.
  destruct (module_body_run _ _ _ _ _ _ Hen Hs Hord)
    as (w' & Hc & Ho & Hl & Hrun).
  rewrite Hd in Hrun. exists w'. split; [done|]. split; [done|].
  split; [done|].
  rewrite Hl. unfold Settings.missing at 1. by rewrite Hd.
Qed.

Lemma module_body_discord_missing_witness :
  ∃ w',
    Settings.module_body Settings.sys_ok Settings.config_plain Settings.w0
    = (inl (Settings.NameError "discord_config"), w') ∧
    Settings.commands w' = [] ∧
    Settings.log w'
    = [Settings.Warning "Missing discord config";
       Settings.Warning "Missing Keycloak Config";
       Settings.Warning "Missing database config";
       Settings.Warning "Missing redis config"].
Proof.
  assert (Hen : Settings.r_get (Settings.objects Settings.w0)
                  (Settings.top_get Settings.config_plain "bws") "enable"
                = inr (Settings.RVal (PBool false)))
    by (vm_compute; reflexivity).
  assert (Hord : Settings.in_order Settings.sys_ok
                   (Settings.objects Settings.w0) Settings.config_plain)
    by (apply in_order_sys_ok; vm_compute; reflexivity).
  assert (Hd : Settings.present (Settings.objects Settings.w0)
                 Settings.config_plain "discord" = false)
    by (vm_compute; reflexivity).
  destruct (module_body_discord_missing Settings.sys_ok Settings.config_plain
              Settings.w0 (Settings.RVal (PBool false)) Settings.config_plain
              Settings.w0 Hen (conj eq_refl eq_refl) Hord Hd)
    as (w' & Hrun & Hc & _ & Hl).
  exists w'. split; [exact Hrun|]. split; [exact Hc|exact Hl].
Defined.

(** A configuration in order, with a Discord section that is not empty,
    is loaded: the module body reaches its end, and Bitwarden's is the
    only process it may have started. *)
Theorem module_body_loads Y settings w enable s' w1 :
  Settings.r_get (Settings.objects w) (Settings.top_get settings "bws")
    "enable" = inr enable →
  (if Settings.r_truthy (Settings.objects w) enable
   then Settings.BitwardenConfig Y settings w = (inr s', w1)
   else s' = settings ∧ w1 = w) →
  Settings.in_order Y (Settings.objects w1) s' →
  Settings.present (Settings.objects w1) s' "discord" = true →
  ∃ d w',
    Settings.module_body Y settings w = (inr d, w') ∧
    Settings.commands w' = Settings.commands w1 ∧
    Settings.objects w' = Settings.objects w1.
Proof.
  intros Hen Hs Hord Hd.
  destruct (module_body_run _ _ _ _ _ _ Hen Hs Hord)
    as (w' & Hc & Ho & Hl & Hrun).
  rewrite Hd in Hrun. destruct Hrun as [d Hrun]. by exists d, w'.
Qed.

Lemma module_body_loads_witness :
  ∃ d w',
    Settings.module_body Settings.sys_ok Settings.config_yml Settings.w0
    = (inr d, w') ∧
    Settings.commands w'
    = [["bws"; "secret"; "list"; "0a1b-2c3d"; "--output"; "json"]].
Proof.
  set (run := Settings.BitwardenConfig Settings.sys_ok Settings.config_yml
                Settings.w0).
  set (s' := match fst run with inr s => s | inl _ => ∅ end).
  assert (Hen : Settings.r_get (Settings.objects Settings.w0)
                  (Settings.top_get Settings.config_yml "bws") "enable"
                = inr (Settings.RVal (PBool true)))
    by (vm_compute; reflexivity).
  assert (Hs : Settings.BitwardenConfig Settings.sys_ok Settings.config_yml
                 Settings.w0 = (inr s', snd run))
    by (vm_compute; reflexivity).
  assert (Hord : Settings.in_order Settings.sys_ok
                   (Settings.objects (snd run)) s')
    by (apply in_order_sys_ok; vm_compute; reflexivity).
  assert (Hd : Settings.present (Settings.objects (snd run)) s' "discord"
               = true)
    by (vm_compute; reflexivity).
  destruct (module_body_loads Settings.sys_ok Settings.config_yml Settings.w0
              (Settings.RVal (PBool true)) s' (snd run) Hen Hs Hord Hd)
    as (d & w' & Hrun & Hc & _).
  exists d, w'. split; [exact Hrun|]. rewrite Hc. vm_compute. reflexivity.
Defined.

Lemma runs_nothing_bind {A B} (m : Settings.S A) (k : A → Settings.S B) :
  Settings.runs_nothing m → (∀ a, Settings.runs_nothing (k a)) →
  Settings.runs_nothing (Settings.bind m k).
Proof.
  intros Hm Hk w r w'. unfold Settings.bind.
  destruct (m w) as [[e|a] w1] eqn:Hmw.
  - intros [= <- <-]. by apply (Hm _ _ _ Hmw).
  - intros Hka. rewrite (Hk _ _ _ _ Hka). by apply (Hm _ _ _ Hmw).
Qed.

Lemma runs_nothing_ret {A} (a : A) : Settings.runs_nothing (Settings.ret a).
Proof. by intros w r w' [= <- <-]. Qed.

Lemma runs_nothing_raise {A} e :
  Settings.runs_nothing (Settings.raise e : Settings.S A).
Proof. by intros w r w' [= <- <-]. Qed.

Lemma runs_nothing_lift {A} (x : Settings.error + A) :
  Settings.runs_nothing (Settings.lift x).
Proof.
  intros w r w'. unfold Settings.lift, Settings.ret, Settings.raise.
  destruct x; by intros [= <- <-].
Qed.

Lemma runs_nothing_construct Y cls v :
  Settings.runs_nothing (Settings.construct Y cls v).
Proof.
  intros w r w'. unfold Settings.construct.
  destruct (Settings.items (Settings.objects w) v) as [kwargs|];
    [|by intros [= <- <-]].
  destruct (Settings.validate Y cls kwargs (Settings.objects w));
    by intros [= <- <-].
Qed.

Lemma runs_nothing_required Y settings cls key :
  Settings.runs_nothing (Settings.required Y settings cls key).
Proof.
  apply runs_nothing_bind; [apply runs_nothing_lift|].
  intros v. apply runs_nothing_construct.
Qed.

Lemma runs_nothing_optional Y settings cls key msg :
  Settings.runs_nothing (Settings.optional Y settings cls key msg).
Proof.
  intros w r w'. unfold Settings.optional.
  destruct (Settings.r_truthy (Settings.objects w)
              (Settings.top_get settings key)).
  - apply runs_nothing_bind; [apply runs_nothing_required|].
    intros c. apply runs_nothing_ret.
  - apply runs_nothing_bind; [|intros []; apply runs_nothing_ret].
    by intros w2 r2 w2' [= <- <-].
Qed.

(** Unless [bws.enable] is set in [config.yml], the module body starts no
    process, whether it reaches its end or raises. *)
Theorem module_body_bitwarden_disabled Y settings w r w' :
  (∀ enable,
     Settings.r_get (Settings.objects w) (Settings.top_get settings "bws")
       "enable" = inr enable →
     Settings.r_truthy (Settings.objects w) enable = false) →
  Settings.module_body Y settings w = (r, w') →
  Settings.commands w' = Settings.commands w.
Proof.
  intros Hoff Hrun. unfold Settings.module_body in Hrun.
  unfold Settings.bind at 1, Settings.reading, Settings.lift in Hrun.
  destruct (Settings.r_get (Settings.objects w)
              (Settings.top_get settings "bws") "enable")
    as [e|enable] eqn:Hen.
  { by injection Hrun as <- <-. }
  unfold Settings.ret at 1, Settings.bind at 1 in Hrun.
  rewrite (Hoff enable eq_refl) in Hrun. unfold Settings.ret at 1 in Hrun.
  revert Hrun.
  match goal with
  | |- ?m w = _ → _ => assert (Hk : Settings.runs_nothing m)
  end.
  { repeat first
      [ apply runs_nothing_required
      | apply runs_nothing_optional
      | apply runs_nothing_construct
      | apply runs_nothing_ret
      | apply runs_nothing_raise
      | apply runs_nothing_bind; [|intros ?]
      | match goal with |- Settings.runs_nothing (match ?x with _ => _ end) =>
          destruct x end ]. }
  apply Hk.
Qed.

Lemma module_body_bitwarden_disabled_witness :
  Settings.commands
    (snd (Settings.module_body Settings.sys_ok Settings.config_plain
            Settings.w0)) = [].
Proof.
  apply (module_body_bitwarden_disabled Settings.sys_ok Settings.config_plain
           Settings.w0
           (fst (Settings.module_body Settings.sys_ok Settings.config_plain
                   Settings.w0))).
  - intros enable Hen. vm_compute in Hen. by injection Hen as <-.
  - by destruct (Settings.module_body _ _ _).
Defined.
(** * Properties of the singleton metaclass *)

Section SingletonProperties.
Context {Cls Args Inst : Type} `{Countable Cls}.
Variable super_call : Cls → Args → Settings.error + Inst.

Lemma call_cached cls inst c a m r m' :
  Settings._instances m !! cls = Some inst →
  Settings.__call__ super_call c a m = (r, m') →
  Settings._instances m' !! cls = Some inst ∧
  (c = cls → r = inr inst) ∧
  Settings.of_class cls (Settings.constructions m')
  = Settings.of_class cls (Settings.constructions m).
Proof.
  intros Hcls. unfold Settings.__call__, Settings.of_class.
  destruct (Settings._instances m !! c) as [x|] eqn:Hc.
  - intros [= <- <-]. split; [done|]. split; [|done].
    intros ->. rewrite Hcls in Hc. by injection Hc as ->.
  - assert (Hne : c ≠ cls) by (intros ->; by rewrite Hcls in Hc).
    destruct (super_call c a) as [e|x]; intros [= <- <-];
      cbn [Settings._instances Settings.constructions];
      rewrite filter_app, filter_cons_False, filter_nil, app_nil_r by done.
    + done.
    + by rewrite lookup_insert_ne.
Qed.

Lemma call_inr c a m x m' :
  Settings.__call__ super_call c a m = (inr x, m') →
  Settings._instances m' !! c = Some x.
Proof.
  unfold Settings.__call__.
  destruct (Settings._instances m !! c) as [y|] eqn:Hc.
  - by intros [= <- <-].
  - destruct (super_call c a) as [e|y]; intros [= <- <-].
    cbn [Settings._instances]. by rewrite lookup_insert_eq.
Qed.

(** Once a class has its instance, every later call of the class returns
    it and constructs nothing, whatever calls come in between. *)
Lemma calls_cached cls inst : ∀ l m rs m',
  Settings._instances m !! cls = Some inst →
  Settings.calls super_call l m = (rs, m') →
  Settings._instances m' !! cls = Some inst ∧
  (∀ i args, l !! i = Some (cls, args) → rs !! i = Some (inr inst)) ∧
  Settings.of_class cls (Settings.constructions m')
  = Settings.of_class cls (Settings.constructions m).
Proof.
  induction l as [|[c a] l IH]; intros m rs m' Hcls Hcalls.
  - injection Hcalls as <- <-. split; [done|]. split; [|done].
    intros i args Hi. by rewrite lookup_nil in Hi.
  - cbn [Settings.calls] in Hcalls.
    destruct (Settings.__call__ super_call c a m) as [r m1] eqn:Hcall.
    destruct (Settings.calls super_call l m1) as [rs1 m2] eqn:Hrest.
    injection Hcalls as <- <-.
    destruct (call_cached _ _ _ _ _ _ _ Hcls Hcall) as (Hcls1 & Hr & Hc1).
    destruct (IH _ _ _ Hcls1 Hrest) as (Hcls2 & Hrs & Hc2).
    split; [done|]. split; [|by rewrite Hc2].
    intros [|i] args Hi; simpl in Hi |- *.
    + injection Hi as -> ->. by rewrite Hr.
    + by apply (Hrs i args).
Qed.

(** The first call of a class that has no instance yet decides: if its
    construction succeeds, the instance built from its arguments is what
    this call and every later call of the class returns, with whatever
    arguments and whatever calls of other classes in between, and the
    class is constructed this one time only. *)
Theorem singleton_first_call_wins cls args inst l m rs m' :
  Settings._instances m !! cls = None →
  super_call cls args = inr inst →
  Settings.calls super_call ((cls, args) :: l) m = (rs, m') →
  rs !! 0%nat = Some (inr inst) ∧
  (∀ i args', l !! i = Some (cls, args') → rs !! S i = Some (inr inst)) ∧
  Settings._instances m' !! cls = Some inst ∧
  Settings.of_class cls (Settings.constructions m')
  = (Settings.of_class cls (Settings.constructions m) ++ [(cls, args)])%list.
Proof.
  intros Hnone Hsuper Hcalls. cbn [Settings.calls] in Hcalls.
  unfold Settings.__call__ in Hcalls. rewrite Hnone, Hsuper in Hcalls.
  destruct (Settings.calls super_call l _) as [rs1 m2] eqn:Hrest.
  injection Hcalls as <- <-.
  destruct (calls_cached cls inst _ _ _ _ (lookup_insert_eq _ _ _) Hrest)
    as (Hcls & Hrs & Hc).
  split; [done|]. split; [exact Hrs|]. split; [done|].
  rewrite Hc. cbn [Settings.constructions]. unfold Settings.of_class.
  by rewrite filter_app, filter_cons_True, filter_nil.
Qed.

(** Whatever the state of the metaclass and whatever the sequence of
    calls, two calls of the same class that both return return the same
    instance. *)
Theorem singleton_one_instance cls : ∀ l m rs m' i j a a' x y,
  Settings.calls super_call l m = (rs, m') →
  l !! i = Some (cls, a) → l !! j = Some (cls, a') →
  rs !! i = Some (inr x) → rs !! j = Some (inr y) →
  x = y.
Proof.
  induction l as [|[c b] l IH]; intros m rs m' i j a a' x y Hcalls Hi Hj Hx Hy;
    [by rewrite lookup_nil in Hi|].
  cbn [Settings.calls] in Hcalls.
  destruct (Settings.__call__ super_call c b m) as [r m1] eqn:Hcall.
  destruct (Settings.calls super_call l m1) as [rs1 m2] eqn:Hrest.
  injection Hcalls as <- <-.
  destruct i as [|i], j as [|j]; simpl in Hi, Hj, Hx, Hy.
  - rewrite Hx in Hy. by injection Hy.
  - injection Hi as -> ->. injection Hx as ->.
    apply call_inr in Hcall.
    destruct (calls_cached cls x _ _ _ _ Hcall Hrest) as (_ & Hrs & _).
    rewrite (Hrs j a' Hj) in Hy. by injection Hy.
  - injection Hj as -> ->. injection Hy as ->.
    apply call_inr in Hcall.
    destruct (calls_cached cls y _ _ _ _ Hcall Hrest) as (_ & Hrs & _).
    rewrite (Hrs i a Hi) in Hx. by injection Hx.
  - by apply (IH m1 rs1 m2 i j a a' x y).
Qed.

End SingletonProperties.

Lemma singleton_first_call_wins_witness :
  ∃ rs m',
    Settings.calls (fun (_ : string) (port : Z) => inr port)
      [("Settings", 6379%Z); ("Other", 1%Z); ("Settings", 80%Z)]
      {| Settings._instances := ∅; Settings.constructions := [] |}
    = (rs, m') ∧
    rs !! 2%nat = Some (inr 6379%Z) ∧
    Settings._instances m' !! "Settings" = Some 6379%Z.
Proof.
  destruct (Settings.calls _ _ _) as [rs m'] eqn:Hcalls.
  exists rs, m'. split; [reflexivity|].
  destruct (singleton_first_call_wins
              (fun (_ : string) (port : Z) => inr port)
              "Settings" 6379%Z 6379%Z
              [("Other", 1%Z); ("Settings", 80%Z)]
              {| Settings._instances := ∅; Settings.constructions := [] |}
              rs m' (lookup_empty _) eq_refl Hcalls) as (_ & Hrs & Hm & _).
  split; [exact (Hrs 1%nat 80%Z eq_refl)|exact Hm].
Defined.

Lemma singleton_one_instance_witness :
  ∃ rs m' x y,
    Settings.calls (fun (_ : string) (port : Z) => inr port)
      [("Settings", 6379%Z); ("Settings", 80%Z)]
      {| Settings._instances := ∅; Settings.constructions := [] |}
    = (rs, m') ∧
    rs !! 0%nat = Some (inr x) ∧ rs !! 1%nat = Some (inr y) ∧ x = y.
Proof.
  assert (Hcalls :
    Settings.calls (fun (_ : string) (port : Z) => inr port)
      [("Settings", 6379%Z); ("Settings", 80%Z)]
      {| Settings._instances := ∅; Settings.constructions := [] |}
    = ([inr 6379%Z; inr 6379%Z],
       {| Settings._instances := <["Settings" := 6379%Z]> ∅;
          Settings.constructions := [("Settings", 6379%Z)] |}))
    by (vm_compute; reflexivity).
  eexists _, _, 6379%Z, 6379%Z. split; [exact Hcalls|].
  split; [reflexivity|]. split; [reflexivity|].
  exact (singleton_one_instance
           (fun (_ : string) (port : Z) => inr port) "Settings"
           _ _ _ _ 0%nat 1%nat 6379%Z 80%Z 6379%Z 6379%Z
           Hcalls eq_refl eq_refl eq_refl eq_refl).
Defined.
